(** * Adaptive traffic-light simulation: scheduler and vehicle motion

    A shallow embedding of [ai_traffic_simulation.py].  The module-level
    globals of the program ([vehicles], [signals], [time_elapsed],
    [current_green], [current_yellow], [lane_last_green_time],
    [waiting_times]) are gathered in one [World] record that every
    operation takes and returns.

    Conventions of the embedding:
    - pixel coordinates and speeds are Python floats; they are modelled by
      exact rationals ([Q]), every constant of the program being a finite
      decimal, so that a motion step of the model is that of the program
      up to the roundoff of one addition; the priority score of the
      scheduler, where two equal reals can be computed as different floats
      and a tie is at stake, carries its roundings as a parameter, and the
      power [n ** 0.85] of the green-time formula is rounded to the nearest
      integer by an exact integer test;
    - the 0/1 flags [crossed], [will_turn] and [turned] are booleans;
    - a vehicle's [direction] and [lane] attributes are set once in
      [__init__] and name the queue [vehicles[direction][lane]] that holds
      the vehicle, so the model reads them off the queue's key;
    - a vehicle object is identified by its position in its lane queue,
      which is what [lane_list.index(self)] computes;
    - the sprite group [simulation] holds exactly the vehicles that are in
      some lane queue and is not modelled separately. *)

From Stdlib Require Import QArith ZArith List Bool Lia Lqa Qround.
Import ListNotations.

Open Scope Q_scope.

(** ** Boolean comparisons on rationals *)

Definition Qltb (a b : Q) : bool := negb (Qle_bool b a).
Definition Qleb (a b : Q) : bool := Qle_bool a b.

Infix "<?" := Qltb (at level 70, no associativity) : Q_scope.
Infix "<=?" := Qleb (at level 70, no associativity) : Q_scope.
Notation "a >? b" := (Qltb b a) (at level 70, no associativity) : Q_scope.
Notation "a >=? b" := (Qleb b a) (at level 70, no associativity) : Q_scope.

(** ** Configuration constants *)

Definition DEFAULT_RED : Z := 150.
Definition DEFAULT_YELLOW : Z := 5.
Definition DEFAULT_GREEN : Z := 20.
Definition DEFAULT_MINIMUM : Z := 10.
Definition DEFAULT_MAXIMUM : Z := 60.

Definition NO_OF_SIGNALS : nat := 4.
Definition NO_OF_LANES : Z := 2.
Definition DETECTION_TIME : Z := 5.

Inductive VClass : Type := car | bus | truck | rickshaw | bike | emergency.

Inductive Direction : Type := DRight | DDown | DLeft | DUp.

(** The three lane keys [0], [1], [2] of every approach. *)
Inductive LaneId : Type := L0 | L1 | L2.

Definition VClass_eqb (a b : VClass) : bool :=
  match a, b with
  | car, car | bus, bus | truck, truck | rickshaw, rickshaw
  | bike, bike | emergency, emergency => true
  | _, _ => false
  end.

Definition Direction_eqb (a b : Direction) : bool :=
  match a, b with
  | DRight, DRight | DDown, DDown | DLeft, DLeft | DUp, DUp => true
  | _, _ => false
  end.

Definition LaneId_eqb (a b : LaneId) : bool :=
  match a, b with
  | L0, L0 | L1, L1 | L2, L2 => true
  | _, _ => false
  end.

(** [VEHICLE_TIMES]: seconds to pass the intersection; there is no entry
    for [emergency]. *)
Definition VEHICLE_TIMES (c : VClass) : option Q :=
  match c with
  | car => Some 2
  | bike => Some 1
  | rickshaw => Some 2.25
  | bus => Some 2.5
  | truck => Some 2.5
  | emergency => None
  end.

Definition VEHICLE_SPEEDS (c : VClass) : Q :=
  match c with
  | car => 1.15
  | bus => 0.6
  | truck => 0.6
  | rickshaw => 0.8
  | bike => 1.3
  | emergency => 1.7
  end.

(** [VEHICLE_TYPES]: keys 0..5. *)
Definition VEHICLE_TYPES (k : Z) : VClass :=
  if (k =? 0)%Z then car
  else if (k =? 1)%Z then bus
  else if (k =? 2)%Z then truck
  else if (k =? 3)%Z then rickshaw
  else if (k =? 4)%Z then bike
  else emergency.

(** [DIRECTIONS]: keys 0..3, the approach indices.  The program only ever
    looks up [range(NO_OF_SIGNALS)], [current_green] and
    [(current_green + 1) % NO_OF_SIGNALS]. *)
Definition DIRECTIONS (i : nat) : Direction :=
  match i with
  | 0%nat => DRight
  | 1%nat => DDown
  | 2%nat => DLeft
  | _ => DUp
  end.

Definition SPAWN_COORDS (d : Direction) (l : LaneId) : Q * Q :=
  match d, l with
  | DRight, L0 => (0, 348) | DRight, L1 => (0, 370) | DRight, L2 => (0, 398)
  | DDown, L0 => (755, 0) | DDown, L1 => (727, 0) | DDown, L2 => (697, 0)
  | DLeft, L0 => (1400, 498) | DLeft, L1 => (1400, 466)
  | DLeft, L2 => (1400, 436)
  | DUp, L0 => (602, 800) | DUp, L1 => (627, 800) | DUp, L2 => (657, 800)
  end.

Definition STOP_LINES (d : Direction) : Q :=
  match d with DRight => 590 | DDown => 330 | DLeft => 800 | DUp => 535 end.

Definition DEFAULT_STOPS (d : Direction) : Q :=
  match d with DRight => 580 | DDown => 320 | DLeft => 810 | DUp => 545 end.

Definition TURN_MIDPOINTS_x (d : Direction) : Q :=
  match d with DRight => 705 | DDown => 695 | DLeft => 695 | DUp => 695 end.

Definition TURN_MIDPOINTS_y (d : Direction) : Q :=
  match d with DRight => 445 | DDown => 450 | DLeft => 425 | DUp => 400 end.

Definition STOPPING_GAP : Q := 15.
Definition MOVING_GAP : Q := 15.
Definition ROTATION_ANGLE : Z := 3.

(** ** Data model *)

(** What the program uses of a pygame surface: the size of its rectangle. *)
Record Image : Type := mkImage { width : Z; height : Z }.

Record TrafficSignal : Type := mkSignal {
  red : Z;
  yellow : Z;
  green : Z;
  minimum : Z;
  maximum : Z;
  total_green_time : Z
}.

Record Vehicle : Type := mkVehicle {
  vehicle_class : VClass;
  x : Q;
  y : Q;
  crossed : bool;
  will_turn : bool;
  turned : bool;
  rotate_angle : Z;
  waiting_time : Z;
  spawn_time : Z;
  cross_time : option Z;
  original_image : Image;
  current_image : Image;
  stop : Q
}.

(** [self.speed], fixed in [__init__] from the class table. *)
Definition speed (v : Vehicle) : Q := VEHICLE_SPEEDS (vehicle_class v).

(** [self.current_image.get_rect().width] and [.height]. *)
Definition rect_w (v : Vehicle) : Q := inject_Z (width (current_image v)).
Definition rect_h (v : Vehicle) : Q := inject_Z (height (current_image v)).

Definition set_x (v : Vehicle) (a : Q) : Vehicle :=
  mkVehicle (vehicle_class v) a (y v) (crossed v) (will_turn v) (turned v)
    (rotate_angle v) (waiting_time v) (spawn_time v) (cross_time v)
    (original_image v) (current_image v) (stop v).

Definition set_y (v : Vehicle) (a : Q) : Vehicle :=
  mkVehicle (vehicle_class v) (x v) a (crossed v) (will_turn v) (turned v)
    (rotate_angle v) (waiting_time v) (spawn_time v) (cross_time v)
    (original_image v) (current_image v) (stop v).

Definition set_waiting_time (v : Vehicle) (n : Z) : Vehicle :=
  mkVehicle (vehicle_class v) (x v) (y v) (crossed v) (will_turn v) (turned v)
    (rotate_angle v) n (spawn_time v) (cross_time v)
    (original_image v) (current_image v) (stop v).

Definition set_stop (v : Vehicle) (a : Q) : Vehicle :=
  mkVehicle (vehicle_class v) (x v) (y v) (crossed v) (will_turn v) (turned v)
    (rotate_angle v) (waiting_time v) (spawn_time v) (cross_time v)
    (original_image v) (current_image v) a.

Definition set_turned (v : Vehicle) (b : bool) : Vehicle :=
  mkVehicle (vehicle_class v) (x v) (y v) (crossed v) (will_turn v) b
    (rotate_angle v) (waiting_time v) (spawn_time v) (cross_time v)
    (original_image v) (current_image v) (stop v).

(** The two assignments [crossed = 1; cross_time = time_elapsed]. *)
Definition set_crossed (v : Vehicle) (t : Z) : Vehicle :=
  mkVehicle (vehicle_class v) (x v) (y v) true (will_turn v) (turned v)
    (rotate_angle v) (waiting_time v) (spawn_time v) (Some t)
    (original_image v) (current_image v) (stop v).

(** The two assignments of a rotation step: the new angle and the image
    obtained from it. *)
Definition set_rotation (v : Vehicle) (a : Z) (im : Image) : Vehicle :=
  mkVehicle (vehicle_class v) (x v) (y v) (crossed v) (will_turn v) (turned v)
    a (waiting_time v) (spawn_time v) (cross_time v)
    (original_image v) im (stop v).

Record World : Type := mkWorld {
  vehicles : Direction -> LaneId -> list Vehicle;
  crossed_count : Direction -> Z;          (* vehicles[d]['crossed'] *)
  signals : list TrafficSignal;
  time_elapsed : Z;
  current_green : nat;
  current_yellow : Z;
  lane_last_green_time : list Z;
  waiting_times : list Z
}.

Definition set_lane (w : World) (d : Direction) (l : LaneId)
    (q : list Vehicle) : World :=
  mkWorld
    (fun d' l' =>
       if Direction_eqb d d' && LaneId_eqb l l' then q else vehicles w d' l')
    (crossed_count w) (signals w) (time_elapsed w) (current_green w)
    (current_yellow w) (lane_last_green_time w) (waiting_times w).

(** ** List helpers for queue updates *)

Fixpoint replace_at {A : Type} (i : nat) (a : A) (l : list A) : list A :=
  match l, i with
  | [], _ => []
  | _ :: t, O => a :: t
  | h :: t, S k => h :: replace_at k a t
  end.

Fixpoint remove_at {A : Type} (i : nat) (l : list A) : list A :=
  match l, i with
  | [], _ => []
  | _ :: t, O => t
  | h :: t, S k => h :: remove_at k t
  end.

(** The lane queue once the vehicle at position [i] has made its move:
    the vehicle object, mutated in place, is still at its position, or
    [lane_list.remove(self)] has taken it out. *)
Definition put_back (i : nat) (lane_list : list Vehicle)
    (r : option Vehicle) : list Vehicle :=
  match r with
  | Some self' => replace_at i self' lane_list
  | None => remove_at i lane_list
  end.

(** ** Vehicle motion model *)

Section Motion.

(** [pygame.transform.rotate]: the rotated surface, of which only the
    rectangle matters here.  Its size depends on pygame's resampling and is
    left as a parameter. *)
Variable transform_rotate : Image -> Z -> Image.

(** The spacing clause shared by the gating conditions:
    [idx == 0 or <condition on lane_list[idx - 1]>]. *)
Definition ahead_clear (idx : nat) (lane_list : list Vehicle)
    (cond : Vehicle -> bool) : bool :=
  (idx =? 0)%nat ||
  match nth_error lane_list (idx - 1) with
  | Some prev => cond prev
  | None => false
  end.

(** The phase clause [current_green == k and current_yellow == 0]. *)
Definition holds_green (w : World) (k : nat) : bool :=
  (current_green w =? k)%nat && (current_yellow w =? 0)%Z.

(** [_mark_crossed]: flags the vehicle and records the metrics. *)
Definition _mark_crossed (w : World) (d : Direction) (self : Vehicle)
    : World * Vehicle :=
  let cross := time_elapsed w in
  (mkWorld (vehicles w)
     (fun d' => if Direction_eqb d d' then (crossed_count w d' + 1)%Z
                else crossed_count w d')
     (signals w) (time_elapsed w) (current_green w) (current_yellow w)
     (lane_last_green_time w)
     (waiting_times w ++ [(cross - spawn_time self)%Z]),
   set_crossed self cross).

(** The geometric test of [_check_crossing]: the leading edge is beyond the
    stop line of the direction. *)
Definition past_stop_line (d : Direction) (self : Vehicle) : bool :=
  match d with
  | DRight => x self + rect_w self >? STOP_LINES DRight
  | DDown => y self + rect_h self >? STOP_LINES DDown
  | DLeft => x self <? STOP_LINES DLeft
  | DUp => y self <? STOP_LINES DUp
  end.

Definition _check_crossing (w : World) (d : Direction) (self : Vehicle)
    : World * Vehicle :=
  if negb (crossed self) then
    if past_stop_line d self then _mark_crossed w d self else (w, self)
  else (w, self).

(** Each [_move_*] method returns the updated vehicle and the flag the
    method returns. *)

Definition _move_right_straight (w : World) (idx : nat)
    (lane_list : list Vehicle) (self : Vehicle) : Vehicle * bool :=
  let can_move :=
    ((x self + rect_w self <=? stop self) || crossed self || holds_green w 0)
    && ahead_clear idx lane_list (fun prev =>
         (x self + rect_w self <? x prev - MOVING_GAP) || turned prev) in
  if can_move then (set_x self (x self + speed self), true) else (self, false).

(** One rotation step: the angle, the image, the diagonal displacement and
    the [turned] flag. *)
Definition rotation_step (self : Vehicle) (dx dy : Q) : Vehicle :=
  let angle := (rotate_angle self + ROTATION_ANGLE)%Z in
  let v1 := set_rotation self angle
              (transform_rotate (original_image self) (- angle)) in
  let v2 := set_y (set_x v1 (x v1 + dx)) (y v1 + dy) in
  if (angle =? 90)%Z then set_turned v2 true else v2.

Definition _move_right_turn (w : World) (idx : nat)
    (lane_list : list Vehicle) (self : Vehicle) : Vehicle * bool :=
  if negb (crossed self) || (x self + rect_w self <? TURN_MIDPOINTS_x DRight)
  then
    let can_move :=
      ((x self + rect_w self <=? stop self) || holds_green w 0 || crossed self)
      && ahead_clear idx lane_list (fun prev =>
           (x self + rect_w self <? x prev - MOVING_GAP) || turned prev) in
    if can_move then (set_x self (x self + speed self), true)
    else (self, false)
  else if negb (turned self) then (rotation_step self 2 1.8, true)
  else
    let can_move :=
      ahead_clear idx lane_list (fun prev =>
        (y self + rect_h self <? y prev - MOVING_GAP)
        || (x self + rect_w self <? x prev - MOVING_GAP)) in
    if can_move then (set_y self (y self + speed self), true)
    else (self, false).

Definition _move_right (w : World) (idx : nat) (lane_list : list Vehicle)
    (self : Vehicle) : Vehicle * bool :=
  if will_turn self then _move_right_turn w idx lane_list self
  else _move_right_straight w idx lane_list self.

Definition _move_down_straight (w : World) (idx : nat)
    (lane_list : list Vehicle) (self : Vehicle) : Vehicle * bool :=
  let can_move :=
    ((y self + rect_h self <=? stop self) || crossed self || holds_green w 1)
    && ahead_clear idx lane_list (fun prev =>
         (y self + rect_h self <? y prev - MOVING_GAP) || turned prev) in
  if can_move then (set_y self (y self + speed self), true) else (self, false).

Definition _move_down_turn (w : World) (idx : nat)
    (lane_list : list Vehicle) (self : Vehicle) : Vehicle * bool :=
  if negb (crossed self) || (y self + rect_h self <? TURN_MIDPOINTS_y DDown)
  then
    let can_move :=
      ((y self + rect_h self <=? stop self) || holds_green w 1 || crossed self)
      && ahead_clear idx lane_list (fun prev =>
           (y self + rect_h self <? y prev - MOVING_GAP) || turned prev) in
    if can_move then (set_y self (y self + speed self), true)
    else (self, false)
  else if negb (turned self) then (rotation_step self (- 2.5) 2, true)
  else
    let can_move :=
      ahead_clear idx lane_list (fun prev =>
        (x self >? x prev + rect_w prev + MOVING_GAP)
        || (y self <? y prev - MOVING_GAP)) in
    if can_move then (set_x self (x self - speed self), true)
    else (self, false).

Definition _move_down (w : World) (idx : nat) (lane_list : list Vehicle)
    (self : Vehicle) : Vehicle * bool :=
  if will_turn self then _move_down_turn w idx lane_list self
  else _move_down_straight w idx lane_list self.

(** The backward scan of [_move_left_after_crossing] for the nearest
    vehicle ahead in the queue that is still on the scene. *)
Definition find_ahead (idx : nat) (lane_list : list Vehicle)
    : option Vehicle :=
  find (fun v => x v + rect_w v >? 0) (rev (firstn idx lane_list)).

(** [None] in the first component: the vehicle was removed from its lane
    queue (and from the sprite group). *)
Definition _move_left_after_crossing (idx : nat) (lane_list : list Vehicle)
    (self : Vehicle) : option Vehicle * bool :=
  let ahead := find_ahead idx lane_list in
  if match ahead with
     | None => true
     | Some a => x self >? x a + rect_w a + MOVING_GAP
     end
  then (Some (set_x self (x self - speed self)), true)
  else if x self + rect_w self <? - (10)
  then (None, false)
  else (Some self, false).

Definition _move_left_straight (w : World) (idx : nat)
    (lane_list : list Vehicle) (self : Vehicle) : Vehicle * bool :=
  let can_move :=
    ((x self >=? stop self) || crossed self || holds_green w 2)
    && ahead_clear idx lane_list (fun prev =>
         x self >? x prev + rect_w prev + MOVING_GAP) in
  if can_move then (set_x self (x self - speed self), true) else (self, false).

Definition _move_left_turn (w : World) (idx : nat)
    (lane_list : list Vehicle) (self : Vehicle) : Vehicle * bool :=
  if negb (crossed self) || (x self >? TURN_MIDPOINTS_x DLeft)
  then
    let can_move :=
      ((x self >=? stop self) || holds_green w 2 || crossed self)
      && ahead_clear idx lane_list (fun prev =>
           (x self >? x prev + rect_w prev + MOVING_GAP) || turned prev) in
    if can_move then (set_x self (x self - speed self), true)
    else (self, false)
  else if negb (turned self) then (rotation_step self (- 1.8) (- 2.5), true)
  else
    let can_move :=
      ahead_clear idx lane_list (fun prev =>
        (y self >? y prev + rect_h prev + MOVING_GAP)
        || (x self >? x prev + MOVING_GAP)) in
    if can_move then (set_y self (y self - speed self), true)
    else (self, false).

Definition keep (r : Vehicle * bool) : option Vehicle * bool :=
  (Some (fst r), snd r).

Definition _move_left (w : World) (idx : nat) (lane_list : list Vehicle)
    (self : Vehicle) : option Vehicle * bool :=
  if crossed self then _move_left_after_crossing idx lane_list self
  else if will_turn self then keep (_move_left_turn w idx lane_list self)
  else keep (_move_left_straight w idx lane_list self).

Definition _move_up_straight (w : World) (idx : nat)
    (lane_list : list Vehicle) (self : Vehicle) : Vehicle * bool :=
  let can_move :=
    ((y self >=? stop self) || crossed self || holds_green w 3)
    && ahead_clear idx lane_list (fun prev =>
         (y self >? y prev + rect_h prev + MOVING_GAP) || turned prev) in
  if can_move then (set_y self (y self - speed self), true) else (self, false).

Definition _move_up_turn (w : World) (idx : nat)
    (lane_list : list Vehicle) (self : Vehicle) : Vehicle * bool :=
  if negb (crossed self) || (y self >? TURN_MIDPOINTS_y DUp)
  then
    let can_move :=
      ((y self >=? stop self) || holds_green w 3 || crossed self)
      && ahead_clear idx lane_list (fun prev =>
           (y self >? y prev + rect_h prev + MOVING_GAP) || turned prev) in
    if can_move then (set_y self (y self - speed self), true)
    else (self, false)
  else if negb (turned self) then (rotation_step self 1 (- (1)), true)
  else
    let can_move :=
      ahead_clear idx lane_list (fun prev =>
        (x self <? x prev - rect_w prev - MOVING_GAP)
        || (y self >? y prev + MOVING_GAP)) in
    if can_move then (set_x self (x self + speed self), true)
    else (self, false).

Definition _move_up (w : World) (idx : nat) (lane_list : list Vehicle)
    (self : Vehicle) : Vehicle * bool :=
  if will_turn self then _move_up_turn w idx lane_list self
  else _move_up_straight w idx lane_list self.

(** The direction dispatch of [move]. *)
Definition move_by_direction (w : World) (d : Direction) (idx : nat)
    (lane_list : list Vehicle) (self : Vehicle) : option Vehicle * bool :=
  match d with
  | DRight => keep (_move_right w idx lane_list self)
  | DDown => keep (_move_down w idx lane_list self)
  | DLeft => _move_left w idx lane_list self
  | DUp => keep (_move_up w idx lane_list self)
  end.

(** The part of [move] that runs on the vehicle once its index is known:
    the waiting counter, the crossing check and the motion.  It returns the
    world with the metrics of the crossing check and what became of the
    vehicle. *)
Definition advance (w : World) (d : Direction) (idx : nat)
    (lane_list : list Vehicle) (self : Vehicle) : World * option Vehicle :=
  let self1 :=
    if negb (crossed self)
    then set_waiting_time self (waiting_time self + 1) else self in
  let (w1, self2) := _check_crossing w d self1 in
  (w1, fst (move_by_direction w1 d idx lane_list self2)).

(** [Vehicle.move], for the vehicle object at position [idx] of
    [vehicles[d][l]].  A vehicle no longer in its queue ([ValueError] from
    [index]) is skipped. *)
Definition move (w : World) (d : Direction) (l : LaneId) (idx : nat) : World :=
  let lane_list := vehicles w d l in
  match nth_error lane_list idx with
  | None => w
  | Some self =>
      let (w1, r) := advance w d idx lane_list self in
      set_lane w1 d l (put_back idx lane_list r)
  end.

End Motion.

(** ** Vehicle generator *)

Section Generator.

(** [pygame.image.load] of the picture of a class for a direction. *)
Variable load_image : Direction -> VClass -> Image.

(** [_set_stop_position], run at the end of [__init__] when the new vehicle
    is already the last element of [lane_list]; [queue] is the lane queue
    before the append, so [lane_list[self.index - 1]] is its last element. *)
Definition _set_stop_position (d : Direction) (queue : list Vehicle) : Q :=
  match nth_error queue (length queue - 1) with
  | Some prev_vehicle =>
      if negb (crossed prev_vehicle) then
        match d with
        | DRight => stop prev_vehicle - rect_w prev_vehicle - STOPPING_GAP
        | DLeft => stop prev_vehicle + rect_w prev_vehicle + STOPPING_GAP
        | DDown => stop prev_vehicle - rect_h prev_vehicle - STOPPING_GAP
        | DUp => stop prev_vehicle + rect_h prev_vehicle + STOPPING_GAP
        end
      else DEFAULT_STOPS d
  | None => DEFAULT_STOPS d
  end.

(** [Vehicle.__init__]: the new vehicle is appended to its lane queue. *)
Definition new_vehicle (w : World) (l : LaneId) (c : VClass)
    (d : Direction) (turn : bool) : World :=
  let queue := vehicles w d l in
  let self :=
    mkVehicle c (fst (SPAWN_COORDS d l)) (snd (SPAWN_COORDS d l))
      false turn false 0 0 (time_elapsed w) None
      (load_image d c) (load_image d c) (_set_stop_position d queue) in
  set_lane w d l (queue ++ [self]).

(** The random draws of one round of [generate_vehicles]:
    [random.random()], then [random.randint(0, 4)] for the class,
    [random.randint(0, 2)] for the lane, [random.randint(0, 3)] for the
    direction and [random.randint(0, 4)] for the turn. *)
Record Draws : Type := mkDraws {
  emergency_draw : Q;
  type_draw : Z;
  lane_draw : LaneId;
  direction_draw : nat;
  turn_draw : Z
}.

(** The turn decision of [generate_vehicles]. *)
Definition will_turn_of (lane_number : LaneId) (draw : Z) : bool :=
  if LaneId_eqb lane_number L2 then (draw <=? 2)%Z else false.

(** [generate_vehicles]: one round of its loop, on the draws [r]. *)
Definition generate_vehicles (w : World) (r : Draws) : World :=
  let vehicle_type :=
    if emergency_draw r <? 0.015 then 5%Z else type_draw r in
  let lane_number := lane_draw r in
  let direction_number := direction_draw r in
  let turn := will_turn_of lane_number (turn_draw r) in
  new_vehicle w lane_number (VEHICLE_TYPES vehicle_type)
    (DIRECTIONS direction_number) turn.

End Generator.

(** ** Signal scheduler *)

(** The vehicles of an approach in the order of the scans
    [for lane in range(3) for v in vehicles[d][lane]]. *)
Definition approach_vehicles (w : World) (d : Direction) : list Vehicle :=
  vehicles w d L0 ++ vehicles w d L1 ++ vehicles w d L2.

(** [sum(1 for lane in range(3) for v in vehicles[d][lane]
    if v.crossed == 0)]. *)
Definition waiting_count (w : World) (d : Direction) : Z :=
  Z.of_nat
    (length (filter (fun v => negb (crossed v)) (approach_vehicles w d))).

Definition is_waiting_emergency (v : Vehicle) : bool :=
  negb (crossed v) && VClass_eqb (vehicle_class v) emergency.

(** The arrival estimate of the emergency scan. *)
Definition arrival_estimate (d : Direction) (v : Vehicle) : Q :=
  match d with
  | DRight => x v
  | DLeft => - x v
  | DUp => y v
  | DDown => - y v
  end.

(** The pair [(earliest_emergency_time, earliest_emergency_lane)]; [None]
    stands for [float('inf')] and for [None]. *)
Definition ScanState : Type := (option Q * option nat)%type.

Definition scan_vehicle (lane_idx : nat) (st : ScanState) (v : Vehicle)
    : ScanState :=
  if is_waiting_emergency v then
    let estimate := arrival_estimate (DIRECTIONS lane_idx) v in
    if match fst st with
       | None => true
       | Some earliest => estimate <? earliest
       end
    then (Some estimate, Some lane_idx)
    else st
  else st.

Definition scan_approach (w : World) (st : ScanState) (lane_idx : nat)
    : ScanState :=
  fold_left (scan_vehicle lane_idx)
    (approach_vehicles w (DIRECTIONS lane_idx)) st.

(** The emergency scan over [range(NO_OF_SIGNALS)]. *)
Definition scan_emergencies (w : World) : ScanState :=
  fold_left (scan_approach w) (seq 0 NO_OF_SIGNALS) (None, None).

(** The tuples [(priority, lane_idx, waiting_count, waiting_time)]. *)
Definition PriorityTuple : Type := (Q * nat * Z * Z)%type.

Definition tuple_priority (p : PriorityTuple) : Q := fst (fst (fst p)).
Definition tuple_lane (p : PriorityTuple) : nat := snd (fst (fst p)).
Definition tuple_count (p : PriorityTuple) : Z := snd (fst p).
Definition tuple_waited (p : PriorityTuple) : Z := snd p.

Definition lane_waiting_time (w : World) (lane_idx : nat) : Z :=
  (time_elapsed w - nth lane_idx (lane_last_green_time w) 0)%Z.

Section Priority.

(** The priority score is the one float of the scheduler whose rounding
    can decide a comparison: two scores that are equal as real numbers, as
    [1 + 0.2 * 7] and [2 + 0.2 * 2], may be computed as different floats.
    The rounding of a real number to a float is therefore kept as a
    parameter [fl] of the score, applied where the program rounds: at the
    literal [0.2], at the product and at the sum (the integer operands are
    floats as they are). *)
Variable fl : Q -> Q.

Definition priority_of (count waited : Z) : Q :=
  if (count >? 0)%Z
  then fl (inject_Z count + fl (fl 0.2 * inject_Z waited))
  else 0.

Definition priority_tuple (w : World) (lane_idx : nat) : PriorityTuple :=
  let count := waiting_count w (DIRECTIONS lane_idx) in
  let waited := lane_waiting_time w lane_idx in
  (priority_of count waited, lane_idx, count, waited).

End Priority.

(** Python's lexicographic order on the tuples. *)
Definition tuple_compare (p q : PriorityTuple) : comparison :=
  match tuple_priority p ?= tuple_priority q with
  | Eq =>
      match Nat.compare (tuple_lane p) (tuple_lane q) with
      | Eq =>
          match Z.compare (tuple_count p) (tuple_count q) with
          | Eq => Z.compare (tuple_waited p) (tuple_waited q)
          | c => c
          end
      | c => c
      end
  | c => c
  end.

Definition tuple_ltb (p q : PriorityTuple) : bool :=
  match tuple_compare p q with Lt => true | _ => false end.

(** [priorities.sort(reverse=True)]: a stable sort into descending order. *)
Fixpoint insert_desc (p : PriorityTuple) (l : list PriorityTuple)
    : list PriorityTuple :=
  match l with
  | [] => [p]
  | q :: t => if tuple_ltb p q then q :: insert_desc p t else p :: q :: t
  end.

Definition sort_reverse (l : list PriorityTuple) : list PriorityTuple :=
  fold_right insert_desc [] l.

(** The candidates of the normal priority logic, after the filter
    [p[0] > 0] and the sort. *)
Definition priorities (fl : Q -> Q) (w : World) : list PriorityTuple :=
  sort_reverse
    (filter (fun p => tuple_priority p >? 0)
       (map (priority_tuple fl w) (seq 0 NO_OF_SIGNALS))).

(** The locals [max_waiting] and [max_waiting_time] of
    [repeat_signal_cycle].  They are bound by the unpacking of
    [priorities[0]] in the normal branch only, keep their value from one
    round of the loop to the next, and are read by the [print] that follows
    every selection; [None] stands for the unbound locals.  (The local
    [priorities], read by the [print] after that, is bound whenever they
    are.) *)
Definition Locals : Type := option (Z * Z).

(** The selection at the head of the cycle of [repeat_signal_cycle]:
    [Some (selected_lane, locals)], or [None] when the scheduler sleeps a
    second and starts over. *)
Definition selection (fl : Q -> Q) (w : World) (locals : Locals)
    : option (nat * Locals) :=
  match snd (scan_emergencies w) with
  | Some earliest_emergency_lane => Some (earliest_emergency_lane, locals)
  | None =>
      match priorities fl w with
      | [] => None
      | p :: _ => Some (tuple_lane p, Some (tuple_count p, tuple_waited p))
      end
  end.

(** The approach selected, which does not depend on the locals. *)
Definition select_lane (fl : Q -> Q) (w : World) : option nat :=
  option_map fst (selection fl w None).

(** *** Green-time sizing at selection

    [green_time = 8 + 1.0 * (waiting_count ** 0.85)] followed by
    [int(round(green_time))].  Rounding commutes with the addition of the
    integer 8, so the result is 8 plus the rounded power.  The exponent is
    17/20, and the real number [n ** (17/20)] lies strictly between
    [r - 1/2] and [r + 1/2] exactly when
    [(2r - 1)^20 < 2^20 * n^17 < (2r + 1)^20] (for [r >= 1]; only the upper
    bound for [r = 0]); it is never half-way between two integers, an odd
    20th power not being a multiple of [2^20].  The rounded power is
    therefore found in integer arithmetic by searching for the first [r]
    that meets the upper bound. *)

Definition pow085_below (n r : Z) : bool :=
  (2 ^ 20 * n ^ 17 <? (2 * r + 1) ^ 20)%Z.

Fixpoint round_pow085_from (fuel : nat) (n r : Z) : Z :=
  match fuel with
  | O => r
  | S k => if pow085_below n r then r else round_pow085_from k n (r + 1)
  end.

(** [round(n ** 0.85)] for a count [n]. *)
Definition round_pow085 (n : Z) : Z := round_pow085_from (Z.to_nat n) n 0.

Definition clamp_green (green_time : Z) : Z :=
  Z.max DEFAULT_MINIMUM (Z.min DEFAULT_MAXIMUM green_time).

(** The value before the clamp, [int(round(8 + 1.0 * n ** 0.85))]. *)
Definition nonlinear_estimate (count : Z) : Z := (8 + round_pow085 count)%Z.

Definition nonlinear_green_time (count : Z) : Z :=
  clamp_green (nonlinear_estimate count).

(** *** Signal store *)

Definition set_signals (w : World) (s : list TrafficSignal) : World :=
  mkWorld (vehicles w) (crossed_count w) s (time_elapsed w) (current_green w)
    (current_yellow w) (lane_last_green_time w) (waiting_times w).

Definition set_current_yellow (w : World) (b : Z) : World :=
  mkWorld (vehicles w) (crossed_count w) (signals w) (time_elapsed w)
    (current_green w) b (lane_last_green_time w) (waiting_times w).

Definition set_vehicles (w : World)
    (q : Direction -> LaneId -> list Vehicle) : World :=
  mkWorld q (crossed_count w) (signals w) (time_elapsed w) (current_green w)
    (current_yellow w) (lane_last_green_time w) (waiting_times w).

Definition set_red (s : TrafficSignal) (n : Z) : TrafficSignal :=
  mkSignal n (yellow s) (green s) (minimum s) (maximum s) (total_green_time s).

Definition set_yellow (s : TrafficSignal) (n : Z) : TrafficSignal :=
  mkSignal (red s) n (green s) (minimum s) (maximum s) (total_green_time s).

Definition set_green (s : TrafficSignal) (n : Z) : TrafficSignal :=
  mkSignal (red s) (yellow s) n (minimum s) (maximum s) (total_green_time s).

(** An assignment to an attribute of [signals[i]]; [None] is the
    [IndexError] of a missing signal. *)
Definition modify_signal (i : nat) (f : TrafficSignal -> TrafficSignal)
    (w : World) : option World :=
  match nth_error (signals w) i with
  | Some s => Some (set_signals w (replace_at i (f s) (signals w)))
  | None => None
  end.

Definition bind {A B : Type} (m : option A) (f : A -> option B) : option B :=
  match m with Some a => f a | None => None end.

Notation "m >>= f" := (bind m f) (at level 50, left associativity).

(** *** Look-ahead estimate of the detection thread *)

Definition all_classes : list VClass :=
  [car; bus; truck; rickshaw; bike; emergency].

(** [vehicle_counts[c]] after the counting loop over the three lanes. *)
Definition vehicle_counts (w : World) (d : Direction) (c : VClass) : Z :=
  Z.of_nat (length (filter
    (fun v => negb (crossed v) && VClass_eqb (vehicle_class v) c)
    (approach_vehicles w d))).

(** [VEHICLE_TIMES.get(vtype, 1)]. *)
Definition clearance_time (c : VClass) : Q :=
  match VEHICLE_TIMES c with Some t => t | None => 1 end.

Definition total_time (w : World) (d : Direction) : Q :=
  fold_left Qplus
    (map (fun c => inject_Z (vehicle_counts w d c) * clearance_time c)
       all_classes) 0.

Definition next_signal (w : World) : nat :=
  ((current_green w + 1) mod NO_OF_SIGNALS)%nat.

(** The value [calculate_green_time] stores. *)
Definition lookahead_green_time (w : World) : Z :=
  let direction := DIRECTIONS (next_signal w) in
  let green_time :=
    Qceiling (total_time w direction / inject_Z (NO_OF_LANES + 1)) in
  Z.max DEFAULT_MINIMUM (Z.min DEFAULT_MAXIMUM green_time).

Definition calculate_green_time (w : World) : option World :=
  modify_signal (next_signal w)
    (fun s => set_green s (lookahead_green_time w)) w.

(** *** Phase timers *)

Definition update_signal (w : World) (s : TrafficSignal) (i : nat)
    : TrafficSignal :=
  if (i =? current_green w)%nat then
    if (current_yellow w =? 0)%Z then
      mkSignal (red s) (yellow s) (green s - 1) (minimum s) (maximum s)
        (total_green_time s + 1)
    else set_yellow s (yellow s - 1)
  else
    let r := (red s - 1)%Z in
    set_red s (if (r <? 0)%Z then 0%Z else r).

(** [update_signal_values]: one pass over [range(NO_OF_SIGNALS)]. *)
Definition update_signal_values (w : World) : option World :=
  fold_left
    (fun acc i =>
       acc >>= fun w' => modify_signal i (fun s => update_signal w' s i) w')
    (seq 0 NO_OF_SIGNALS) (Some w).

(** *** The signal cycle

    The loop of [repeat_signal_cycle] is cut at its [time.sleep] calls: a
    scheduler state is a position in the loop together with the world. *)

Inductive Phase : Type := Selecting | Green | Yellow.

Definition set_last_green (w : World) (i : nat) (t : Z) : option World :=
  match nth_error (lane_last_green_time w) i with
  | Some _ =>
      Some (mkWorld (vehicles w) (crossed_count w) (signals w)
              (time_elapsed w) (current_green w) (current_yellow w)
              (replace_at i t (lane_last_green_time w)) (waiting_times w))
  | None => None
  end.

Definition set_current_green (w : World) (i : nat) : World :=
  mkWorld (vehicles w) (crossed_count w) (signals w) (time_elapsed w) i
    (current_yellow w) (lane_last_green_time w) (waiting_times w).

(** From the selection to the start of the green loop.  The [print] of
    [max_waiting] raises [UnboundLocalError] when no normal selection has
    bound it yet; like the [IndexError]s, this ends the scheduler thread
    ([None]). *)
Definition start_green (w : World) (selected_lane : nat) (locals : Locals)
    : option World :=
  modify_signal selected_lane (fun s => set_red s DEFAULT_RED) w >>= fun w1 =>
  let w2 := set_current_green w1 selected_lane in
  set_last_green w2 (current_green w2) (time_elapsed w2) >>= fun w3 =>
  match locals with
  | None => None
  | Some _ =>
      let count := waiting_count w3 (DIRECTIONS (current_green w3)) in
      let green_time := nonlinear_green_time count in
      modify_signal (current_green w3) (fun s => set_green s green_time) w3
  end.

(** One round of the green loop: the timers, then the detection thread
    when the next signal's red counter shows [DETECTION_TIME] (the thread
    is run at once). *)
Definition green_round (w : World) : option World :=
  update_signal_values w >>= fun w1 =>
  match nth_error (signals w1) (next_signal w1) with
  | Some s =>
      if (red s =? DETECTION_TIME)%Z then calculate_green_time w1
      else Some w1
  | None => None
  end.

(** The start of the yellow phase: the flag, and the reset of the stop
    positions of the approach that held green. *)
Definition enter_yellow (w : World) : World :=
  let d := DIRECTIONS (current_green w) in
  let w1 := set_current_yellow w 1 in
  set_vehicles w1
    (fun d' l =>
       if Direction_eqb d d'
       then map (fun vehicle => set_stop vehicle (DEFAULT_STOPS d))
                (vehicles w1 d' l)
       else vehicles w1 d' l).

(** The end of the yellow phase. *)
Definition leave_yellow (w : World) : option World :=
  let w1 := set_current_yellow w 0 in
  modify_signal (current_green w1) (fun s => set_yellow s DEFAULT_YELLOW) w1
    >>= fun w2 =>
  modify_signal (current_green w2) (fun s => set_red s DEFAULT_RED) w2.

(** One step of [repeat_signal_cycle], from one test of a loop condition
    to the next [time.sleep]: the selection and the start of green; one
    round of the green loop, or the entry into yellow once the green
    counter is no longer positive; one round of the yellow loop, or the end
    of the cycle.  [None] is an exception that ends the thread: an
    [IndexError] on [signals] or [lane_last_green_time], or the
    [UnboundLocalError] of [start_green]. *)
Definition repeat_signal_cycle (fl : Q -> Q) (ph : Phase) (locals : Locals)
    (w : World) : option (Phase * Locals * World) :=
  match ph with
  | Selecting =>
      match selection fl w locals with
      | None => Some (Selecting, locals, w)
      | Some (selected_lane, locals') =>
          start_green w selected_lane locals' >>= fun w' =>
          Some (Green, locals', w')
      end
  | Green =>
      match nth_error (signals w) (current_green w) with
      | Some s =>
          if (green s >? 0)%Z
          then green_round w >>= fun w' => Some (Green, locals, w')
          else Some (Yellow, locals, enter_yellow w)
      | None => None
      end
  | Yellow =>
      match nth_error (signals w) (current_green w) with
      | Some s =>
          if (yellow s >? 0)%Z
          then update_signal_values w >>= fun w' => Some (Yellow, locals, w')
          else leave_yellow w >>= fun w' => Some (Selecting, locals, w')
      | None => None
      end
  end.

(** [simulation_timer]: one tick of the clock. *)
Definition simulation_timer (w : World) : World :=
  mkWorld (vehicles w) (crossed_count w) (signals w) (time_elapsed w + 1)
    (current_green w) (current_yellow w) (lane_last_green_time w)
    (waiting_times w).

(** The globals at program start, and the four signals appended by
    [initialize_signals]. *)
Definition initial_signals : list TrafficSignal :=
  let ts1 := mkSignal 0 DEFAULT_YELLOW DEFAULT_GREEN DEFAULT_MINIMUM
               DEFAULT_MAXIMUM 0 in
  let ts2 := mkSignal (red ts1 + yellow ts1 + green ts1) DEFAULT_YELLOW
               DEFAULT_GREEN DEFAULT_MINIMUM DEFAULT_MAXIMUM 0 in
  let ts3 := mkSignal DEFAULT_RED DEFAULT_YELLOW DEFAULT_GREEN
               DEFAULT_MINIMUM DEFAULT_MAXIMUM 0 in
  let ts4 := mkSignal DEFAULT_RED DEFAULT_YELLOW DEFAULT_GREEN
               DEFAULT_MINIMUM DEFAULT_MAXIMUM 0 in
  [ts1; ts2; ts3; ts4].

Definition initial_world : World :=
  mkWorld (fun _ _ => []) (fun _ => 0%Z) initial_signals 0 0 0
    [0%Z; 0%Z; 0%Z; 0%Z] [].

(** ** The running system

    The threads of the program interleave: the generator, the clock, the
    motion of one vehicle (under [move_lock]) and the scheduler, each step
    taken as a whole.  A system state is the world together with the
    position of the scheduler in its loop and its locals. *)

Record System : Type := mkSystem {
  world : World;
  phase : Phase;
  locals_of : Locals
}.

Section Run.

Variable transform_rotate : Image -> Z -> Image.
Variable load_image : Direction -> VClass -> Image.
Variable fl : Q -> Q.

Inductive reachable : System -> Prop :=
| reach_start :
    reachable (mkSystem initial_world Selecting None)
| reach_generate (st : System) (r : Draws) :
    reachable st ->
    reachable (mkSystem (generate_vehicles load_image (world st) r)
                 (phase st) (locals_of st))
| reach_timer (st : System) :
    reachable st ->
    reachable (mkSystem (simulation_timer (world st))
                 (phase st) (locals_of st))
| reach_move (st : System) (d : Direction) (l : LaneId) (idx : nat) :
    reachable st ->
    reachable (mkSystem (move transform_rotate (world st) d l idx)
                 (phase st) (locals_of st))
| reach_cycle (st : System) (ph' : Phase) (locals' : Locals) (w' : World) :
    reachable st ->
    repeat_signal_cycle fl (phase st) (locals_of st) (world st)
      = Some (ph', locals', w') ->
    reachable (mkSystem w' ph' locals').

End Run.

(** ** Notions used in the statements *)

(** How far the leading edge of a vehicle is from the stop line of its
    direction, measured along the direction of travel; the sign is that of
    the test of [_check_crossing] (negative once the line is passed). *)
Definition distance_to_stop_line (d : Direction) (v : Vehicle) : Q :=
  match d with
  | DRight => STOP_LINES DRight - (x v + rect_w v)
  | DDown => STOP_LINES DDown - (y v + rect_h v)
  | DLeft => x v - STOP_LINES DLeft
  | DUp => y v - STOP_LINES DUp
  end.


Definition same_position (v v' : Vehicle) : Prop :=
  x v' = x v /\ y v' = y v.

(** Exactly one step of the class speed along one axis. *)
Definition speed_step (v v' : Vehicle) : Prop :=
  (y v' = y v /\ (x v' = x v + speed v \/ x v' = x v - speed v)) \/
  (x v' = x v /\ (y v' = y v + speed v \/ y v' = y v - speed v)).

(** A displacement of at most the class speed along one axis, the other
    coordinate being kept. *)
Definition within_speed_on_one_axis (v v' : Vehicle) : Prop :=
  (y v' == y v /\ x v - speed v <= x v' <= x v + speed v) \/
  (x v' == x v /\ y v - speed v <= y v' <= y v + speed v).

(** The diagonal displacement of one rotation step, per direction. *)
Definition turn_displacement (d : Direction) : Q * Q :=
  match d with
  | DRight => (2, 1.8)
  | DDown => (- 2.5, 2)
  | DLeft => (- 1.8, - 2.5)
  | DUp => (1, - (1))
  end.

Definition rotation_move (d : Direction) (v v' : Vehicle) : Prop :=
  x v' = x v + fst (turn_displacement d) /\
  y v' = y v + snd (turn_displacement d).

(** One step of the class speed along the direction of travel. *)
Definition forward (d : Direction) (v : Vehicle) : Vehicle :=
  match d with
  | DRight => set_x v (x v + speed v)
  | DDown => set_y v (y v + speed v)
  | DLeft => set_x v (x v - speed v)
  | DUp => set_y v (y v - speed v)
  end.

(** One step of the class speed along the axis taken after the turn. *)
Definition sideways (d : Direction) (v : Vehicle) : Vehicle :=
  match d with
  | DRight => set_y v (y v + speed v)
  | DDown => set_x v (x v - speed v)
  | DLeft => set_y v (y v - speed v)
  | DUp => set_x v (x v + speed v)
  end.

(** The spacing test against the vehicle ahead in the queue, before the
    stop line. *)
Definition gap_kept (d : Direction) (self prev : Vehicle) : bool :=
  match d with
  | DRight => x self + rect_w self <? x prev - MOVING_GAP
  | DDown => y self + rect_h self <? y prev - MOVING_GAP
  | DLeft => x self >? x prev + rect_w prev + MOVING_GAP
  | DUp => y self >? y prev + rect_h prev + MOVING_GAP
  end.

(** The priority score of an approach with waiting vehicles, as computed
    under the rounding [fl]. *)
Definition priority_score (fl : Q -> Q) (w : World) (lane_idx : nat) : Q :=
  fl (inject_Z (waiting_count w (DIRECTIONS lane_idx))
      + fl (fl 0.2 * inject_Z (lane_waiting_time w lane_idx))).

(** Exact arithmetic: no rounding. *)
Definition exact (q : Q) : Q := q.

(** What the statements need of a rounding: it keeps the sign of a
    non-negative number and does not round a number that is at least 1
    down to 0. *)
Definition sign_keeping (fl : Q -> Q) : Prop :=
  (forall q, 0 <= q -> 0 <= fl q) /\ (forall q, 1 <= q -> 0 < fl q).

(** The order that decides the head of the sorted list: a greater
    priority, or an equal priority and a greater or equal lane index. *)
Definition dominates (p q : PriorityTuple) : Prop :=
  tuple_priority q < tuple_priority p \/
  (tuple_priority q == tuple_priority p /\ (tuple_lane q <= tuple_lane p)%nat).

(** The vehicles in the order of the emergency scan, each with the index
    of its approach. *)
Definition scan_order (w : World) : list (nat * Vehicle) :=
  flat_map (fun i => map (pair i) (approach_vehicles w (DIRECTIONS i)))
    (seq 0 NO_OF_SIGNALS).

Definition scan_invariant (seen : list (nat * Vehicle)) (st : ScanState)
    : Prop :=
  match st with
  | (None, None) =>
      forall i v, In (i, v) seen -> is_waiting_emergency v = false
  | (Some t, Some lane) =>
      (exists v, In (lane, v) seen /\ is_waiting_emergency v = true /\
                 arrival_estimate (DIRECTIONS lane) v = t) /\
      (forall i v, In (i, v) seen -> is_waiting_emergency v = true ->
         t <= arrival_estimate (DIRECTIONS i) v)
  | _ => False
  end.

(** Every vehicle of the world was spawned at a tick that is not after the
    current one. *)
Definition spawned_in_past (w : World) : Prop :=
  forall d l v, In v (vehicles w d l) ->
    (spawn_time v <= time_elapsed w)%Z.

(** Every vehicle that has turned is flagged as crossed. *)
Definition turned_are_crossed (w : World) : Prop :=
  forall d l v, In v (vehicles w d l) -> turned v = true -> crossed v = true.

(** No approach was last served after the current tick. *)
Definition served_in_past (w : World) : Prop :=
  forall i, (nth i (lane_last_green_time w) 0 <= time_elapsed w)%Z.

(** No vehicle of the world is an emergency vehicle that has not crossed. *)
Definition no_waiting_emergency (w : World) : Prop :=
  forall i v, In v (approach_vehicles w (DIRECTIONS i)) ->
    is_waiting_emergency v = false.

(** ** Scenarios *)

Definition sample_image : Image := mkImage 40 20.

(** A vehicle of direction [d] that goes straight, spawned at tick 0, with
    the default stop position. *)
Definition sample_vehicle (d : Direction) (c : VClass) (px py : Q)
    (is_crossed : bool) : Vehicle :=
  mkVehicle c px py is_crossed false false 0 0 0
    (if is_crossed then Some 0%Z else None) sample_image sample_image
    (DEFAULT_STOPS d).

(** A rotation that keeps the rectangle, for the concrete runs. *)
Definition keep_rect (im : Image) (angle : Z) : Image := im.

Definition world_of (q : Direction -> LaneId -> list Vehicle) (now : Z)
    (served : list Z) : World :=
  mkWorld q (fun _ => 0%Z) initial_signals now 0 0 served [].

(** An emergency vehicle just spawned on the first approach (590 - 40 from
    its stop line) and one on the fourth approach at rest at y = 543.3
    (800 - 151 * 1.7, the first position below its stop position 545), 8.3
    short of its stop line. *)
Definition far_emergency : Vehicle :=
  sample_vehicle DRight emergency 0 348 false.
Definition near_emergency : Vehicle :=
  sample_vehicle DUp emergency 602 543.3 false.

Definition two_emergencies_world : World :=
  world_of (fun d l =>
    match d, l with
    | DRight, L0 => [far_emergency]
    | DUp, L0 => [near_emergency]
    | _, _ => []
    end) 10 [0; 0; 0; 0]%Z.

(** One waiting car on each of the first two approaches, both last served
    at tick 0. *)
Definition tied_world : World :=
  world_of (fun d l =>
    match d, l with
    | DRight, L0 => [sample_vehicle DRight car 0 348 false]
    | DDown, L0 => [sample_vehicle DDown car 755 0 false]
    | _, _ => []
    end) 10 [0; 0; 0; 0]%Z.

(** Twelve waiting vehicles on the first approach, served 40 s ago, and
    three on the second, served 5 s ago. *)
Definition twelve_three_world : World :=
  world_of (fun d l =>
    match d, l with
    | DRight, L0 => repeat (sample_vehicle DRight car 0 348 false) 12
    | DDown, L0 => repeat (sample_vehicle DDown car 755 0 false) 3
    | _, _ => []
    end) 100 [60; 95; 100; 100]%Z.

(** The second approach, next to be estimated, holds twelve buses and one
    emergency vehicle, none of which has crossed. *)
Definition buses_and_emergency_world : World :=
  world_of (fun d l =>
    match d, l with
    | DDown, L0 => repeat (sample_vehicle DDown bus 755 0 false) 12
    | DDown, L1 => [sample_vehicle DDown emergency 727 0 false]
    | _, _ => []
    end) 10 [0; 0; 0; 0]%Z.

(** A bus of the turning lane of the first approach after 1109 steps of
    0.6 from its spawn point: its leading edge, at 705.4, has just reached
    the turn trigger 705, and it has not turned yet. *)
Definition rotating_bus : Vehicle :=
  mkVehicle bus 665.4 398 true true false 0 0 0 (Some 0%Z)
    sample_image sample_image 580.

Definition rotating_bus_world : World :=
  world_of (fun d l =>
    match d, l with
    | DRight, L2 => [rotating_bus]
    | _, _ => []
    end) 10 [0; 0; 0; 0]%Z.

(** A crossed car of the third approach after 1300 steps of 1.15 from its
    spawn point 1400: it is at -95 and its trailing edge, at -55, is beyond
    the left border of the scene. *)
Definition offscreen_vehicle : Vehicle :=
  sample_vehicle DLeft car (- (95)) 498 true.

Definition offscreen_world : World :=
  world_of (fun d l =>
    match d, l with
    | DLeft, L0 => [offscreen_vehicle]
    | _, _ => []
    end) 10 [0; 0; 0; 0]%Z.

(** A crossed car of the first approach after 1300 steps of 1.15, beyond
    the right border 1400 of the scene. *)
Definition offscreen_right_world : World :=
  world_of (fun d l =>
    match d, l with
    | DRight, L0 => [sample_vehicle DRight car 1495 348 true]
    | _, _ => []
    end) 10 [0; 0; 0; 0]%Z.

(** Two cars on their way on the first approach, after 260 and 140 steps
    of 1.15. *)
Definition lead_car : Vehicle := sample_vehicle DRight car 299 348 false.
Definition follow_car : Vehicle := sample_vehicle DRight car 161 348 false.

Definition queue_world : World :=
  world_of (fun d l =>
    match d, l with
    | DRight, L0 => [lead_car; follow_car]
    | _, _ => []
    end) 10 [0; 0; 0; 0]%Z.

(** A car of the first approach after 479 steps of 1.15: its leading edge,
    at 590.85, has just passed the stop line 590 and it is not flagged
    yet. *)
Definition crossing_car : Vehicle :=
  sample_vehicle DRight car 550.85 348 false.

Definition crossing_world : World :=
  world_of (fun d l =>
    match d, l with
    | DRight, L0 => [crossing_car]
    | _, _ => []
    end) 10 [0; 0; 0; 0]%Z.

(** The first approach holds green and its counter has run down to 0; two
    cars with chained stop positions are on their way on it, and a bus on
    the second approach. *)
Definition green_elapsed_world : World :=
  mkWorld
    (fun d l =>
       match d, l with
       | DRight, L0 =>
           [mkVehicle car 299 348 false false false 0 7 3 None
              sample_image sample_image 580;
            mkVehicle car 161 348 false false false 0 5 5 None
              sample_image sample_image 525]
       | DDown, L1 =>
           [mkVehicle bus 727 99.6 false false false 0 2 8 None
              sample_image sample_image 320]
       | _, _ => []
       end)
    (fun _ => 0%Z)
    [mkSignal 150 5 0 10 60 20; mkSignal 130 5 20 10 60 0;
     mkSignal 130 5 20 10 60 0; mkSignal 130 5 20 10 60 0]
    30 0 0 [10; 0; 0; 0]%Z [].

(** ** Further operations *)

(** [n] steps of the scheduler thread, nothing else running in between. *)
Fixpoint run_cycle (fl : Q -> Q) (n : nat) (ph : Phase) (locals : Locals)
    (w : World) : option (Phase * Locals * World) :=
  match n with
  | O => Some (ph, locals, w)
  | S k =>
      match repeat_signal_cycle fl ph locals w with
      | Some (ph', locals', w') => run_cycle fl k ph' locals' w'
      | None => None
      end
  end.

(** The key of a direction in [DIRECTIONS]; it is the value that the
    motion rules of the direction compare [current_green] with. *)
Definition direction_index (d : Direction) : nat :=
  match d with
  | DRight => 0
  | DDown => 1
  | DLeft => 2
  | DUp => 3
  end.

(** The dictionary [metrics] of [output_simulation_metrics]. *)
Record Metrics : Type := mkMetrics {
  lane_counts : list Z;
  total_vehicles_passed : Z;
  total_time_passed : Z;
  vehicles_per_unit_time : Q;
  average_waiting_time : option Q;
  max_waiting_time : option Z
}.

(** [max(waiting_times)], for a list that is not empty. *)
Definition max_of (h : Z) (t : list Z) : Z := fold_left Z.max t h.

Definition make_metrics (w : World) : Metrics :=
  let counts :=
    map (fun i => crossed_count w (DIRECTIONS i)) (seq 0 NO_OF_SIGNALS) in
  let total_vehicles := fold_left Z.add counts 0%Z in
  mkMetrics counts total_vehicles (time_elapsed w)
    (if (time_elapsed w =? 0)%Z then 0
     else inject_Z total_vehicles / inject_Z (time_elapsed w))
    (match waiting_times w with
     | [] => None
     | _ :: _ =>
         Some (inject_Z (fold_left Z.add (waiting_times w) 0%Z)
               / inject_Z (Z.of_nat (length (waiting_times w))))
     end)
    (match waiting_times w with
     | [] => None
     | h :: t => Some (max_of h t)
     end).

(** [output_simulation_metrics]: the report that is written to the file,
    and whether the summary printed after it goes through; its throughput
    line divides by [time_elapsed] without the guard of the report and
    raises [ZeroDivisionError] at tick 0. *)
Definition output_simulation_metrics (w : World) : Metrics * bool :=
  (make_metrics w, negb (time_elapsed w =? 0)%Z).

(** ** Further notions used in the statements *)

(** The stop position is not beyond the default one of the direction. *)
Definition stop_within_default (d : Direction) (v : Vehicle) : Prop :=
  match d with
  | DRight | DDown => stop v <= DEFAULT_STOPS d
  | DLeft | DUp => DEFAULT_STOPS d <= stop v
  end.

(** The first clause of the gating conditions of a vehicle that has not
    crossed, without its test of the signal: the leading edge has not
    passed the stop position. *)
Definition before_stop (d : Direction) (v : Vehicle) : bool :=
  match d with
  | DRight => x v + rect_w v <=? stop v
  | DDown => y v + rect_h v <=? stop v
  | DLeft => x v >=? stop v
  | DUp => y v >=? stop v
  end.

(** The rotation of a vehicle is a whole number of steps of
    [ROTATION_ANGLE] between 0 and 90 degrees, it has not begun before the
    crossing, and the vehicle counts as turned exactly at 90 degrees. *)
Definition rotation_in_steps (v : Vehicle) : Prop :=
  (exists k, (0 <= k <= 30)%Z /\ rotate_angle v = (ROTATION_ANGLE * k)%Z) /\
  (turned v = true <-> rotate_angle v = 90%Z) /\
  (crossed v = false -> rotate_angle v = 0%Z).

(** The images have rectangles of non-negative size. *)
Definition sized_images (load_image : Direction -> VClass -> Image) : Prop :=
  forall d c, (0 <= width (load_image d c))%Z /\
              (0 <= height (load_image d c))%Z.

(** The signals and the ticks of last service are the four of
    [initialize_signals] and of the module, and [current_green] is one of
    their indices. *)
Definition four_signals (w : World) : Prop :=
  length (signals w) = NO_OF_SIGNALS /\
  length (lane_last_green_time w) = NO_OF_SIGNALS /\
  (current_green w < NO_OF_SIGNALS)%nat.

(** Every crossing has left one entry in the wait-time series and one
    count, no recorded wait is negative, and the clock has not run
    backwards. *)
Definition consistent_metrics (w : World) : Prop :=
  (crossed_count w DRight + crossed_count w DDown + crossed_count w DLeft
   + crossed_count w DUp)%Z
  = Z.of_nat (length (waiting_times w)) /\
  (forall t, In t (waiting_times w) -> (0 <= t)%Z) /\
  (forall d, (0 <= crossed_count w d)%Z) /\
  (0 <= time_elapsed w)%Z.

(** What [n] rounds of the green or of the yellow loop leave of a world
    [w], apart from the counters of the active signal: the other signals
    have counted their red down by [n], not below 0; the green counter of
    the next signal may have been set by the detection thread, to a value
    between the minimum and the maximum; nothing else has changed. *)
Definition counted_down (n : Z) (w w' : World) : Prop :=
  four_signals w' /\ current_green w' = current_green w /\
  current_yellow w' = current_yellow w /\
  vehicles w' = vehicles w /\ crossed_count w' = crossed_count w /\
  time_elapsed w' = time_elapsed w /\
  lane_last_green_time w' = lane_last_green_time w /\
  waiting_times w' = waiting_times w /\
  (forall j s, j <> current_green w -> nth_error (signals w) j = Some s ->
     exists s', nth_error (signals w') j = Some s' /\
                red s' = Z.max 0 (red s - n) /\ yellow s' = yellow s /\
                total_green_time s' = total_green_time s /\
                (j <> next_signal w -> green s' = green s) /\
                (green s' = green s \/
                 (DEFAULT_MINIMUM <= green s' <= DEFAULT_MAXIMUM)%Z)).

(** The counters of a signal are within the ranges of the constants. *)
Definition signal_in_range (s : TrafficSignal) : Prop :=
  (0 <= red s <= DEFAULT_RED)%Z /\ (0 <= yellow s <= DEFAULT_YELLOW)%Z /\
  (0 <= green s <= DEFAULT_MAXIMUM)%Z /\ (0 <= total_green_time s)%Z.

(** The signal store as the scheduler keeps it: four signals with counters
    in range, and the yellow flag set exactly in the yellow loop. *)
Definition scheduler_invariant (st : System) : Prop :=
  four_signals (world st) /\
  (forall i s, nth_error (signals (world st)) i = Some s ->
     signal_in_range s) /\
  current_yellow (world st)
  = match phase st with Yellow => 1%Z | _ => 0%Z end.


(** The invariant behind the stop positions: the stop position is within
    the default one, and the rectangle of a vehicle that has not crossed has
    a non-negative size. *)
Definition stop_and_size (d : Direction) (v : Vehicle) : Prop :=
  stop_within_default d v /\
  (crossed v = false -> 0 <= rect_w v /\ 0 <= rect_h v).


(** The assignments of [repeat_signal_cycle] between the selection and the
    print that follows it: the red counter of the selected signal,
    [current_green] and the tick of last service.  They are what
    [start_green] has done when its print raises, and they stay in the
    globals when the scheduler thread ends there. *)
Definition before_print (w : World) (selected_lane : nat) : option World :=
  modify_signal selected_lane (fun s => set_red s DEFAULT_RED) w >>= fun w1 =>
  let w2 := set_current_green w1 selected_lane in
  set_last_green w2 (current_green w2) (time_elapsed w2).

Section WithoutScheduler.

Variable transform_rotate : Image -> Z -> Image.
Variable load_image : Direction -> VClass -> Image.

(** The worlds that the generator, the clock and the motion of the
    vehicles reach from a world [w] once the scheduler thread has ended. *)
Inductive runs_without_scheduler (w : World) : World -> Prop :=
| without_start :
    runs_without_scheduler w w
| without_generate (w' : World) (r : Draws) :
    runs_without_scheduler w w' ->
    runs_without_scheduler w (generate_vehicles load_image w' r)
| without_timer (w' : World) :
    runs_without_scheduler w w' ->
    runs_without_scheduler w (simulation_timer w')
| without_move (w' : World) (d : Direction) (l : LaneId) (idx : nat) :
    runs_without_scheduler w w' ->
    runs_without_scheduler w (move transform_rotate w' d l idx).

End WithoutScheduler.


(** ** Notions of the motion and order statements *)

(** The leading edge of a vehicle has reached the turn midpoint of its
    direction ([TURN_MIDPOINTS]). *)
Definition past_turn_trigger (d : Direction) (v : Vehicle) : Prop :=
  match d with
  | DRight => TURN_MIDPOINTS_x DRight <= x v + rect_w v
  | DDown => TURN_MIDPOINTS_y DDown <= y v + rect_h v
  | DLeft => x v <= TURN_MIDPOINTS_x DLeft
  | DUp => y v <= TURN_MIDPOINTS_y DUp
  end.

(** The rotation phase of a turning vehicle: it is meant to turn, its
    leading edge has reached the turn midpoint and it has not completed the
    turn.  A vehicle of direction [left] has no such phase: once it is
    flagged as crossed its turning method is not called any more. *)
Definition in_rotation_phase (d : Direction) (v : Vehicle) : Prop :=
  d <> DLeft /\ will_turn v = true /\ turned v = false /\
  past_turn_trigger d v.

(** The vehicle stands where [__init__] has put it. *)
Definition at_spawn_point (d : Direction) (l : LaneId) (v : Vehicle) : Prop :=
  x v = fst (SPAWN_COORDS d l) /\ y v = snd (SPAWN_COORDS d l).


(** The leading edge of a vehicle is beyond the stop line of its direction
    ([STOP_LINES]), along the direction of travel. *)
Definition beyond_stop_line (d : Direction) (v : Vehicle) : Prop :=
  match d with
  | DRight => STOP_LINES DRight < x v + rect_w v
  | DDown => STOP_LINES DDown < y v + rect_h v
  | DLeft => x v < STOP_LINES DLeft
  | DUp => y v < STOP_LINES DUp
  end.




(** ** Further scenarios *)

(** The first round of the generator has drawn an emergency vehicle for
    the first approach; the scheduler has not selected yet. *)
Definition first_emergency_world : World :=
  generate_vehicles (fun _ _ => sample_image) initial_world
    (mkDraws 0.01 0 L0 0 0).


(** * Properties *)

(** ** Comparisons *)

Lemma Qltb_lt (a b : Q) : (a <? b) = true <-> a < b.
Proof.
  unfold Qltb. rewrite negb_true_iff.
  destruct (Qle_bool b a) eqn:E.
  - apply Qle_bool_iff in E. split; [discriminate | intro; lra].
  - split; [intros _ | reflexivity].
    destruct (Qlt_le_dec a b) as [H | H]; [exact H |].
    apply Qle_bool_iff in H. congruence.
Qed.

Lemma Qltb_ge (a b : Q) : (a <? b) = false <-> b <= a.
Proof.
  unfold Qltb. rewrite negb_false_iff. apply Qle_bool_iff.
Qed.


(** ** Queue updates *)

Lemma nth_error_replace_at_eq {A : Type} (l : list A) (i : nat) (a b : A) :
  nth_error l i = Some b -> nth_error (replace_at i a l) i = Some a.
Proof.
  revert i; induction l as [| h t IH]; intros [| i] H; simpl in *;
    try discriminate; auto.
Qed.

Lemma nth_error_replace_at_neq {A : Type} (l : list A) (i j : nat) (a : A) :
  i <> j -> nth_error (replace_at i a l) j = nth_error l j.
Proof.
  revert i j; induction l as [| h t IH]; intros [| i] [| j] H; simpl;
    try reflexivity; try congruence.
  apply IH. congruence.
Qed.

Lemma set_lane_same (w : World) (d : Direction) (l : LaneId)
    (q : list Vehicle) :
  vehicles (set_lane w d l q) d l = q.
Proof.
  simpl. destruct d, l; reflexivity.
Qed.

Lemma set_lane_other (w : World) (d d' : Direction) (l l' : LaneId)
    (q : list Vehicle) :
  d <> d' \/ l <> l' -> vehicles (set_lane w d l q) d' l' = vehicles w d' l'.
Proof.
  intros H. simpl.
  destruct d, d', l, l'; simpl; try reflexivity;
    destruct H as [H | H]; congruence.
Qed.

(** ** Turn intent at spawn *)

Lemma new_vehicle_appends (load_image : Direction -> VClass -> Image)
    (w : World) (l : LaneId) (c : VClass) (d : Direction) (turn : bool) :
  exists v,
    vehicles (new_vehicle load_image w l c d turn) d l = vehicles w d l ++ [v]
    /\ will_turn v = turn /\ crossed v = false /\ turned v = false
    /\ spawn_time v = time_elapsed w /\ vehicle_class v = c.
Proof.
  unfold new_vehicle. eexists. rewrite set_lane_same.
  split; [reflexivity |]. simpl. repeat split; reflexivity.
Qed.

(** C10.  The vehicle made by one round of the generator is appended to its
    lane queue with [will_turn] set exactly when the lane is 2 and the turn
    draw is at most 2; so on lanes 0 and 1 the flag is never set, and on
    lane 2 it is set for the three draws 0, 1, 2 out of the five equally
    likely draws 0..4, a share of 3/5 and not of about 3/10. *)
Theorem turn_intent_at_spawn
    (load_image : Direction -> VClass -> Image) (w : World) (r : Draws) :
  (exists v,
     vehicles (generate_vehicles load_image w r)
       (DIRECTIONS (direction_draw r)) (lane_draw r)
     = vehicles w (DIRECTIONS (direction_draw r)) (lane_draw r) ++ [v]
     /\ will_turn v = LaneId_eqb (lane_draw r) L2 && (turn_draw r <=? 2)%Z)
  /\ filter (will_turn_of L2) [0; 1; 2; 3; 4]%Z = [0; 1; 2]%Z
  /\ filter (will_turn_of L0) [0; 1; 2; 3; 4]%Z = []
  /\ filter (will_turn_of L1) [0; 1; 2; 3; 4]%Z = [].
Proof.
  split; [| repeat split; reflexivity].
  unfold generate_vehicles.
  destruct (new_vehicle_appends load_image w (lane_draw r)
              (VEHICLE_TYPES
                 (if emergency_draw r <? 0.015 then 5%Z else type_draw r))
              (DIRECTIONS (direction_draw r))
              (will_turn_of (lane_draw r) (turn_draw r)))
    as (v & Hq & Ht & _).
  exists v. split; [exact Hq |].
  rewrite Ht. unfold will_turn_of. destruct (lane_draw r); reflexivity.
Qed.

(** ** Green-time sizing at selection *)

Lemma pow085_below_from_count (n r : Z) :
  (0 <= n <= r)%Z -> pow085_below n r = true.
Proof.
  intros [Hn Hr]. unfold pow085_below. apply Z.ltb_lt.
  apply Z.lt_le_trans with ((2 * n + 1) ^ 20)%Z;
    [| apply Z.pow_le_mono_l; lia].
  apply Z.le_lt_trans with ((2 * n) ^ 20)%Z;
    [| apply Z.pow_lt_mono_l; lia].
  rewrite Z.pow_mul_l.
  apply Z.mul_le_mono_nonneg_l; [apply Z.pow_nonneg; lia |].
  destruct (Z.eq_dec n 0) as [-> | Hnz].
  - rewrite !Z.pow_0_l by lia. apply Z.le_refl.
  - apply Z.pow_le_mono_r; lia.
Qed.

Lemma round_pow085_from_spec (fuel : nat) :
  forall n r : Z,
    (0 <= n)%Z -> (0 <= r)%Z -> (n <= r + Z.of_nat fuel)%Z ->
    r = 0%Z \/ pow085_below n (r - 1) = false ->
    let r' := round_pow085_from fuel n r in
    (r <= r')%Z /\ pow085_below n r' = true /\
    (r' = 0%Z \/ pow085_below n (r' - 1) = false).
Proof.
  induction fuel as [| k IH]; intros n r Hn Hr Hfuel Hprev; cbn zeta.
  - simpl. split; [lia |]. split; [| exact Hprev].
    apply pow085_below_from_count. lia.
  - simpl. destruct (pow085_below n r) eqn:E.
    + split; [lia |]. split; assumption.
    + destruct (IH n (r + 1)%Z) as (H1 & H2 & H3); try lia.
      * right. replace (r + 1 - 1)%Z with r by lia. exact E.
      * split; [lia |]. split; assumption.
Qed.

Lemma pow085_not_below_strict (n r : Z) :
  pow085_below n r = false -> ((2 * r + 1) ^ 20 < 2 ^ 20 * n ^ 17)%Z.
Proof.
  unfold pow085_below. intros H. apply Z.ltb_ge in H.
  apply Z.le_lteq in H. destruct H as [H | Heq]; [exact H | exfalso].
  assert (Hodd : Z.odd ((2 * r + 1) ^ 20) = true).
  { rewrite Z.odd_pow by reflexivity. rewrite Z.add_comm.
    rewrite Z.odd_add_mul_2. reflexivity. }
  assert (Heven : Z.even (2 ^ 20 * n ^ 17) = true).
  { rewrite Z.even_mul. rewrite Z.even_pow by reflexivity. reflexivity. }
  rewrite <- Heq in Heven. rewrite <- Z.negb_odd in Heven.
  rewrite Hodd in Heven. discriminate.
Qed.

(** [round_pow085 n] is the integer nearest to the real [n ** 0.85]. *)
Lemma round_pow085_spec (n : Z) :
  (0 <= n)%Z ->
  let r := round_pow085 n in
  (0 <= r)%Z /\
  (r = 0%Z \/ ((2 * r - 1) ^ 20 < 2 ^ 20 * n ^ 17)%Z) /\
  (2 ^ 20 * n ^ 17 < (2 * r + 1) ^ 20)%Z.
Proof.
  intros Hn. cbn zeta. unfold round_pow085.
  assert (Hfuel : (n <= 0 + Z.of_nat (Z.to_nat n))%Z) by lia.
  destruct (round_pow085_from_spec (Z.to_nat n) n 0%Z Hn (Z.le_refl 0) Hfuel
              (or_introl eq_refl)) as (H1 & H2 & H3).
  clear Hfuel.
  split; [exact H1 |]. split.
  - destruct H3 as [H3 | H3]; [left; exact H3 | right].
    apply pow085_not_below_strict in H3.
    replace (2 * (round_pow085_from (Z.to_nat n) n 0 - 1) + 1)%Z
      with (2 * round_pow085_from (Z.to_nat n) n 0 - 1)%Z in H3 by ring.
    exact H3.
  - unfold pow085_below in H2. apply Z.ltb_lt in H2. exact H2.
Qed.

Lemma clamp_green_bounds (g : Z) :
  (DEFAULT_MINIMUM <= clamp_green g <= DEFAULT_MAXIMUM)%Z.
Proof. unfold clamp_green, DEFAULT_MINIMUM, DEFAULT_MAXIMUM. lia. Qed.

Lemma waiting_count_nonneg (w : World) (d : Direction) :
  (0 <= waiting_count w d)%Z.
Proof. unfold waiting_count. lia. Qed.

Lemma nth_error_some_of_lt {A : Type} (l : list A) (i : nat) :
  (i < length l)%nat -> exists a, nth_error l i = Some a.
Proof.
  intros H. destruct (nth_error l i) eqn:E; [eauto |].
  apply nth_error_None in E. lia.
Qed.

Arguments nonlinear_green_time : simpl never.
Arguments waiting_count : simpl never.

(** What [start_green] leaves in the world. *)
Lemma start_green_result (w : World) (i : nat) (m : Z * Z) :
  (i < length (signals w))%nat ->
  (i < length (lane_last_green_time w))%nat ->
  exists w' s,
    start_green w i (Some m) = Some w' /\
    nth_error (signals w') i = Some s /\
    green s = nonlinear_green_time (waiting_count w (DIRECTIONS i)) /\
    current_green w' = i /\ vehicles w' = vehicles w /\
    nth i (lane_last_green_time w') 0%Z = time_elapsed w.
Proof.
  intros Hs Hl.
  destruct (nth_error_some_of_lt _ _ Hs) as (s0 & Es0).
  destruct (nth_error_some_of_lt _ _ Hl) as (t0 & Et0).
  unfold start_green, modify_signal. rewrite Es0. cbn [bind].
  unfold set_last_green. simpl. rewrite Et0. simpl.
  rewrite (nth_error_replace_at_eq _ _ _ _ Es0).
  eexists; eexists. split; [reflexivity |].
  simpl. split.
  - eapply nth_error_replace_at_eq.
    eapply nth_error_replace_at_eq. exact Es0.
  - simpl. split; [reflexivity |]. repeat split.
    apply nth_error_nth. eapply nth_error_replace_at_eq. exact Et0.
Qed.

(** The sizing where the print after the selection goes through, its
    locals being bound: the green duration stored in the signal of the
    selected approach [i] is [8 + r] clamped to
    [DEFAULT_MINIMUM, DEFAULT_MAXIMUM] = [10, 60], where [r] is the integer
    nearest to [n ** 0.85] for the waiting count [n] of the approach
    (strictly within 1/2 of it, stated on the 20th powers); the duration
    lies in [10, 60], and for a count of 0 it is 10 although the unclamped
    value is 8. *)
Lemma green_time_when_bound (w : World) (i : nat) (m : Z * Z)
    (Hs : (i < length (signals w))%nat)
    (Hl : (i < length (lane_last_green_time w))%nat) :
  let n := waiting_count w (DIRECTIONS i) in
  exists w' s r,
    start_green w i (Some m) = Some w' /\
    nth_error (signals w') i = Some s /\
    (0 <= r)%Z /\
    (r = 0%Z \/ ((2 * r - 1) ^ 20 < 2 ^ 20 * n ^ 17)%Z) /\
    (2 ^ 20 * n ^ 17 < (2 * r + 1) ^ 20)%Z /\
    green s = Z.max DEFAULT_MINIMUM (Z.min DEFAULT_MAXIMUM (8 + r)) /\
    (DEFAULT_MINIMUM <= green s <= DEFAULT_MAXIMUM)%Z /\
    nonlinear_estimate 0 = 8%Z /\ nonlinear_green_time 0 = 10%Z.
Proof.
  cbn zeta.
  destruct (start_green_result w i m Hs Hl)
    as (w' & s & Hw' & Hsig & Hg & _).
  destruct (round_pow085_spec (waiting_count w (DIRECTIONS i))
              (waiting_count_nonneg _ _)) as (Hr0 & Hlow & Hup).
  exists w', s, (round_pow085 (waiting_count w (DIRECTIONS i))).
  repeat split; try assumption; try reflexivity.
  - rewrite Hg. apply clamp_green_bounds.
  - rewrite Hg. apply clamp_green_bounds.
Qed.

(** ** Look-ahead estimate *)

Lemma filter_and_length_le {A : Type} (p q : A -> bool) (l : list A) :
  (length (filter (fun a => p a && q a) l) <= length (filter p l))%nat.
Proof.
  induction l as [| a l IH]; simpl; [lia |].
  destruct (p a), (q a); simpl; lia.
Qed.

Lemma vehicle_counts_le_waiting (w : World) (d : Direction) (c : VClass) :
  (0 <= vehicle_counts w d c <= waiting_count w d)%Z.
Proof.
  unfold vehicle_counts, waiting_count. split; [lia |].
  apply Nat2Z.inj_le. apply filter_and_length_le.
Qed.

Lemma total_time_unfold (w : World) (d : Direction) :
  total_time w d ==
    inject_Z (vehicle_counts w d car) * 2
    + inject_Z (vehicle_counts w d bus) * 2.5
    + inject_Z (vehicle_counts w d truck) * 2.5
    + inject_Z (vehicle_counts w d rickshaw) * 2.25
    + inject_Z (vehicle_counts w d bike) * 1
    + inject_Z (vehicle_counts w d emergency) * 1.
Proof.
  unfold total_time, all_classes.
  cbn [map fold_left clearance_time VEHICLE_TIMES].
  ring.
Qed.

(** C7 (as amended).  The detection thread stores into the next signal the
    value [ceil(total / (NO_OF_LANES + 1))] clamped to [10, 60], where
    [total] adds, over the uncrossed vehicles of the next approach, the
    clearance time of each class, a class without an entry in
    [VEHICLE_TIMES] (emergency) costing 1 second per vehicle; no error
    arises, and when the approach has no uncrossed vehicle the stored value
    is [DEFAULT_MINIMUM]. *)
Theorem lookahead_estimate (w : World)
    (Hs : (next_signal w < length (signals w))%nat) :
  let d := DIRECTIONS (next_signal w) in
  let total :=
    inject_Z (vehicle_counts w d car) * 2
    + inject_Z (vehicle_counts w d bus) * 2.5
    + inject_Z (vehicle_counts w d truck) * 2.5
    + inject_Z (vehicle_counts w d rickshaw) * 2.25
    + inject_Z (vehicle_counts w d bike) * 1
    + inject_Z (vehicle_counts w d emergency) * 1 in
  exists w' s,
    calculate_green_time w = Some w' /\
    nth_error (signals w') (next_signal w) = Some s /\
    green s =
      Z.max DEFAULT_MINIMUM
        (Z.min DEFAULT_MAXIMUM
           (Qceiling (total / inject_Z (NO_OF_LANES + 1)))) /\
    (DEFAULT_MINIMUM <= green s <= DEFAULT_MAXIMUM)%Z /\
    (waiting_count w d = 0%Z -> green s = DEFAULT_MINIMUM) /\
    vehicles w' = vehicles w.
Proof.
  cbn zeta.
  destruct (nth_error_some_of_lt _ _ Hs) as (s0 & Es0).
  unfold calculate_green_time, modify_signal. rewrite Es0.
  eexists; eexists. split; [reflexivity |].
  cbn [signals set_signals]. split.
  { eapply nth_error_replace_at_eq. exact Es0. }
  cbn [green set_green].
  set (d := DIRECTIONS (next_signal w)).
  assert (Hval : lookahead_green_time w =
    Z.max DEFAULT_MINIMUM
      (Z.min DEFAULT_MAXIMUM
         (Qceiling
            ((inject_Z (vehicle_counts w d car) * 2
              + inject_Z (vehicle_counts w d bus) * 2.5
              + inject_Z (vehicle_counts w d truck) * 2.5
              + inject_Z (vehicle_counts w d rickshaw) * 2.25
              + inject_Z (vehicle_counts w d bike) * 1
              + inject_Z (vehicle_counts w d emergency) * 1)
             / inject_Z (NO_OF_LANES + 1))))).
  { unfold lookahead_green_time. cbn zeta. fold d.
    rewrite (Qceiling_comp _ _
               (Qdiv_comp _ _ (total_time_unfold w d) _ _ (Qeq_refl _))).
    reflexivity. }
  split; [exact Hval |].
  split; [unfold lookahead_green_time, DEFAULT_MINIMUM, DEFAULT_MAXIMUM; lia |].
  split; [| reflexivity].
  intros Hzero. rewrite Hval.
  assert (Hc : forall c, vehicle_counts w d c = 0%Z).
  { intros c. pose proof (vehicle_counts_le_waiting w d c). lia. }
  rewrite !Hc. reflexivity.
Qed.

Lemma lookahead_estimate_witness :
  (next_signal tied_world < length (signals tied_world))%nat /\
  exists w' s,
    calculate_green_time tied_world = Some w' /\
    nth_error (signals w') (next_signal tied_world) = Some s /\
    green s =
      Z.max DEFAULT_MINIMUM
        (Z.min DEFAULT_MAXIMUM
           (Qceiling
              ((inject_Z (vehicle_counts tied_world
                            (DIRECTIONS (next_signal tied_world)) car) * 2
                + inject_Z (vehicle_counts tied_world
                              (DIRECTIONS (next_signal tied_world)) bus) * 2.5
                + inject_Z (vehicle_counts tied_world
                              (DIRECTIONS (next_signal tied_world)) truck) * 2.5
                + inject_Z (vehicle_counts tied_world
                              (DIRECTIONS (next_signal tied_world)) rickshaw)
                  * 2.25
                + inject_Z (vehicle_counts tied_world
                              (DIRECTIONS (next_signal tied_world)) bike) * 1
                + inject_Z (vehicle_counts tied_world
                              (DIRECTIONS (next_signal tied_world)) emergency)
                  * 1)
               / inject_Z (NO_OF_LANES + 1)))) /\
    (DEFAULT_MINIMUM <= green s <= DEFAULT_MAXIMUM)%Z /\
    (waiting_count tied_world (DIRECTIONS (next_signal tied_world)) = 0%Z ->
     green s = DEFAULT_MINIMUM) /\
    vehicles w' = vehicles tied_world.
Proof.
  split; [vm_compute; lia |].
  apply (lookahead_estimate tied_world). vm_compute. lia.
Defined.

(** C7, the claim as stated fails: with a vehicle of a class that has no
    clearance entry among the sampled ones, the estimate is not the
    minimum green; twelve buses and one emergency vehicle give
    ceil(31 / 3) = 11. *)
Lemma lookahead_missing_entry_not_minimum :
  ~ (forall (w : World) (c : VClass),
       VEHICLE_TIMES c = None ->
       (0 < vehicle_counts w (DIRECTIONS (next_signal w)) c)%Z ->
       lookahead_green_time w = DEFAULT_MINIMUM).
Proof.
  intros H.
  specialize (H buses_and_emergency_world emergency eq_refl).
  assert (Hc : (0 < vehicle_counts buses_and_emergency_world
                      (DIRECTIONS (next_signal buses_and_emergency_world))
                      emergency)%Z) by (vm_compute; reflexivity).
  specialize (H Hc). vm_compute in H. discriminate.
Qed.

(** ** Selection of the next approach *)

Lemma dominates_refl (p : PriorityTuple) : dominates p p.
Proof. right. split; [reflexivity | lia]. Qed.

Lemma dominates_trans (p q r : PriorityTuple) :
  dominates p q -> dominates q r -> dominates p r.
Proof.
  unfold dominates. intros [H1 | [H1 L1]] [H2 | [H2 L2]].
  - left. lra.
  - left. lra.
  - left. lra.
  - right. split; [lra | lia].
Qed.

Lemma tuple_ltb_true_dominates (p q : PriorityTuple) :
  tuple_ltb p q = true -> dominates q p.
Proof.
  unfold tuple_ltb, tuple_compare, dominates.
  destruct (Qcompare_spec (tuple_priority p) (tuple_priority q)) as [E | E | E];
    try discriminate.
  - destruct (Nat.compare_spec (tuple_lane p) (tuple_lane q)) as [F | F | F];
      try discriminate; intros _; right; (split; [exact E | lia]).
  - intros _. left. exact E.
Qed.

Lemma tuple_ltb_false_dominates (p q : PriorityTuple) :
  tuple_ltb p q = false -> dominates p q.
Proof.
  unfold tuple_ltb, tuple_compare, dominates.
  destruct (Qcompare_spec (tuple_priority p) (tuple_priority q)) as [E | E | E];
    try discriminate.
  - destruct (Nat.compare_spec (tuple_lane p) (tuple_lane q)) as [F | F | F];
      try discriminate; intros _; right;
      (split; [symmetry; exact E | lia]).
  - intros _. left. exact E.
Qed.

Lemma insert_desc_in (p q : PriorityTuple) (l : list PriorityTuple) :
  In q (insert_desc p l) <-> q = p \/ In q l.
Proof.
  induction l as [| h t IH]; simpl.
  - intuition.
  - destruct (tuple_ltb p h); simpl; rewrite ?IH; intuition.
Qed.

Lemma sort_reverse_in (q : PriorityTuple) (l : list PriorityTuple) :
  In q (sort_reverse l) <-> In q l.
Proof.
  induction l as [| h t IH]; simpl; [reflexivity |].
  rewrite insert_desc_in, IH. intuition.
Qed.

(** The head of the sorted list dominates every candidate. *)
Lemma sort_reverse_head (l : list PriorityTuple) :
  forall p t, sort_reverse l = p :: t ->
    In p l /\ forall q, In q l -> dominates p q.
Proof.
  induction l as [| a l IH]; intros p t H; [discriminate |].
  simpl in H.
  destruct (sort_reverse l) as [| h t'] eqn:E.
  - assert (l = []) as ->.
    { destruct l as [| b l']; [reflexivity |].
      assert (Hin : In b (sort_reverse (b :: l')))
        by (apply sort_reverse_in; left; reflexivity).
      rewrite E in Hin. destruct Hin. }
    simpl in H. injection H as <- _.
    split; [left; reflexivity |].
    intros q [<- | []]. apply dominates_refl.
  - destruct (IH h t' eq_refl) as [Hin Hmax].
    simpl in H. destruct (tuple_ltb a h) eqn:Elt.
    + injection H as <- _. split; [right; exact Hin |].
      intros q [<- | Hq]; [apply tuple_ltb_true_dominates; exact Elt |].
      apply Hmax; exact Hq.
    + injection H as <- _. split; [left; reflexivity |].
      intros q [<- | Hq]; [apply dominates_refl |].
      apply dominates_trans with h;
        [apply tuple_ltb_false_dominates; exact Elt | apply Hmax; exact Hq].
Qed.

Lemma scan_vehicle_skip (lane_idx : nat) (st : ScanState) (v : Vehicle) :
  is_waiting_emergency v = false -> scan_vehicle lane_idx st v = st.
Proof. unfold scan_vehicle. intros ->. reflexivity. Qed.

Lemma scan_list_skip (lane_idx : nat) (l : list Vehicle) :
  forall st,
    (forall v, In v l -> is_waiting_emergency v = false) ->
    fold_left (scan_vehicle lane_idx) l st = st.
Proof.
  induction l as [| v l IH]; intros st H; simpl; [reflexivity |].
  rewrite scan_vehicle_skip by (apply H; left; reflexivity).
  apply IH. intros v' Hv'. apply H. right. exact Hv'.
Qed.

Lemma scan_emergencies_none (w : World) :
  no_waiting_emergency w -> scan_emergencies w = (None, None).
Proof.
  intros H. unfold scan_emergencies, scan_approach.
  cbn [seq NO_OF_SIGNALS fold_left].
  rewrite (scan_list_skip 0) by apply (H 0%nat).
  rewrite (scan_list_skip 1) by apply (H 1%nat).
  rewrite (scan_list_skip 2) by apply (H 2%nat).
  rewrite (scan_list_skip 3) by apply (H 3%nat).
  reflexivity.
Qed.

Lemma priority_of_positive (fl : Q -> Q) (count waited : Z) :
  sign_keeping fl -> (0 <= waited)%Z ->
  (priority_of fl count waited >? 0) = true <-> (0 < count)%Z.
Proof.
  intros [Hnonneg Hpos] Hw. unfold priority_of. rewrite Qltb_lt.
  rewrite Zle_Qle in Hw. change (inject_Z 0) with 0 in Hw.
  destruct (count >? 0)%Z eqn:E.
  - apply Z.gtb_lt in E. split; [intros _; exact E | intros _].
    assert (E1 : (1 <= count)%Z) by lia.
    rewrite Zle_Qle in E1. change (inject_Z 1) with 1 in E1.
    assert (H02 : 0 <= fl 0.2) by (apply Hnonneg; lra).
    assert (Hprod : 0 <= fl (fl 0.2 * inject_Z waited)).
    { apply Hnonneg. apply Qmult_le_0_compat; assumption. }
    apply Hpos. lra.
  - split; [intros H; lra | intros H].
    apply Z.gtb_lt in H. congruence.
Qed.

Lemma priority_tuple_score (fl : Q -> Q) (w : World) (i : nat) :
  (0 < waiting_count w (DIRECTIONS i))%Z ->
  tuple_priority (priority_tuple fl w i) = priority_score fl w i.
Proof.
  intros H. unfold priority_tuple, tuple_priority, priority_score.
  cbn [fst]. unfold priority_of.
  apply Z.gtb_lt in H. rewrite H. reflexivity.
Qed.

(** The candidates kept by the filter [p[0] > 0]. *)
Lemma candidate_iff (fl : Q -> Q) (w : World) (q : PriorityTuple) :
  sign_keeping fl ->
  (forall i, (i < NO_OF_SIGNALS)%nat -> (0 <= lane_waiting_time w i)%Z) ->
  In q (filter (fun p => tuple_priority p >? 0)
          (map (priority_tuple fl w) (seq 0 NO_OF_SIGNALS)))
  <-> exists i, (i < NO_OF_SIGNALS)%nat /\ q = priority_tuple fl w i /\
                (0 < waiting_count w (DIRECTIONS i))%Z.
Proof.
  intros Hfl Ht. rewrite filter_In, in_map_iff. split.
  - intros [(i & <- & Hi) Hp]. apply in_seq in Hi.
    exists i. split; [lia |]. split; [reflexivity |].
    unfold priority_tuple, tuple_priority in Hp. cbn [fst] in Hp.
    apply priority_of_positive in Hp;
      [exact Hp | exact Hfl | apply Ht; lia].
  - intros (i & Hi & -> & Hc). split.
    + exists i. split; [reflexivity | apply in_seq; lia].
    + unfold priority_tuple, tuple_priority. cbn [fst].
      apply priority_of_positive; [exact Hfl | apply Ht; lia | exact Hc].
Qed.

Lemma exact_sign_keeping : sign_keeping exact.
Proof. unfold sign_keeping, exact. split; intros q H; lra. Qed.

Lemma no_emergency_in_two_cars (a b : Vehicle) :
  is_waiting_emergency a = false -> is_waiting_emergency b = false ->
  no_waiting_emergency
    (world_of (fun d l =>
       match d, l with
       | DRight, L0 => [a]
       | DDown, L0 => [b]
       | _, _ => []
       end) 10 [0; 0; 0; 0]%Z).
Proof.
  intros Ha Hb i v.
  destruct i as [| [| [| i]]]; simpl; intros Hin;
    repeat (destruct Hin as [<- | Hin]; [assumption |]); destruct Hin.
Qed.

(** C2 (as amended).  With no waiting emergency vehicle, the scheduler
    scores every approach that has waiting vehicles by
    [waitingCount + 0.2 * (time_elapsed - lane_last_green_time)]; it selects
    nothing exactly when no approach has a waiting vehicle; otherwise it
    selects an approach with waiting vehicles whose computed score is the
    highest, and among approaches of equal highest score the one of highest
    index.  This holds whatever the rounding of the floats, as long as it
    keeps signs.  In exact arithmetic, counts 12 and 3 served 40 s and 5 s
    ago give the scores 20 and 4, and the first approach is selected. *)
Theorem normal_priority_selection (fl : Q -> Q) (w : World)
    (Hfl : sign_keeping fl)
    (Hno : no_waiting_emergency w)
    (Htime : forall i, (i < NO_OF_SIGNALS)%nat ->
               (0 <= lane_waiting_time w i)%Z) :
  (select_lane fl w = None <->
   forall i, (i < NO_OF_SIGNALS)%nat ->
     waiting_count w (DIRECTIONS i) = 0%Z) /\
  (forall s, select_lane fl w = Some s ->
     (s < NO_OF_SIGNALS)%nat /\ (0 < waiting_count w (DIRECTIONS s))%Z /\
     forall j, (j < NO_OF_SIGNALS)%nat ->
       (0 < waiting_count w (DIRECTIONS j))%Z ->
       priority_score fl w j < priority_score fl w s \/
       (priority_score fl w j == priority_score fl w s /\ (j <= s)%nat)) /\
  (forall i,
     priority_score exact w i
     == inject_Z (waiting_count w (DIRECTIONS i))
        + 0.2 * inject_Z (lane_waiting_time w i)) /\
  (priority_score exact twelve_three_world 0 == 20 /\
   priority_score exact twelve_three_world 1 == 4 /\
   select_lane exact twelve_three_world = Some 0%nat).
Proof.
  assert (Hsel : select_lane fl w
                 = match priorities fl w with
                   | [] => None
                   | p :: _ => Some (tuple_lane p)
                   end).
  { unfold select_lane, selection.
    rewrite (scan_emergencies_none w Hno). cbn [snd].
    destruct (priorities fl w); reflexivity. }
  rewrite Hsel. clear Hsel. unfold priorities.
  set (cands := filter (fun p => tuple_priority p >? 0)
                  (map (priority_tuple fl w) (seq 0 NO_OF_SIGNALS))).
  split; [| split; [| split]].
  - destruct (sort_reverse cands) as [| p t] eqn:E.
    + split; [intros _ | reflexivity].
      intros i Hi.
      destruct (Z.eq_dec (waiting_count w (DIRECTIONS i)) 0) as [H0 | Hn];
        [exact H0 | exfalso].
      pose proof (waiting_count_nonneg w (DIRECTIONS i)) as Hge.
      assert (Hin : In (priority_tuple fl w i) cands).
      { apply candidate_iff; [exact Hfl | exact Htime |].
        exists i. repeat split; [exact Hi | lia]. }
      apply sort_reverse_in in Hin. rewrite E in Hin. destruct Hin.
    + split; [discriminate | intros Hall; exfalso].
      destruct (sort_reverse_head cands p t E) as [Hin _].
      apply candidate_iff in Hin; [| exact Hfl | exact Htime].
      destruct Hin as (i & Hi & _ & Hc). rewrite (Hall i Hi) in Hc. lia.
  - intros s Hsel.
    destruct (sort_reverse cands) as [| p t] eqn:E; [discriminate |].
    injection Hsel as <-.
    destruct (sort_reverse_head cands p t E) as [Hin Hmax].
    apply candidate_iff in Hin; [| exact Hfl | exact Htime].
    destruct Hin as (i & Hi & -> & Hc).
    cbn [priority_tuple tuple_lane fst snd].
    split; [exact Hi |]. split; [exact Hc |].
    intros j Hj Hcj.
    assert (Hinj : In (priority_tuple fl w j) cands).
    { apply candidate_iff; [exact Hfl | exact Htime |].
      exists j. repeat split; assumption. }
    specialize (Hmax _ Hinj). unfold dominates in Hmax.
    rewrite !priority_tuple_score in Hmax by assumption.
    cbn [priority_tuple tuple_lane fst snd] in Hmax. exact Hmax.
  - intros i. unfold priority_score, exact. reflexivity.
  - split; [reflexivity |]. split; reflexivity.
Qed.

Lemma normal_priority_selection_witness :
  sign_keeping exact /\
  no_waiting_emergency tied_world /\
  (forall i, (i < NO_OF_SIGNALS)%nat ->
     (0 <= lane_waiting_time tied_world i)%Z) /\
  (select_lane exact tied_world = None <->
   forall i, (i < NO_OF_SIGNALS)%nat ->
     waiting_count tied_world (DIRECTIONS i) = 0%Z) /\
  (forall s, select_lane exact tied_world = Some s ->
     (s < NO_OF_SIGNALS)%nat /\
     (0 < waiting_count tied_world (DIRECTIONS s))%Z /\
     forall j, (j < NO_OF_SIGNALS)%nat ->
       (0 < waiting_count tied_world (DIRECTIONS j))%Z ->
       priority_score exact tied_world j < priority_score exact tied_world s \/
       (priority_score exact tied_world j == priority_score exact tied_world s
        /\ (j <= s)%nat)) /\
  (forall i,
     priority_score exact tied_world i
     == inject_Z (waiting_count tied_world (DIRECTIONS i))
        + 0.2 * inject_Z (lane_waiting_time tied_world i)) /\
  (priority_score exact twelve_three_world 0 == 20 /\
   priority_score exact twelve_three_world 1 == 4 /\
   select_lane exact twelve_three_world = Some 0%nat).
Proof.
  assert (Hno : no_waiting_emergency tied_world)
    by (apply no_emergency_in_two_cars; reflexivity).
  assert (Htime : forall i, (i < NO_OF_SIGNALS)%nat ->
            (0 <= lane_waiting_time tied_world i)%Z).
  { intros i Hi. unfold NO_OF_SIGNALS in Hi.
    destruct i as [| [| [| [| i]]]]; try lia; vm_compute; discriminate. }
  split; [exact exact_sign_keeping |].
  split; [exact Hno |]. split; [exact Htime |].
  exact (normal_priority_selection exact tied_world exact_sign_keeping
           Hno Htime).
Defined.

(** C2, the claim as stated fails: two approaches with one waiting car
    each, both served 10 s ago, have the same score, and the one of higher
    index is selected. *)
Lemma tie_selects_highest_index :
  ~ (forall (fl : Q -> Q) (w : World) (s j : nat),
       sign_keeping fl ->
       no_waiting_emergency w ->
       select_lane fl w = Some s ->
       (j < NO_OF_SIGNALS)%nat ->
       (0 < waiting_count w (DIRECTIONS j))%Z ->
       priority_score fl w j == priority_score fl w s ->
       (s <= j)%nat).
Proof.
  intros H.
  assert (Hno : no_waiting_emergency tied_world)
    by (apply no_emergency_in_two_cars; reflexivity).
  specialize (H exact tied_world 1%nat 0%nat exact_sign_keeping Hno).
  assert (Hle : (1 <= 0)%nat).
  { apply H.
    - vm_compute. reflexivity.
    - unfold NO_OF_SIGNALS. lia.
    - vm_compute. reflexivity.
    - vm_compute. reflexivity. }
  lia.
Qed.

(** The state of the scan after the vehicles [seen], each with the index of
    its approach: nothing is kept while no waiting emergency vehicle was
    seen; otherwise the estimate kept is that of a waiting emergency vehicle
    of the approach kept, and no waiting emergency vehicle seen has a
    smaller one. *)
Lemma scan_vehicle_invariant (seen : list (nat * Vehicle)) (st : ScanState)
    (i : nat) (v : Vehicle) :
  scan_invariant seen st ->
  scan_invariant (seen ++ [(i, v)]) (scan_vehicle i st v).
Proof.
  unfold scan_invariant, scan_vehicle.
  destruct st as [[t |] [lane |]]; try contradiction; intros H.
  - destruct H as [(u & Hu & Eu & Et) Hmin].
    destruct (is_waiting_emergency v) eqn:Ev.
    + cbn [fst].
      destruct (arrival_estimate (DIRECTIONS i) v <? t) eqn:Elt.
      * apply Qltb_lt in Elt. split.
        -- exists v. split; [apply in_or_app; right; left; reflexivity |].
           split; [exact Ev | reflexivity].
        -- intros j u' Hin Hu'. apply in_app_or in Hin.
           destruct Hin as [Hin | [Heq | []]].
           ++ specialize (Hmin j u' Hin Hu'). lra.
           ++ injection Heq as <- <-. lra.
      * apply Qltb_ge in Elt. split.
        -- exists u. split; [apply in_or_app; left; exact Hu |].
           split; assumption.
        -- intros j u' Hin Hu'. apply in_app_or in Hin.
           destruct Hin as [Hin | [Heq | []]].
           ++ exact (Hmin j u' Hin Hu').
           ++ injection Heq as <- <-. exact Elt.
    + split.
      * exists u. split; [apply in_or_app; left; exact Hu |].
        split; assumption.
      * intros j u' Hin Hu'. apply in_app_or in Hin.
        destruct Hin as [Hin | [Heq | []]].
        -- exact (Hmin j u' Hin Hu').
        -- injection Heq as <- <-. congruence.
  - destruct (is_waiting_emergency v) eqn:Ev.
    + cbn [fst]. split.
      * exists v. split; [apply in_or_app; right; left; reflexivity |].
        split; [exact Ev | reflexivity].
      * intros j u' Hin Hu'. apply in_app_or in Hin.
        destruct Hin as [Hin | [Heq | []]].
        -- rewrite (H j u' Hin) in Hu'. discriminate.
        -- injection Heq as <- <-. lra.
    + intros j u' Hin. apply in_app_or in Hin.
      destruct Hin as [Hin | [Heq | []]].
      * exact (H j u' Hin).
      * injection Heq as <- <-. exact Ev.
Qed.

Lemma scan_list_invariant (i : nat) (l : list Vehicle) :
  forall (seen : list (nat * Vehicle)) (st : ScanState),
    scan_invariant seen st ->
    scan_invariant (seen ++ map (pair i) l)
      (fold_left (scan_vehicle i) l st).
Proof.
  induction l as [| v l IH]; intros seen st H; simpl.
  - rewrite app_nil_r. exact H.
  - replace (seen ++ (i, v) :: map (pair i) l)
      with ((seen ++ [(i, v)]) ++ map (pair i) l)
      by (rewrite <- app_assoc; reflexivity).
    apply IH. apply scan_vehicle_invariant. exact H.
Qed.

Lemma scan_emergencies_invariant (w : World) :
  scan_invariant (scan_order w) (scan_emergencies w).
Proof.
  unfold scan_emergencies, scan_order, scan_approach.
  cbn [seq NO_OF_SIGNALS fold_left flat_map].
  rewrite app_nil_r, !app_assoc.
  repeat apply scan_list_invariant.
  change (scan_invariant ([] ++ map (pair 0%nat)
            (approach_vehicles w (DIRECTIONS 0)))
            (fold_left (scan_vehicle 0)
               (approach_vehicles w (DIRECTIONS 0)) (None, None))).
  apply scan_list_invariant. intros j u [].
Qed.

Lemma scan_order_in (w : World) (i : nat) (v : Vehicle) :
  In (i, v) (scan_order w) <->
  (i < NO_OF_SIGNALS)%nat /\ In v (approach_vehicles w (DIRECTIONS i)).
Proof.
  unfold scan_order. rewrite in_flat_map. split.
  - intros (j & Hj & Hin). apply in_map_iff in Hin.
    destruct Hin as (u & Heq & Hu). injection Heq as <- <-.
    apply in_seq in Hj. split; [lia | exact Hu].
  - intros [Hi Hv]. exists i. split; [apply in_seq; lia |].
    apply in_map. exact Hv.
Qed.

(** What the emergency override does select: the approach of a waiting
    emergency vehicle whose raw-coordinate estimate is the least. *)
Lemma emergency_scan_minimal (fl : Q -> Q) (w : World) (t : Q)
    (lane : nat) :
  scan_emergencies w = (Some t, Some lane) ->
  select_lane fl w = Some lane /\ (lane < NO_OF_SIGNALS)%nat /\
  (exists v, In v (approach_vehicles w (DIRECTIONS lane)) /\
             is_waiting_emergency v = true /\
             arrival_estimate (DIRECTIONS lane) v = t) /\
  (forall i v, (i < NO_OF_SIGNALS)%nat ->
     In v (approach_vehicles w (DIRECTIONS i)) ->
     is_waiting_emergency v = true ->
     t <= arrival_estimate (DIRECTIONS i) v).
Proof.
  intros E. pose proof (scan_emergencies_invariant w) as H.
  unfold select_lane, selection. rewrite E in *. cbn [snd option_map fst].
  destruct H as [(u & Hu & Eu & Et) Hmin].
  apply scan_order_in in Hu. destruct Hu as [Hl Hu].
  split; [reflexivity |]. split; [exact Hl |]. split.
  - exists u. auto.
  - intros i v Hi Hv Ev. apply (Hmin i v); [| exact Ev].
    apply scan_order_in. auto.
Qed.

(** The override fires as soon as some approach holds a waiting emergency
    vehicle. *)
Lemma emergency_override_fires (w : World) (i : nat) (v : Vehicle) :
  (i < NO_OF_SIGNALS)%nat ->
  In v (approach_vehicles w (DIRECTIONS i)) ->
  is_waiting_emergency v = true ->
  exists t lane, scan_emergencies w = (Some t, Some lane).
Proof.
  intros Hi Hv Ev. pose proof (scan_emergencies_invariant w) as H.
  destruct (scan_emergencies w) as [[t |] [lane |]]; cbn in H;
    try contradiction; [eauto |].
  assert (Hin : In (i, v) (scan_order w)) by (apply scan_order_in; auto).
  rewrite (H i v Hin) in Ev. discriminate.
Qed.

(** C1.  The emergency scan compares raw coordinates: with an emergency
    vehicle just spawned on the first approach (550 from its stop line) and
    one on the fourth approach 8.3 from its stop line, the scan keeps the
    least of the estimates 0 and 543.3 and the first approach is selected,
    although the other emergency vehicle is nearer to its stop line. *)
Theorem emergency_selection_picks_farther :
  scan_emergencies two_emergencies_world = (Some 0, Some 0%nat) /\
  (forall fl, select_lane fl two_emergencies_world = Some 0%nat) /\
  arrival_estimate DRight far_emergency == 0 /\
  arrival_estimate DUp near_emergency == 543.3 /\
  distance_to_stop_line DRight far_emergency == 550 /\
  distance_to_stop_line DUp near_emergency == 8.3 /\
  distance_to_stop_line DUp near_emergency
    < distance_to_stop_line DRight far_emergency.
Proof.
  assert (E : scan_emergencies two_emergencies_world = (Some 0, Some 0%nat))
    by (vm_compute; reflexivity).
  split; [exact E |]. split.
  - intros fl. unfold select_lane, selection. rewrite E. reflexivity.
  - repeat split; vm_compute; reflexivity.
Qed.

(** An override that fires before any normal selection has bound
    [max_waiting] stops the scheduler thread at the [print] that follows
    the selection: no green duration is assigned. *)
Lemma emergency_first_selection_raises :
  selection exact two_emergencies_world None = Some (0%nat, None) /\
  repeat_signal_cycle exact Selecting None two_emergencies_world = None /\
  forall w i, start_green w i None = None.
Proof.
  split; [vm_compute; reflexivity |]. split; [vm_compute; reflexivity |].
  intros w i. unfold start_green, modify_signal, set_last_green.
  destruct (nth_error (signals w) i); cbn; [| reflexivity].
  destruct (nth_error (lane_last_green_time w) i); reflexivity.
Qed.

(** ** Motion steps *)

Ltac unfold_motion :=
  unfold move_by_direction, keep, _move_right, _move_down, _move_left, _move_up,
    _move_right_turn, _move_right_straight, _move_down_turn,
    _move_down_straight, _move_left_turn, _move_left_straight,
    _move_up_turn, _move_up_straight, _move_left_after_crossing in *.

Ltac split_ifs :=
  repeat match goal with
  | |- context [if ?c then _ else _] => destruct c eqn:?
  | |- context [match ?c with Some _ => _ | None => _ end] => destruct c eqn:?
  end.

(** What a motion step can do to a vehicle. *)
Lemma move_by_direction_outcome (tr : Image -> Z -> Image) (w : World)
    (d : Direction) (idx : nat) (lane_list : list Vehicle) (v : Vehicle) :
  let r := fst (move_by_direction tr w d idx lane_list v) in
  r = Some v \/
  r = Some (forward d v) \/
  (r = Some (sideways d v) /\ crossed v = true /\ turned v = true) \/
  (r = Some (rotation_step tr v (fst (turn_displacement d))
               (snd (turn_displacement d))) /\
   crossed v = true /\ will_turn v = true /\ turned v = false /\
   d <> DLeft) \/
  (r = None /\ d = DLeft /\ crossed v = true /\ x v + rect_w v < - (10)).
Proof.
  cbn zeta. destruct d; unfold_motion.
  - destruct (will_turn v) eqn:Ew.
    + destruct (crossed v) eqn:Ec; cbn [negb orb].
      * destruct (x v + rect_w v <? TURN_MIDPOINTS_x DRight) eqn:Em.
        -- split_ifs; cbn [fst]; auto.
        -- destruct (turned v) eqn:Et; cbn [negb].
           ++ split_ifs; cbn [fst]; auto.
              right. right. left. auto.
           ++ cbn [fst]. right. right. right. left.
              repeat split; auto. discriminate.
      * split_ifs; cbn [fst]; auto.
    + split_ifs; cbn [fst]; auto.
  - destruct (will_turn v) eqn:Ew.
    + destruct (crossed v) eqn:Ec; cbn [negb orb].
      * destruct (y v + rect_h v <? TURN_MIDPOINTS_y DDown) eqn:Em.
        -- split_ifs; cbn [fst]; auto.
        -- destruct (turned v) eqn:Et; cbn [negb].
           ++ split_ifs; cbn [fst]; auto.
              right. right. left. auto.
           ++ cbn [fst]. right. right. right. left.
              repeat split; auto. discriminate.
      * split_ifs; cbn [fst]; auto.
    + split_ifs; cbn [fst]; auto.
  - destruct (crossed v) eqn:Ec.
    + destruct (find_ahead idx lane_list) as [a |].
      * destruct (x v >? x a + rect_w a + MOVING_GAP) eqn:Ea; cbn [fst]; auto.
        destruct (x v + rect_w v <? - (10)) eqn:Eo; cbn [fst]; auto.
        right. right. right. right. apply Qltb_lt in Eo. auto.
      * cbn [fst]. auto.
    + destruct (will_turn v) eqn:Ew; cbn [negb orb];
        split_ifs; cbn [fst]; auto.
  - destruct (will_turn v) eqn:Ew.
    + destruct (crossed v) eqn:Ec; cbn [negb orb].
      * destruct (y v >? TURN_MIDPOINTS_y DUp) eqn:Em.
        -- split_ifs; cbn [fst]; auto.
        -- destruct (turned v) eqn:Et; cbn [negb].
           ++ split_ifs; cbn [fst]; auto.
              right. right. left. auto.
           ++ cbn [fst]. right. right. right. left.
              repeat split; auto. discriminate.
      * split_ifs; cbn [fst]; auto.
    + split_ifs; cbn [fst]; auto.
Qed.

(** A motion step leaves the bookkeeping attributes of the vehicle alone. *)
Lemma move_by_direction_keeps (tr : Image -> Z -> Image) (w : World)
    (d : Direction) (idx : nat) (lane_list : list Vehicle) (v v' : Vehicle) :
  fst (move_by_direction tr w d idx lane_list v) = Some v' ->
  crossed v' = crossed v /\ cross_time v' = cross_time v /\
  spawn_time v' = spawn_time v /\ vehicle_class v' = vehicle_class v /\
  will_turn v' = will_turn v /\ waiting_time v' = waiting_time v /\
  stop v' = stop v.
Proof.
  intros H.
  destruct (move_by_direction_outcome tr w d idx lane_list v)
    as [E | [E | [(E & _) | [(E & _) | (E & _)]]]];
    rewrite E in H; try discriminate; injection H as <-.
  - repeat split.
  - destruct d; repeat split.
  - destruct d; repeat split.
  - unfold rotation_step.
    destruct (rotate_angle v + ROTATION_ANGLE =? 90)%Z; repeat split.
Qed.

Lemma check_crossing_cases (w : World) (d : Direction) (v : Vehicle) :
  (crossed v = true /\ _check_crossing w d v = (w, v)) \/
  (crossed v = false /\ past_stop_line d v = false /\
   _check_crossing w d v = (w, v)) \/
  (crossed v = false /\ past_stop_line d v = true /\
   _check_crossing w d v = _mark_crossed w d v).
Proof.
  unfold _check_crossing.
  destruct (crossed v); cbn [negb]; [left; auto | right].
  destruct (past_stop_line d v); [right | left]; auto.
Qed.

Lemma past_stop_line_waiting (d : Direction) (v : Vehicle) (n : Z) :
  past_stop_line d (set_waiting_time v n) = past_stop_line d v.
Proof. destruct d; reflexivity. Qed.

(** The queue of the moved vehicle and the rest of the world after
    [move]. *)
Lemma move_result (tr : Image -> Z -> Image) (w : World) (d : Direction)
    (l : LaneId) (idx : nat) (v : Vehicle) :
  nth_error (vehicles w d l) idx = Some v ->
  let a := advance tr w d idx (vehicles w d l) v in
  vehicles (move tr w d l idx) d l = put_back idx (vehicles w d l) (snd a) /\
  (forall d' l', d <> d' \/ l <> l' ->
     vehicles (move tr w d l idx) d' l' = vehicles w d' l') /\
  waiting_times (move tr w d l idx) = waiting_times (fst a) /\
  crossed_count (move tr w d l idx) = crossed_count (fst a) /\
  signals (move tr w d l idx) = signals w /\
  time_elapsed (move tr w d l idx) = time_elapsed w /\
  current_green (move tr w d l idx) = current_green w /\
  current_yellow (move tr w d l idx) = current_yellow w /\
  lane_last_green_time (move tr w d l idx) = lane_last_green_time w.
Proof.
  intros Hv. cbn zeta. unfold move. rewrite Hv.
  unfold advance.
  set (self1 := if negb (crossed v)
                then set_waiting_time v (waiting_time v + 1) else v).
  destruct (check_crossing_cases w d self1)
    as [(_ & E) | [(_ & _ & E) | (_ & _ & E)]];
    rewrite E; unfold _mark_crossed; cbn [fst snd];
    (split; [apply set_lane_same |]);
    (split; [intros d' l' Hne; rewrite set_lane_other by exact Hne;
             reflexivity |]);
    repeat split.
Qed.

(** ** Crossing detection *)

(** The crossing check of a call of [move], by the flag of the vehicle and
    the outcome of the test [past_stop_line] of [_check_crossing]. *)
Lemma crossing_by_test (tr : Image -> Z -> Image) (w : World)
    (d : Direction) (l : LaneId) (idx : nat) (v : Vehicle)
    (Hv : nth_error (vehicles w d l) idx = Some v)
    (Ht : (spawn_time v <= time_elapsed w)%Z) :
  let w' := move tr w d l idx in
  exists r,
    vehicles w' d l = put_back idx (vehicles w d l) r /\
    if crossed v then
      waiting_times w' = waiting_times w /\
      crossed_count w' = crossed_count w /\
      (forall v', r = Some v' ->
         crossed v' = true /\ cross_time v' = cross_time v)
    else if past_stop_line d v then
      waiting_times w'
        = waiting_times w ++ [(time_elapsed w - spawn_time v)%Z] /\
      crossed_count w' d = (crossed_count w d + 1)%Z /\
      (forall d', d' <> d -> crossed_count w' d' = crossed_count w d') /\
      (forall v', r = Some v' ->
         crossed v' = true /\ cross_time v' = Some (time_elapsed w) /\
         spawn_time v' = spawn_time v /\
         (spawn_time v' <= time_elapsed w)%Z)
    else
      waiting_times w' = waiting_times w /\
      crossed_count w' = crossed_count w /\
      (forall v', r = Some v' ->
         crossed v' = false /\ cross_time v' = cross_time v).
Proof.
  cbn zeta.
  destruct (move_result tr w d l idx v Hv) as (Hq & _ & Hwt & Hcc & _).
  exists (snd (advance tr w d idx (vehicles w d l) v)).
  split; [exact Hq |].
  rewrite Hwt, Hcc. clear Hq Hwt Hcc.
  unfold advance.
  destruct (crossed v) eqn:Ec; cbn [negb].
  - destruct (check_crossing_cases w d v) as [(_ & E) | [(F & _) | (F & _)]];
      try congruence.
    rewrite E. cbn [fst snd]. repeat split;
      apply move_by_direction_keeps in H; destruct H as (H1 & H2 & _);
      congruence.
  - set (self1 := set_waiting_time v (waiting_time v + 1)).
    destruct (check_crossing_cases w d self1)
      as [(F & _) | [(_ & Ep & E) | (_ & Ep & E)]];
      [unfold self1 in F; cbn in F; congruence | |];
      unfold self1 in Ep; rewrite past_stop_line_waiting in Ep; rewrite Ep;
      rewrite E; unfold _mark_crossed;
      cbn [fst snd waiting_times crossed_count].
    + repeat split;
        apply move_by_direction_keeps in H; destruct H as (H1 & H2 & _).
      * rewrite H1. exact Ec.
      * rewrite H2. reflexivity.
    + split; [reflexivity |].
      split; [destruct d; reflexivity |].
      split; [intros d' Hd'; destruct d, d'; try reflexivity; congruence |].
      intros v' H.
      apply move_by_direction_keeps in H. destruct H as (H1 & H2 & H3 & _).
      cbn in H1, H2, H3. rewrite H1, H2, H3. repeat split. exact Ht.
Qed.

(** ** Shape of a motion step *)

(** The three ways the bookkeeping at the head of [move] can go before the
    motion itself. *)
Lemma advance_forms (tr : Image -> Z -> Image) (w : World) (d : Direction)
    (idx : nat) (lane_list : list Vehicle) (v : Vehicle) :
  (crossed v = true /\
   advance tr w d idx lane_list v
     = (w, fst (move_by_direction tr w d idx lane_list v))) \/
  (crossed v = false /\ past_stop_line d v = false /\
   advance tr w d idx lane_list v
     = (w, fst (move_by_direction tr w d idx lane_list
                  (set_waiting_time v (waiting_time v + 1))))) \/
  (crossed v = false /\ past_stop_line d v = true /\
   advance tr w d idx lane_list v
     = (fst (_mark_crossed w d (set_waiting_time v (waiting_time v + 1))),
        fst (move_by_direction tr
               (fst (_mark_crossed w d
                       (set_waiting_time v (waiting_time v + 1))))
               d idx lane_list
               (set_crossed (set_waiting_time v (waiting_time v + 1))
                  (time_elapsed w))))).
Proof.
  unfold advance. destruct (crossed v) eqn:Ec; cbn [negb].
  - left. split; [reflexivity |].
    destruct (check_crossing_cases w d v) as [(_ & E) | [(F & _) | (F & _)]];
      try congruence.
    rewrite E. reflexivity.
  - right.
    set (self1 := set_waiting_time v (waiting_time v + 1)).
    destruct (check_crossing_cases w d self1)
      as [(F & _) | [(_ & Ep & E) | (_ & Ep & E)]];
      [unfold self1 in F; cbn in F; congruence | |];
      unfold self1 in Ep; rewrite past_stop_line_waiting in Ep; rewrite E.
    + left. auto.
    + right. split; [reflexivity |]. split; [exact Ep |]. reflexivity.
Qed.

Ltac outcome_cases tr W d idx lane_list V Hr :=
  destruct (move_by_direction_outcome tr W d idx lane_list V)
    as [O | [O | [(O & ? & ?) | [(O & ? & ? & ? & ?) | (O & ? & ? & ?)]]]];
  cbn zeta in O; rewrite O in Hr; try discriminate Hr; injection Hr as <-.

Lemma outcome_shape (tr : Image -> Z -> Image) (W : World) (d : Direction)
    (idx : nat) (lane_list : list Vehicle) (v V v' : Vehicle) :
  x V = x v -> y V = y v -> vehicle_class V = vehicle_class v ->
  will_turn V = will_turn v -> turned V = turned v ->
  fst (move_by_direction tr W d idx lane_list V) = Some v' ->
  same_position v v' \/ speed_step v v' \/
  (rotation_move d v v' /\ will_turn v = true /\ turned v = false /\
   crossed v' = true /\ d <> DLeft).
Proof.
  intros Hx Hy Hc Hw Htn Hr.
  outcome_cases tr W d idx lane_list V Hr.
  - left. split; assumption.
  - right. left. unfold speed_step.
    destruct d; cbn; unfold speed; rewrite ?Hx, ?Hy, ?Hc; auto.
  - right. left. unfold speed_step.
    destruct d; cbn; unfold speed; rewrite ?Hx, ?Hy, ?Hc; auto.
  - right. right. unfold rotation_move, rotation_step.
    destruct (rotate_angle V + ROTATION_ANGLE =? 90)%Z;
      destruct d; cbn; rewrite Hx, Hy; repeat split; congruence.
Qed.

(** C5, the claim as stated fails: a bus (speed 0.6) in its rotation phase
    is displaced by 2 along x and by 1.8 along y in one call. *)
Lemma rotation_exceeds_speed_step :
  ~ (forall (tr : Image -> Z -> Image) (w : World) (d : Direction)
       (l : LaneId) (idx : nat) (v v' : Vehicle),
       nth_error (vehicles w d l) idx = Some v ->
       nth_error (vehicles (move tr w d l idx) d l) idx = Some v' ->
       within_speed_on_one_axis v v').
Proof.
  intros H.
  specialize (H keep_rect rotating_bus_world DRight L2 0%nat rotating_bus
                (mkVehicle bus (665.4 + 2) (398 + 1.8) true true false 3 0 0
                   (Some 0%Z) sample_image sample_image 580)
                eq_refl eq_refl).
  destruct H as [[Hy _] | [Hx _]]; vm_compute in Hy || vm_compute in Hx;
    discriminate.
Qed.

(** ** Spawn ticks *)

Lemma put_back_in (i : nat) (lane_list : list Vehicle)
    (r : option Vehicle) (v' : Vehicle) :
  In v' (put_back i lane_list r) -> r = Some v' \/ In v' lane_list.
Proof.
  destruct r as [u |]; cbn [put_back].
  - revert i; induction lane_list as [| h t IH]; intros [| i] H;
      simpl in *; try contradiction.
    + destruct H as [<- | H]; auto.
    + destruct H as [<- | H]; auto.
      destruct (IH i H) as [E | Hin]; auto.
  - revert i; induction lane_list as [| h t IH]; intros [| i] H;
      simpl in *; try contradiction; auto.
    destruct H as [<- | H]; auto.
    destruct (IH i H) as [E | Hin]; [discriminate E | auto].
Qed.

Lemma advance_keeps_identity (tr : Image -> Z -> Image) (w : World)
    (d : Direction) (idx : nat) (lane_list : list Vehicle) (v v' : Vehicle) :
  snd (advance tr w d idx lane_list v) = Some v' ->
  spawn_time v' = spawn_time v /\ vehicle_class v' = vehicle_class v /\
  will_turn v' = will_turn v.
Proof.
  intros Hr.
  destruct (advance_forms tr w d idx lane_list v)
    as [(_ & E) | [(_ & _ & E) | (_ & _ & E)]];
    rewrite E in Hr; cbn [snd] in Hr;
    apply move_by_direction_keeps in Hr;
    destruct Hr as (_ & _ & H3 & H4 & H5 & _); auto.
Qed.

(** The spawn tick of a vehicle is never after the clock: true at program
    start and kept by the generator, the clock and the motion steps. *)
Lemma spawned_in_past_initial : spawned_in_past initial_world.
Proof. intros d l v []. Qed.

Lemma spawned_in_past_new_vehicle (load_image : Direction -> VClass -> Image)
    (w : World) (l : LaneId) (c : VClass) (d : Direction) (turn : bool) :
  spawned_in_past w ->
  spawned_in_past (new_vehicle load_image w l c d turn).
Proof.
  intros H d' l' v Hin. unfold new_vehicle in *.
  cbn [time_elapsed set_lane vehicles] in *.
  destruct (Direction_eqb d d' && LaneId_eqb l l').
  - apply in_app_or in Hin. destruct Hin as [Hin | [<- | []]].
    + exact (H d l v Hin).
    + cbn. lia.
  - exact (H d' l' v Hin).
Qed.

Lemma spawned_in_past_timer (w : World) :
  spawned_in_past w -> spawned_in_past (simulation_timer w).
Proof.
  intros H d l v Hin. cbn in *. specialize (H d l v Hin). lia.
Qed.

Lemma spawned_in_past_move (tr : Image -> Z -> Image) (w : World)
    (d : Direction) (l : LaneId) (idx : nat) :
  spawned_in_past w -> spawned_in_past (move tr w d l idx).
Proof.
  intros H d' l' v' Hin.
  destruct (nth_error (vehicles w d l) idx) as [v |] eqn:Ev;
    [| unfold move in *; rewrite Ev in *; exact (H d' l' v' Hin)].
  destruct (move_result tr w d l idx v Ev)
    as (Hq & Hother & _ & _ & _ & Htime & _).
  rewrite Htime.
  assert (Hcase : (d = d' /\ l = l') \/ (d <> d' \/ l <> l')).
  { destruct d, d', l, l'; auto; right;
      ((left; discriminate) || (right; discriminate)). }
  destruct Hcase as [[<- <-] | Hne].
  - rewrite Hq in Hin. apply put_back_in in Hin.
    destruct Hin as [Hr | Hin]; [| exact (H d l v' Hin)].
    apply advance_keeps_identity in Hr. destruct Hr as (Hs & _).
    rewrite Hs. apply (H d l v). eapply nth_error_In. exact Ev.
  - rewrite (Hother d' l' Hne) in Hin. exact (H d' l' v' Hin).
Qed.

(** ** Order within a lane queue *)


Lemma ahead_clear_weaken (idx : nat) (lane_list : list Vehicle)
    (c1 c2 : Vehicle -> bool) :
  (forall p, c1 p = true -> c2 p = true) ->
  ahead_clear idx lane_list c1 = true -> ahead_clear idx lane_list c2 = true.
Proof.
  intros H. unfold ahead_clear.
  destruct (idx =? 0)%nat; [reflexivity |]. cbn [orb].
  destruct (nth_error lane_list (idx - 1)); [apply H | discriminate].
Qed.

(** Before it is flagged as crossed, a vehicle either stays or makes one
    step forward, and the step needs the spacing clause. *)
Lemma uncrossed_motion (tr : Image -> Z -> Image) (W : World) (d : Direction)
    (idx : nat) (lane_list : list Vehicle) (V : Vehicle) :
  crossed V = false ->
  let r := fst (move_by_direction tr W d idx lane_list V) in
  r = Some V \/
  (r = Some (forward d V) /\
   ahead_clear idx lane_list (fun prev => gap_kept d V prev || turned prev)
     = true).
Proof.
  intros Hc. cbn zeta. destruct d; unfold_motion; rewrite Hc; cbn [negb orb].
  - destruct (will_turn V);
      match goal with
      | |- context [if ?c then _ else _] => destruct c eqn:E
      end; cbn [fst]; auto;
      apply andb_true_iff in E; destruct E as [_ E]; right; auto.
  - destruct (will_turn V);
      match goal with
      | |- context [if ?c then _ else _] => destruct c eqn:E
      end; cbn [fst]; auto;
      apply andb_true_iff in E; destruct E as [_ E]; right; auto.
  - destruct (will_turn V);
      match goal with
      | |- context [if ?c then _ else _] => destruct c eqn:E
      end; cbn [fst]; auto;
      apply andb_true_iff in E; destruct E as [_ E]; right;
      (split; [reflexivity |]).
    + exact E.
    + revert E. apply ahead_clear_weaken.
      intros p Hp. cbn [gap_kept]. rewrite Hp. reflexivity.
  - destruct (will_turn V);
      match goal with
      | |- context [if ?c then _ else _] => destruct c eqn:E
      end; cbn [fst]; auto;
      apply andb_true_iff in E; destruct E as [_ E]; right; auto.
Qed.







(** A vehicle turns only once it is flagged as crossed: the motion step
    keeps [turned -> crossed]. *)
Lemma turned_only_after_crossing (tr : Image -> Z -> Image) (w : World)
    (d : Direction) (idx : nat) (lane_list : list Vehicle) (v v' : Vehicle) :
  (turned v = true -> crossed v = true) ->
  snd (advance tr w d idx lane_list v) = Some v' ->
  turned v' = true -> crossed v' = true.
Proof.
  intros Hinv Hr.
  assert (Hstep : forall W V,
            (turned V = true -> crossed V = true) ->
            fst (move_by_direction tr W d idx lane_list V) = Some v' ->
            turned v' = true -> crossed v' = true).
  { intros W V HV HrV.
    outcome_cases tr W d idx lane_list V HrV.
    - exact HV.
    - destruct d; exact HV.
    - destruct d; exact HV.
    - intros _. unfold rotation_step.
      destruct (rotate_angle V + ROTATION_ANGLE =? 90)%Z; assumption. }
  destruct (advance_forms tr w d idx lane_list v)
    as [(_ & E) | [(_ & _ & E) | (_ & _ & E)]];
    rewrite E in Hr; cbn [snd] in Hr;
    eapply Hstep; try exact Hr; auto.
Qed.

(** ** Removal from the lane queue *)

(** The only removal: a vehicle of the third approach, flagged as crossed
    once the crossing check of the call has run, blocked by a vehicle
    ahead that is still on the scene, with its trailing edge left of -10. *)
Lemma removal_conditions (tr : Image -> Z -> Image) (w : World)
    (d : Direction) (idx : nat) (lane_list : list Vehicle) (v : Vehicle) :
  snd (advance tr w d idx lane_list v) = None ->
  d = DLeft /\ x v + rect_w v < - (10) /\
  exists a, find_ahead idx lane_list = Some a.
Proof.
  intros Hr.
  assert (Hstep : forall W V,
            x V = x v -> current_image V = current_image v ->
            fst (move_by_direction tr W d idx lane_list V) = None ->
            d = DLeft /\ x v + rect_w v < - (10) /\
            exists a, find_ahead idx lane_list = Some a).
  { intros W V Hx Him HrV.
    destruct (move_by_direction_outcome tr W d idx lane_list V)
      as [O | [O | [(O & _) | [(O & _) | (_ & Hd & _ & Hoff)]]]];
      try (rewrite O in HrV; discriminate HrV).
    split; [exact Hd |].
    unfold rect_w in *. rewrite Hx, Him in Hoff. split; [exact Hoff |].
    subst d. unfold move_by_direction, _move_left, _move_left_after_crossing,
      keep in HrV.
    destruct (crossed V); [| destruct (will_turn V); discriminate HrV].
    destruct (find_ahead idx lane_list) as [a |]; [eauto |].
    discriminate HrV. }
  destruct (advance_forms tr w d idx lane_list v)
    as [(_ & E) | [(_ & _ & E) | (_ & _ & E)]];
    rewrite E in Hr; cbn [snd] in Hr;
    eapply Hstep; try exact Hr; reflexivity.
Qed.

(** A crossed vehicle of the third approach with no vehicle ahead of it on
    the scene moves on at every call, wherever it is: it is not removed. *)
Lemma free_left_vehicle_moves_on (tr : Image -> Z -> Image) (w : World)
    (idx : nat) (lane_list : list Vehicle) (v : Vehicle) :
  crossed v = true -> find_ahead idx lane_list = None ->
  snd (advance tr w DLeft idx lane_list v) = Some (forward DLeft v).
Proof.
  intros Hc Ha.
  destruct (advance_forms tr w DLeft idx lane_list v)
    as [(_ & E) | [(F & _) | (F & _)]]; try congruence.
  rewrite E. cbn [snd].
  unfold move_by_direction, _move_left, _move_left_after_crossing.
  rewrite Hc, Ha. reflexivity.
Qed.

(** C9.  A crossed vehicle of the third approach whose trailing edge is at
    -55, beyond the scene bound, is still in its lane queue after [move],
    one speed step further left; and a crossed vehicle of the first
    approach beyond the right border of the scene stays in its queue as
    well. *)
Theorem offscreen_vehicle_stays_queued :
  crossed offscreen_vehicle = true /\
  x offscreen_vehicle + rect_w offscreen_vehicle == - (55) /\
  vehicles (move keep_rect offscreen_world DLeft L0 0) DLeft L0
    = [forward DLeft offscreen_vehicle] /\
  vehicles (move keep_rect offscreen_right_world DRight L0 0) DRight L0
    = [forward DRight (sample_vehicle DRight car 1495 348 true)].
Proof.
  repeat split; vm_compute; reflexivity.
Qed.

(** ** Entry into the yellow phase *)

(** C8.  In the green loop, once the green counter of the active approach
    is no longer positive the scheduler enters the yellow phase: the yellow
    flag is set and every vehicle in the three lane queues of the active
    approach gets the default stop position of its direction, all its other
    attributes being kept; the queues of the other approaches, the signals
    and the rest of the world are left as they are.  While the counter is
    positive the scheduler stays in the green loop and touches no
    vehicle. *)
Theorem yellow_entry_reset (fl : Q -> Q) (w : World) (locals : Locals)
    (s : TrafficSignal)
    (Hs : nth_error (signals w) (current_green w) = Some s) :
  let d := DIRECTIONS (current_green w) in
  if (green s >? 0)%Z then
    forall ph' locals' w',
      repeat_signal_cycle fl Green locals w = Some (ph', locals', w') ->
      ph' = Green /\ vehicles w' = vehicles w /\
      current_yellow w' = current_yellow w
  else
    exists w',
      repeat_signal_cycle fl Green locals w = Some (Yellow, locals, w') /\
      current_yellow w' = 1%Z /\
      (forall l i, nth_error (vehicles w' d l) i
                   = option_map (fun v => set_stop v (DEFAULT_STOPS d))
                       (nth_error (vehicles w d l) i)) /\
      (forall l v', In v' (vehicles w' d l) -> stop v' = DEFAULT_STOPS d) /\
      (forall v, vehicle_class (set_stop v (DEFAULT_STOPS d)) = vehicle_class v
                 /\ x (set_stop v (DEFAULT_STOPS d)) = x v
                 /\ y (set_stop v (DEFAULT_STOPS d)) = y v
                 /\ crossed (set_stop v (DEFAULT_STOPS d)) = crossed v
                 /\ will_turn (set_stop v (DEFAULT_STOPS d)) = will_turn v
                 /\ turned (set_stop v (DEFAULT_STOPS d)) = turned v
                 /\ rotate_angle (set_stop v (DEFAULT_STOPS d)) = rotate_angle v
                 /\ waiting_time (set_stop v (DEFAULT_STOPS d)) = waiting_time v
                 /\ spawn_time (set_stop v (DEFAULT_STOPS d)) = spawn_time v
                 /\ cross_time (set_stop v (DEFAULT_STOPS d)) = cross_time v
                 /\ original_image (set_stop v (DEFAULT_STOPS d))
                    = original_image v
                 /\ current_image (set_stop v (DEFAULT_STOPS d))
                    = current_image v) /\
      (forall d' l, d' <> d -> vehicles w' d' l = vehicles w d' l) /\
      crossed_count w' = crossed_count w /\ signals w' = signals w /\
      time_elapsed w' = time_elapsed w /\
      current_green w' = current_green w /\
      lane_last_green_time w' = lane_last_green_time w /\
      waiting_times w' = waiting_times w.
Proof.
  cbn zeta. unfold repeat_signal_cycle. rewrite Hs.
  destruct (green s >? 0)%Z eqn:Eg.
  - intros ph' locals' w' H.
    unfold green_round in H.
    destruct (update_signal_values w) as [w1 |] eqn:E1; [| discriminate H].
    cbn [bind] in H.
    assert (Hw1 : vehicles w1 = vehicles w /\
                  current_yellow w1 = current_yellow w).
    { revert E1. unfold update_signal_values.
      cbn [seq NO_OF_SIGNALS fold_left bind]. unfold modify_signal.
      repeat match goal with
      | |- context [nth_error ?l ?i] =>
          destruct (nth_error l i); cbn [bind]; [| discriminate]
      end.
      intros E1. injection E1 as <-. split; reflexivity. }
    destruct (nth_error (signals w1) (next_signal w1)) as [s1 |];
      [| discriminate H].
    destruct (red s1 =? DETECTION_TIME)%Z.
    + unfold calculate_green_time, modify_signal in H.
      destruct (nth_error (signals w1) (next_signal w1)); [| discriminate H].
      cbn [bind] in H. injection H as <- _ <-.
      destruct Hw1 as [Hv Hy]. repeat split; assumption.
    + cbn [bind] in H. injection H as <- _ <-.
      destruct Hw1 as [Hv Hy]. repeat split; assumption.
  - eexists. split; [reflexivity |].
    unfold enter_yellow.
    cbn [vehicles set_vehicles set_current_yellow current_yellow crossed_count
         signals time_elapsed current_green lane_last_green_time
         waiting_times].
    split; [reflexivity |].
    split; [| split; [| split; [| split]]].
    + intros l i.
      destruct (DIRECTIONS (current_green w)); cbn [Direction_eqb];
        apply nth_error_map.
    + intros l v' Hin.
      destruct (DIRECTIONS (current_green w)); cbn [Direction_eqb] in Hin;
        apply in_map_iff in Hin; destruct Hin as (v & <- & _); reflexivity.
    + intros v. repeat split.
    + intros d' l Hd'.
      destruct (DIRECTIONS (current_green w)), d'; cbn [Direction_eqb];
        try reflexivity; congruence.
    + repeat split.
Qed.

Lemma yellow_entry_reset_witness :
  nth_error (signals green_elapsed_world) (current_green green_elapsed_world)
    = Some (mkSignal 150 5 0 10 60 20) /\
  exists w',
    repeat_signal_cycle exact Green (Some (2, 20)%Z) green_elapsed_world
      = Some (Yellow, Some (2, 20)%Z, w') /\
    current_yellow w' = 1%Z /\
    (forall l i, nth_error (vehicles w' DRight l) i
                 = option_map (fun v => set_stop v (DEFAULT_STOPS DRight))
                     (nth_error (vehicles green_elapsed_world DRight l) i)) /\
    (forall l v', In v' (vehicles w' DRight l) ->
       stop v' = DEFAULT_STOPS DRight) /\
    (forall d' l, d' <> DRight ->
       vehicles w' d' l = vehicles green_elapsed_world d' l) /\
    signals w' = signals green_elapsed_world.
Proof.
  split; [reflexivity |].
  destruct (yellow_entry_reset exact green_elapsed_world (Some (2, 20)%Z)
              (mkSignal 150 5 0 10 60 20) eq_refl)
    as (w' & H1 & H2 & H3 & H4 & _ & H6 & _ & H8 & _).
  exists w'. repeat split; assumption.
Defined.

(** ** Invariants of the running system *)

Lemma modify_signal_frame (i : nat) (f : TrafficSignal -> TrafficSignal)
    (w w' : World) :
  modify_signal i f w = Some w' ->
  vehicles w' = vehicles w /\ time_elapsed w' = time_elapsed w /\
  lane_last_green_time w' = lane_last_green_time w /\
  current_green w' = current_green w /\
  current_yellow w' = current_yellow w.
Proof.
  unfold modify_signal. destruct (nth_error (signals w) i); [| discriminate].
  intros H. injection H as <-. repeat split.
Qed.

Lemma update_signal_values_frame (w w' : World) :
  update_signal_values w = Some w' ->
  vehicles w' = vehicles w /\ time_elapsed w' = time_elapsed w /\
  lane_last_green_time w' = lane_last_green_time w /\
  current_green w' = current_green w /\
  current_yellow w' = current_yellow w.
Proof.
  unfold update_signal_values. cbn [seq NO_OF_SIGNALS fold_left bind].
  destruct (modify_signal 0 (fun s => update_signal w s 0) w)
    as [w1 |] eqn:E1; cbn [bind]; [| discriminate].
  destruct (modify_signal 1 (fun s => update_signal w1 s 1) w1)
    as [w2 |] eqn:E2; cbn [bind]; [| discriminate].
  destruct (modify_signal 2 (fun s => update_signal w2 s 2) w2)
    as [w3 |] eqn:E3; cbn [bind]; [| discriminate].
  intros E4.
  apply modify_signal_frame in E1, E2, E3, E4.
  destruct E1 as (A1 & B1 & C1 & D1 & F1), E2 as (A2 & B2 & C2 & D2 & F2),
    E3 as (A3 & B3 & C3 & D3 & F3), E4 as (A4 & B4 & C4 & D4 & F4).
  repeat split; congruence.
Qed.

Ltac step_modify E :=
  match goal with
  | |- context [modify_signal ?i ?f ?w0] =>
      destruct (modify_signal i f w0) eqn:E; cbn [bind]; [| discriminate];
      apply modify_signal_frame in E; destruct E as (? & ? & ? & _)
  end.

Ltac close_frame :=
  let H := fresh "H" in
  intros H; injection H as _ _ <-; cbn in *;
  split; [congruence |]; split; [left; congruence |];
  first [ left; congruence
        | right; eexists; etransitivity;
          [eassumption | f_equal; congruence] ].

(** A step of the scheduler leaves the clock alone, and the vehicles too
    unless it is the entry into the yellow phase; the ticks of last service
    change at a selection only, one of them becoming the current tick. *)
Lemma repeat_signal_cycle_frame (fl : Q -> Q) (ph ph' : Phase)
    (lo lo' : Locals) (w w' : World) :
  repeat_signal_cycle fl ph lo w = Some (ph', lo', w') ->
  time_elapsed w' = time_elapsed w /\
  (vehicles w' = vehicles w \/ w' = enter_yellow w) /\
  (lane_last_green_time w' = lane_last_green_time w \/
   exists i, lane_last_green_time w'
             = replace_at i (time_elapsed w) (lane_last_green_time w)).
Proof.
  destruct ph; cbn [repeat_signal_cycle].
  - destruct (selection fl w lo) as [[lane lo1] |].
    + unfold start_green. step_modify E1.
      unfold set_last_green.
      cbn [lane_last_green_time set_current_green current_green].
      match goal with
      | |- context [nth_error ?l ?i] =>
          destruct (nth_error l i); cbn [bind]; [| discriminate]
      end.
      destruct lo1; [| discriminate].
      step_modify E3. close_frame.
    + intros H. injection H as _ _ <-. auto.
  - destruct (nth_error (signals w) (current_green w)) as [s |];
      [| discriminate].
    destruct (green s >? 0)%Z.
    + unfold green_round.
      destruct (update_signal_values w) as [w1 |] eqn:E1; cbn [bind];
        [| discriminate].
      apply update_signal_values_frame in E1.
      destruct E1 as (A1 & B1 & C1 & _).
      destruct (nth_error (signals w1) (next_signal w1)) as [s1 |];
        [| discriminate].
      destruct (red s1 =? DETECTION_TIME)%Z.
      * unfold calculate_green_time. step_modify E2. close_frame.
      * close_frame.
    + intros H. injection H as _ _ <-. split; [reflexivity | auto].
  - destruct (nth_error (signals w) (current_green w)) as [s |];
      [| discriminate].
    destruct (yellow s >? 0)%Z.
    + destruct (update_signal_values w) as [w1 |] eqn:E1; cbn [bind];
        [| discriminate].
      apply update_signal_values_frame in E1.
      destruct E1 as (A1 & B1 & C1 & _).
      close_frame.
    + unfold leave_yellow. step_modify E1. step_modify E2. close_frame.
Qed.

Lemma enter_yellow_vehicles (w : World) (d : Direction) (l : LaneId)
    (v' : Vehicle) :
  In v' (vehicles (enter_yellow w) d l) ->
  exists v q, In v (vehicles w d l) /\ (v' = v \/ v' = set_stop v q).
Proof.
  unfold enter_yellow. cbn [vehicles set_vehicles set_current_yellow].
  destruct (Direction_eqb (DIRECTIONS (current_green w)) d).
  - intros Hin. apply in_map_iff in Hin. destruct Hin as (v & <- & Hv).
    exists v, (DEFAULT_STOPS (DIRECTIONS (current_green w))). auto.
  - intros Hin. exists v', 0. auto.
Qed.

Lemma turned_are_crossed_move (tr : Image -> Z -> Image) (w : World)
    (d : Direction) (l : LaneId) (idx : nat) :
  turned_are_crossed w -> turned_are_crossed (move tr w d l idx).
Proof.
  intros H d' l' v' Hin.
  destruct (nth_error (vehicles w d l) idx) as [v |] eqn:Ev;
    [| unfold move in *; rewrite Ev in *; exact (H d' l' v' Hin)].
  destruct (move_result tr w d l idx v Ev) as (Hq & Hother & _).
  assert (Hcase : (d = d' /\ l = l') \/ (d <> d' \/ l <> l')).
  { destruct d, d', l, l'; auto; right;
      ((left; discriminate) || (right; discriminate)). }
  destruct Hcase as [[<- <-] | Hne].
  - rewrite Hq in Hin. apply put_back_in in Hin.
    destruct Hin as [Hr | Hin]; [| exact (H d l v' Hin)].
    eapply turned_only_after_crossing; [| exact Hr].
    apply (H d l v). eapply nth_error_In. exact Ev.
  - rewrite (Hother d' l' Hne) in Hin. exact (H d' l' v' Hin).
Qed.

Lemma nth_replace_at (l : list Z) (i j : nat) (a : Z) :
  nth j (replace_at i a l) 0%Z = a \/
  nth j (replace_at i a l) 0%Z = nth j l 0%Z.
Proof.
  revert i j; induction l as [| h t IH]; intros [| i] [| j]; simpl; auto.
Qed.

(** In every state the system can reach, no vehicle was spawned after the
    current tick, no approach was last served after it, and every vehicle
    that has turned is flagged as crossed: the conditions under which the
    crossing tick is not before the spawn tick, the time since last service
    is not negative, and an uncrossed vehicle ahead has not turned. *)
Lemma reachable_invariants (tr : Image -> Z -> Image)
    (load_image : Direction -> VClass -> Image) (fl : Q -> Q) (st : System) :
  reachable tr load_image fl st ->
  spawned_in_past (world st) /\ turned_are_crossed (world st) /\
  served_in_past (world st).
Proof.
  induction 1 as [| st r _ (IH1 & IH2 & IH3) | st _ (IH1 & IH2 & IH3)
                  | st d l idx _ (IH1 & IH2 & IH3)
                  | st ph' lo' w' _ (IH1 & IH2 & IH3) Hstep]; cbn [world];
    (split; [| split]).
  - intros d l v [].
  - intros d l v [].
  - intros i. destruct i as [| [| [| [| [| i]]]]]; cbn; lia.
  - apply spawned_in_past_new_vehicle. exact IH1.
  - intros d l v Hin. unfold generate_vehicles, new_vehicle in Hin.
    cbn [vehicles set_lane] in Hin.
    destruct (Direction_eqb _ d && LaneId_eqb _ l);
      [| exact (IH2 d l v Hin)].
    apply in_app_or in Hin. destruct Hin as [Hin | [<- | []]].
    + match type of Hin with
      | In _ (vehicles _ ?d0 ?l0) => exact (IH2 d0 l0 v Hin)
      end.
    + cbn. discriminate.
  - exact IH3.
  - apply spawned_in_past_timer. exact IH1.
  - exact IH2.
  - intros i. specialize (IH3 i). cbn. lia.
  - apply spawned_in_past_move. exact IH1.
  - apply turned_are_crossed_move. exact IH2.
  - intros i. specialize (IH3 i).
    destruct (nth_error (vehicles (world st) d l) idx) as [v |] eqn:Ev;
      [| unfold move; rewrite Ev; exact IH3].
    destruct (move_result tr (world st) d l idx v Ev)
      as (_ & _ & _ & _ & _ & Htime & _ & _ & Hserved).
    rewrite Htime, Hserved. exact IH3.
  - apply repeat_signal_cycle_frame in Hstep.
    destruct Hstep as (Htime & [Hv | ->] & _).
    + intros d l v Hin. rewrite Hv in Hin. rewrite Htime.
      exact (IH1 d l v Hin).
    + intros d l v' Hin. rewrite Htime.
      apply enter_yellow_vehicles in Hin.
      destruct Hin as (v & q & Hv & [-> | ->]); exact (IH1 d l v Hv).
  - apply repeat_signal_cycle_frame in Hstep.
    destruct Hstep as (_ & [Hv | ->] & _).
    + intros d l v Hin. rewrite Hv in Hin. exact (IH2 d l v Hin).
    + intros d l v' Hin.
      apply enter_yellow_vehicles in Hin.
      destruct Hin as (v & q & Hv & [-> | ->]); exact (IH2 d l v Hv).
  - apply repeat_signal_cycle_frame in Hstep.
    destruct Hstep as (Htime & _ & [Hs | (k & Hs)]); intros i;
      rewrite Htime, Hs.
    + exact (IH3 i).
    + destruct (nth_replace_at (lane_last_green_time (world st)) k i
                  (time_elapsed (world st))) as [E | E]; rewrite E;
        [lia | exact (IH3 i)].
Qed.

(** ** Phase timers *)

Lemma length_replace_at {A : Type} (i : nat) (a : A) (l : list A) :
  length (replace_at i a l) = length l.
Proof.
  revert i. induction l as [| h t IH]; intros [| i]; simpl; auto.
Qed.

Lemma update_signal_values_four (w : World) (s0 s1 s2 s3 : TrafficSignal)
    (rest : list TrafficSignal) :
  signals w = s0 :: s1 :: s2 :: s3 :: rest ->
  update_signal_values w
  = Some (set_signals w
            (update_signal w s0 0 :: update_signal w s1 1
             :: update_signal w s2 2 :: update_signal w s3 3 :: rest)).
Proof.
  intros E. destruct w. simpl in E. subst. reflexivity.
Qed.

Lemma update_signal_values_short (w : World) :
  (length (signals w) < NO_OF_SIGNALS)%nat -> update_signal_values w = None.
Proof.
  intros H. destruct w as [v c s t g yl lg wt]. simpl in H.
  destruct s as [| s0 [| s1 [| s2 [| s3 rest]]]]; try reflexivity.
  simpl in H. unfold NO_OF_SIGNALS in H. lia.
Qed.

Lemma four_or_more {A : Type} (l : list A) :
  (NO_OF_SIGNALS <= length l)%nat ->
  exists a b c d rest, l = a :: b :: c :: d :: rest.
Proof.
  unfold NO_OF_SIGNALS.
  destruct l as [| a [| b [| c [| d rest]]]]; simpl; try lia.
  intros _. now exists a, b, c, d, rest.
Qed.

Lemma update_signal_max (w : World) (s : TrafficSignal) (i : nat) :
  update_signal w s i
  = if (i =? current_green w)%nat then
      if (current_yellow w =? 0)%Z
      then mkSignal (red s) (yellow s) (green s - 1) (minimum s)
             (maximum s) (total_green_time s + 1)
      else set_yellow s (yellow s - 1)
    else set_red s (Z.max 0 (red s - 1)).
Proof.
  unfold update_signal.
  destruct (i =? current_green w)%nat; [reflexivity |].
  destruct (Z.ltb_spec (red s - 1) 0); f_equal; lia.
Qed.

(** X1.  One pass of [update_signal_values].  With fewer than four
    signals it raises.  Otherwise the signal that holds green loses one
    second of green and gains one of total green time, or loses one second
    of yellow during the yellow phase; the red counter of every other one
    of the four signals goes down by one but not below 0; further signals
    and the rest of the world are left as they are. *)
Theorem timer_tick_effect (w : World) :
  if (length (signals w) <? NO_OF_SIGNALS)%nat
  then update_signal_values w = None
  else
    exists w',
      update_signal_values w = Some w' /\
      (forall i s, nth_error (signals w) i = Some s ->
         nth_error (signals w') i
         = Some
             (if (i <? NO_OF_SIGNALS)%nat then
                if (i =? current_green w)%nat then
                  if (current_yellow w =? 0)%Z
                  then mkSignal (red s) (yellow s) (green s - 1) (minimum s)
                         (maximum s) (total_green_time s + 1)
                  else set_yellow s (yellow s - 1)
                else set_red s (Z.max 0 (red s - 1))
              else s)) /\
      length (signals w') = length (signals w) /\
      vehicles w' = vehicles w /\ crossed_count w' = crossed_count w /\
      time_elapsed w' = time_elapsed w /\
      current_green w' = current_green w /\
      current_yellow w' = current_yellow w /\
      lane_last_green_time w' = lane_last_green_time w /\
      waiting_times w' = waiting_times w.
Proof.
  destruct (Nat.ltb_spec (length (signals w)) NO_OF_SIGNALS) as [H | H].
  - now apply update_signal_values_short.
  - destruct (four_or_more _ H) as (s0 & s1 & s2 & s3 & rest & E).
    eexists. split; [exact (update_signal_values_four w _ _ _ _ _ E) |].
    split.
    + intros i s Hi. rewrite E in Hi. cbn [signals set_signals].
      destruct i as [| [| [| [| i]]]]; cbn in Hi |- *;
        try (injection Hi as <-; rewrite update_signal_max; reflexivity).
      exact Hi.
    + rewrite E. repeat split; reflexivity.
Qed.

(** ** Length of the green and yellow phases *)

Lemma four_exactly {A : Type} (l : list A) :
  length l = NO_OF_SIGNALS -> exists a b c d, l = [a; b; c; d].
Proof.
  unfold NO_OF_SIGNALS.
  destruct l as [| a [| b [| c [| d [| e rest]]]]]; simpl; try lia.
  intros _. now exists a, b, c, d.
Qed.

Lemma run_cycle_add (fl : Q -> Q) (n m : nat) :
  forall ph lo w,
    run_cycle fl (n + m) ph lo w
    = match run_cycle fl n ph lo w with
      | Some (ph', lo', w') => run_cycle fl m ph' lo' w'
      | None => None
      end.
Proof.
  induction n as [| n IH]; intros ph lo w; simpl; [reflexivity |].
  destruct (repeat_signal_cycle fl ph lo w) as [[[ph' lo'] w'] |];
    [apply IH | reflexivity].
Qed.

Arguments lookahead_green_time : simpl never.
Arguments update_signal : simpl never.

Lemma counted_down_trans (a b : Z) (w w1 w2 : World) :
  (0 <= b)%Z ->
  counted_down a w w1 -> counted_down b w1 w2 -> counted_down (a + b) w w2.
Proof.
  intros Hb (H4 & Hg & Hy & Hv & Hc & Ht & Hl & Hw & Ho)
    (H4' & Hg' & Hy' & Hv' & Hc' & Ht' & Hl' & Hw' & Ho').
  unfold counted_down. repeat split; try congruence; try apply H4'.
  intros j s Hj Hs.
  destruct (Ho j s Hj Hs) as (s1 & E1 & R1 & Y1 & T1 & N1 & G1).
  destruct (Ho' j s1 ltac:(congruence) E1)
    as (s2 & E2 & R2 & Y2 & T2 & N2 & G2).
  assert (Hn : next_signal w1 = next_signal w)
    by (unfold next_signal; congruence).
  exists s2. split; [exact E2 |]. split; [lia |].
  split; [congruence |]. split; [congruence |]. split.
  - intros Hj'. rewrite N2, N1; congruence.
  - destruct G2 as [G2 | G2]; [rewrite G2; exact G1 | now right].
Qed.

Lemma lookahead_green_time_bounds (w : World) :
  (DEFAULT_MINIMUM <= lookahead_green_time w <= DEFAULT_MAXIMUM)%Z.
Proof.
  unfold lookahead_green_time, DEFAULT_MINIMUM, DEFAULT_MAXIMUM. lia.
Qed.

Lemma update_signal_values_ticked (w : World) :
  four_signals w ->
  exists w', update_signal_values w = Some w' /\ counted_down 1 w w' /\
    forall s, nth_error (signals w) (current_green w) = Some s ->
      nth_error (signals w') (current_green w)
      = Some (update_signal w s (current_green w)).
Proof.
  intros (Hs & Hl & Hg).
  destruct (four_exactly _ Hs) as (s0 & s1 & s2 & s3 & E).
  eexists. split; [exact (update_signal_values_four w _ _ _ _ _ E) |].
  unfold counted_down, four_signals. cbn [signals set_signals current_green
    current_yellow vehicles crossed_count time_elapsed lane_last_green_time
    waiting_times length].
  rewrite E.
  repeat split; try assumption.
  - intros j s Hj Hn.
    destruct j as [| [| [| [| j]]]]; cbn in Hn |- *;
      try (destruct j; discriminate);
      injection Hn as <-; eexists; (split; [reflexivity |]);
      rewrite update_signal_max;
      match goal with
      | |- context [(?a =? ?b)%nat] =>
          destruct (Nat.eqb_spec a b) as [Heq | _]; [congruence |]
      end; cbn; auto 10.
  - intros s Hc. unfold NO_OF_SIGNALS in Hg.
    destruct (current_green w) as [| [| [| [| c]]]]; cbn in Hc |- *;
      try lia; injection Hc as <-; reflexivity.
Qed.

Lemma next_signal_other (w : World) : next_signal w <> current_green w.
Proof.
  unfold next_signal, NO_OF_SIGNALS.
  pose proof (Nat.mod_upper_bound (current_green w + 1) 4 ltac:(discriminate))
    as B.
  destruct (Nat.lt_ge_cases (current_green w) 4) as [L | G]; [| lia].
  clear B.
  destruct (current_green w) as [| [| [| [| c]]]]; cbn; try discriminate.
  lia.
Qed.

Lemma green_round_ticked (w : World) :
  four_signals w ->
  exists w', green_round w = Some w' /\ counted_down 1 w w' /\
    forall s, nth_error (signals w) (current_green w) = Some s ->
      nth_error (signals w') (current_green w)
      = Some (update_signal w s (current_green w)).
Proof.
  intros H4.
  destruct (update_signal_values_ticked w H4) as (w1 & E1 & C1 & Hcur).
  pose proof C1 as (H41 & Hg & Hy & Hv & Hc & Ht & Hl & Hw & Hoth).
  unfold green_round. rewrite E1. cbn [bind].
  assert (Hnext : (next_signal w1 < length (signals w1))%nat).
  { destruct H41 as (-> & _ & _). unfold next_signal, NO_OF_SIGNALS.
    apply Nat.mod_upper_bound. discriminate. }
  assert (Hne : next_signal w1 <> current_green w).
  { rewrite <- Hg. apply next_signal_other. }
  destruct (nth_error_some_of_lt _ _ Hnext) as (sn & En). rewrite En.
  destruct (red sn =? DETECTION_TIME)%Z.
  - unfold calculate_green_time, modify_signal. rewrite En.
    eexists. split; [reflexivity |].
    unfold counted_down, four_signals.
    cbn [signals set_signals current_green current_yellow vehicles
         crossed_count time_elapsed lane_last_green_time waiting_times].
    rewrite length_replace_at.
    repeat split; try tauto; try (apply H41).
    + intros j s Hj Hs.
      destruct (Hoth j s Hj Hs) as (s' & Es' & R & Y & T & N & G).
      assert (Hn : next_signal w1 = next_signal w)
        by (unfold next_signal; congruence).
      destruct (Nat.eq_dec (next_signal w1) j) as [<- | Hd].
      * rewrite (nth_error_replace_at_eq _ _ _ _ En).
        eexists. split; [reflexivity |].
        rewrite En in Es'. injection Es' as ->.
        cbn [red yellow green total_green_time set_green].
        repeat split; try assumption; [congruence |].
        right. apply lookahead_green_time_bounds.
      * rewrite nth_error_replace_at_neq by exact Hd. eauto 10.
    + intros s Hs. rewrite nth_error_replace_at_neq by exact Hne.
      now apply Hcur.
  - exists w1. repeat split; try tauto; apply H41.
Qed.

Lemma green_rounds (fl : Q -> Q) (lo : Locals) (n : nat) :
  forall w s,
    four_signals w -> current_yellow w = 0%Z ->
    nth_error (signals w) (current_green w) = Some s ->
    (Z.of_nat (S n) <= green s)%Z ->
    exists w1,
      run_cycle fl (S n) Green lo w = Some (Green, lo, w1) /\
      counted_down (Z.of_nat (S n)) w w1 /\
      nth_error (signals w1) (current_green w)
      = Some (mkSignal (red s) (yellow s) (green s - Z.of_nat (S n))
                (minimum s) (maximum s)
                (total_green_time s + Z.of_nat (S n))).
Proof.
  induction n as [| n IH]; intros w s H4 Hy Hs Hg.
  - destruct (green_round_ticked w H4) as (w1 & E1 & C1 & Hcur).
    exists w1. cbn [run_cycle repeat_signal_cycle]. rewrite Hs.
    destruct (Z.gtb_spec (green s) 0) as [_ | F]; [| lia].
    rewrite E1. cbn [bind]. split; [reflexivity |]. split; [exact C1 |].
    rewrite (Hcur s Hs). unfold update_signal.
    rewrite Nat.eqb_refl, Hy. reflexivity.
  - destruct (green_round_ticked w H4) as (w1 & E1 & C1 & Hcur).
    pose proof C1 as (H41 & Hg1 & Hy1 & _).
    specialize (Hcur s Hs). unfold update_signal in Hcur.
    rewrite Nat.eqb_refl, Hy in Hcur. cbn [Z.eqb] in Hcur.
    rewrite <- Hg1 in Hcur.
    destruct (IH w1 _ H41 ltac:(congruence) Hcur) as (w2 & E2 & C2 & S2).
    { cbn [green]. lia. }
    exists w2. split; [| split].
    + change (run_cycle fl (S (S n)) Green lo w)
        with (match repeat_signal_cycle fl Green lo w with
              | Some (ph', locals', w') => run_cycle fl (S n) ph' locals' w'
              | None => None
              end).
      cbn [repeat_signal_cycle]. rewrite Hs.
      destruct (Z.gtb_spec (green s) 0) as [_ | F]; [| lia].
      rewrite E1. cbn [bind]. exact E2.
    + replace (Z.of_nat (S (S n))) with (1 + Z.of_nat (S n))%Z by lia.
      eapply counted_down_trans; eauto. lia.
    + rewrite <- Hg1, S2. cbn [red yellow green minimum maximum
        total_green_time]. f_equal. f_equal; lia.
Qed.

(** X2.  Length of the green phase.  With the four signals in place and
    a positive green counter [g] on the active signal, the scheduler on its
    own stays in the green loop for exactly [g] rounds: after [k <= g]
    rounds the counter shows [g - k] and the total green time has grown by
    [k], the other signals have counted their red down by [k] (not below
    0), and the step after round [g] enters the yellow phase. *)
Theorem green_phase_length (fl : Q -> Q) (lo : Locals) (w : World)
    (s : TrafficSignal)
    (H4 : four_signals w)
    (Hy : current_yellow w = 0%Z)
    (Hs : nth_error (signals w) (current_green w) = Some s)
    (Hg : (0 < green s)%Z) :
  (forall k, (0 < k <= green s)%Z ->
     exists wk,
       run_cycle fl (Z.to_nat k) Green lo w = Some (Green, lo, wk) /\
       counted_down k w wk /\
       nth_error (signals wk) (current_green w)
       = Some (mkSignal (red s) (yellow s) (green s - k) (minimum s)
                 (maximum s) (total_green_time s + k))) /\
  exists w1,
    run_cycle fl (Z.to_nat (green s)) Green lo w = Some (Green, lo, w1) /\
    run_cycle fl (S (Z.to_nat (green s))) Green lo w
    = Some (Yellow, lo, enter_yellow w1).
Proof.
  assert (R : forall k, (0 < k <= green s)%Z ->
     exists wk,
       run_cycle fl (Z.to_nat k) Green lo w = Some (Green, lo, wk) /\
       counted_down k w wk /\
       nth_error (signals wk) (current_green w)
       = Some (mkSignal (red s) (yellow s) (green s - k) (minimum s)
                 (maximum s) (total_green_time s + k))).
  { intros k Hk.
    destruct (green_rounds fl lo (Z.to_nat k - 1) w s H4 Hy Hs)
      as (wk & E & C & S1); [lia |].
    replace (S (Z.to_nat k - 1)) with (Z.to_nat k) in * by lia.
    rewrite Z2Nat.id in * by lia. eauto. }
  split; [exact R |].
  destruct (R (green s) ltac:(lia)) as (w1 & E & C & S1).
  exists w1. split; [exact E |].
  replace (S (Z.to_nat (green s))) with (Z.to_nat (green s) + 1)%nat by lia.
  rewrite run_cycle_add, E. cbn [run_cycle repeat_signal_cycle].
  destruct C as (_ & -> & _). rewrite S1. cbn [green].
  replace (green s - green s)%Z with 0%Z by lia. reflexivity.
Qed.

Lemma green_phase_length_witness :
  four_signals initial_world /\
  current_yellow initial_world = 0%Z /\
  nth_error (signals initial_world) (current_green initial_world)
    = Some (mkSignal 0 5 20 10 60 0) /\
  (0 < green (mkSignal 0 5 20 10 60 0))%Z /\
  (forall k, (0 < k <= 20)%Z ->
     exists wk,
       run_cycle exact (Z.to_nat k) Green None initial_world
         = Some (Green, None, wk) /\
       counted_down k initial_world wk /\
       nth_error (signals wk) (current_green initial_world)
       = Some (mkSignal 0 5 (20 - k) 10 60 (0 + k))) /\
  exists w1,
    run_cycle exact 20 Green None initial_world = Some (Green, None, w1) /\
    run_cycle exact 21 Green None initial_world
    = Some (Yellow, None, enter_yellow w1).
Proof.
  assert (H4 : four_signals initial_world)
    by (repeat split; unfold NO_OF_SIGNALS; simpl; lia).
  assert (Hs : nth_error (signals initial_world)
                 (current_green initial_world)
               = Some (mkSignal 0 5 20 10 60 0)) by reflexivity.
  assert (Hg : (0 < green (mkSignal 0 5 20 10 60 0))%Z) by (simpl; lia).
  split; [exact H4 |]. split; [reflexivity |]. split; [exact Hs |].
  split; [exact Hg |].
  exact (green_phase_length exact None initial_world _ H4 eq_refl Hs Hg).
Defined.

Lemma yellow_rounds (fl : Q -> Q) (lo : Locals) (n : nat) :
  forall w s,
    four_signals w -> current_yellow w <> 0%Z ->
    nth_error (signals w) (current_green w) = Some s ->
    (Z.of_nat (S n) <= yellow s)%Z ->
    exists w1,
      run_cycle fl (S n) Yellow lo w = Some (Yellow, lo, w1) /\
      counted_down (Z.of_nat (S n)) w w1 /\
      nth_error (signals w1) (current_green w)
      = Some (set_yellow s (yellow s - Z.of_nat (S n))).
Proof.
  induction n as [| n IH]; intros w s H4 Hy Hs Hg.
  - destruct (update_signal_values_ticked w H4) as (w1 & E1 & C1 & Hcur).
    exists w1. cbn [run_cycle repeat_signal_cycle]. rewrite Hs.
    destruct (Z.gtb_spec (yellow s) 0) as [_ | F]; [| lia].
    rewrite E1. cbn [bind]. split; [reflexivity |]. split; [exact C1 |].
    rewrite (Hcur s Hs). unfold update_signal.
    rewrite Nat.eqb_refl.
    destruct (Z.eqb_spec (current_yellow w) 0); [contradiction | reflexivity].
  - destruct (update_signal_values_ticked w H4) as (w1 & E1 & C1 & Hcur).
    pose proof C1 as (H41 & Hg1 & Hy1 & _).
    specialize (Hcur s Hs). unfold update_signal in Hcur.
    rewrite Nat.eqb_refl in Hcur.
    destruct (Z.eqb_spec (current_yellow w) 0) as [| _]; [contradiction |].
    rewrite <- Hg1 in Hcur.
    destruct (IH w1 _ H41 ltac:(congruence) Hcur) as (w2 & E2 & C2 & S2).
    { cbn [yellow set_yellow]. lia. }
    exists w2. split; [| split].
    + change (run_cycle fl (S (S n)) Yellow lo w)
        with (match repeat_signal_cycle fl Yellow lo w with
              | Some (ph', locals', w') => run_cycle fl (S n) ph' locals' w'
              | None => None
              end).
      cbn [repeat_signal_cycle]. rewrite Hs.
      destruct (Z.gtb_spec (yellow s) 0) as [_ | F]; [| lia].
      rewrite E1. cbn [bind]. exact E2.
    + replace (Z.of_nat (S (S n))) with (1 + Z.of_nat (S n))%Z by lia.
      eapply counted_down_trans; eauto. lia.
    + rewrite <- Hg1, S2. unfold set_yellow.
      cbn [red yellow green minimum maximum total_green_time].
      f_equal. f_equal; lia.
Qed.

(** X3.  Length of the yellow phase.  With the four signals in place,
    the yellow flag set and a positive yellow counter [y] on the active
    signal, the scheduler on its own stays in the yellow loop for exactly
    [y] rounds, the counter showing [y - k] after [k] of them; the step
    after that ends the cycle: the flag is cleared, the yellow counter of
    the signal is back at [DEFAULT_YELLOW] and its red counter at
    [DEFAULT_RED], the other signals have counted their red down by [y]
    (not below 0), and the vehicles, the clock and the ticks of last
    service are as they were. *)
Theorem yellow_phase_length (fl : Q -> Q) (lo : Locals) (w : World)
    (s : TrafficSignal)
    (H4 : four_signals w)
    (Hy : current_yellow w <> 0%Z)
    (Hs : nth_error (signals w) (current_green w) = Some s)
    (Hg : (0 < yellow s)%Z) :
  (forall k, (0 < k <= yellow s)%Z ->
     exists wk,
       run_cycle fl (Z.to_nat k) Yellow lo w = Some (Yellow, lo, wk) /\
       counted_down k w wk /\
       nth_error (signals wk) (current_green w)
       = Some (set_yellow s (yellow s - k))) /\
  exists w2,
    run_cycle fl (S (Z.to_nat (yellow s))) Yellow lo w
    = Some (Selecting, lo, w2) /\
    current_yellow w2 = 0%Z /\ current_green w2 = current_green w /\
    nth_error (signals w2) (current_green w)
    = Some (mkSignal DEFAULT_RED DEFAULT_YELLOW (green s) (minimum s)
              (maximum s) (total_green_time s)) /\
    (forall j sj, j <> current_green w ->
       nth_error (signals w) j = Some sj ->
       exists sj', nth_error (signals w2) j = Some sj' /\
                   red sj' = Z.max 0 (red sj - yellow s) /\
                   yellow sj' = yellow sj) /\
    vehicles w2 = vehicles w /\ time_elapsed w2 = time_elapsed w /\
    lane_last_green_time w2 = lane_last_green_time w /\
    crossed_count w2 = crossed_count w /\ waiting_times w2 = waiting_times w.
Proof.
  assert (R : forall k, (0 < k <= yellow s)%Z ->
     exists wk,
       run_cycle fl (Z.to_nat k) Yellow lo w = Some (Yellow, lo, wk) /\
       counted_down k w wk /\
       nth_error (signals wk) (current_green w)
       = Some (set_yellow s (yellow s - k))).
  { intros k Hk.
    destruct (yellow_rounds fl lo (Z.to_nat k - 1) w s H4 Hy Hs)
      as (wk & E & C & S1); [lia |].
    replace (S (Z.to_nat k - 1)) with (Z.to_nat k) in * by lia.
    rewrite Z2Nat.id in * by lia. eauto. }
  split; [exact R |].
  destruct (R (yellow s) ltac:(lia)) as (w1 & E & C & S1).
  destruct C as (H41 & Hg1 & Hy1 & Hv & Hc & Ht & Hl & Hw & Ho).
  replace (S (Z.to_nat (yellow s))) with (Z.to_nat (yellow s) + 1)%nat by lia.
  rewrite run_cycle_add, E. cbn [run_cycle repeat_signal_cycle].
  rewrite Hg1, S1. cbn [yellow set_yellow].
  replace (yellow s - yellow s)%Z with 0%Z by lia. cbn [Z.gtb Z.compare].
  unfold leave_yellow, modify_signal.
  cbn [signals set_current_yellow current_green]. rewrite Hg1, S1.
  cbn [bind signals set_signals current_green].
  cbn [current_green set_current_yellow]. rewrite Hg1.
  rewrite (nth_error_replace_at_eq _ _ _ _ S1).
  eexists. split; [reflexivity |].
  cbn [signals set_signals current_green current_yellow vehicles
       crossed_count time_elapsed lane_last_green_time waiting_times
       set_current_yellow].
  repeat split; try assumption.
  - erewrite nth_error_replace_at_eq; [reflexivity |].
    apply (nth_error_replace_at_eq _ _ _ _ S1).
  - intros j sj Hj Hsj.
    destruct (Ho j sj Hj Hsj) as (s' & Es' & R1 & Y1 & _).
    exists s'. rewrite !nth_error_replace_at_neq by congruence. auto.
Qed.

(** The first approach in its yellow phase. *)
Lemma yellow_phase_length_witness :
  four_signals (enter_yellow green_elapsed_world) /\
  current_yellow (enter_yellow green_elapsed_world) <> 0%Z /\
  nth_error (signals (enter_yellow green_elapsed_world))
    (current_green (enter_yellow green_elapsed_world))
    = Some (mkSignal 150 5 0 10 60 20) /\
  (0 < yellow (mkSignal 150 5 0 10 60 20))%Z /\
  exists w2,
    run_cycle exact 6 Yellow (Some (2, 20)%Z) (enter_yellow green_elapsed_world)
    = Some (Selecting, Some (2, 20)%Z, w2) /\
    current_yellow w2 = 0%Z /\
    nth_error (signals w2) 0
    = Some (mkSignal DEFAULT_RED DEFAULT_YELLOW 0 10 60 20).
Proof.
  assert (H4 : four_signals (enter_yellow green_elapsed_world))
    by (repeat split; unfold NO_OF_SIGNALS; simpl; lia).
  assert (Hy : current_yellow (enter_yellow green_elapsed_world) <> 0%Z)
    by (simpl; lia).
  assert (Hs : nth_error (signals (enter_yellow green_elapsed_world))
                 (current_green (enter_yellow green_elapsed_world))
               = Some (mkSignal 150 5 0 10 60 20)) by reflexivity.
  assert (Hg : (0 < yellow (mkSignal 150 5 0 10 60 20))%Z) by (simpl; lia).
  split; [exact H4 |]. split; [exact Hy |]. split; [exact Hs |].
  split; [exact Hg |].
  destruct (yellow_phase_length exact (Some (2, 20)%Z) _ _ H4 Hy Hs Hg)
    as (_ & w2 & E & Y & _ & S2 & _).
  exists w2. split; [exact E |]. split; [exact Y | exact S2].
Defined.

(** ** Start of a green phase *)

Lemma nth_replace_at_same (l : list Z) (i : nat) (a : Z) :
  (i < length l)%nat -> nth i (replace_at i a l) 0%Z = a.
Proof.
  revert i. induction l as [| h t IH]; intros [| i] H; simpl in *;
    try lia; try reflexivity.
  apply IH. lia.
Qed.

Lemma nth_replace_at_other (l : list Z) (i j : nat) (a : Z) :
  i <> j -> nth j (replace_at i a l) 0%Z = nth j l 0%Z.
Proof.
  revert i j. induction l as [| h t IH]; intros [| i] [| j] H; simpl;
    try reflexivity; try congruence.
  apply IH. congruence.
Qed.

Lemma replace_at_twice {A : Type} (l : list A) (i : nat) (a b : A) :
  replace_at i a (replace_at i b l) = replace_at i a l.
Proof.
  revert i. induction l as [| h t IH]; intros [| i]; simpl; try reflexivity.
  now rewrite IH.
Qed.

(** The world [start_green] returns, when it returns one. *)
Lemma start_green_value (w : World) (i : nat) (m : Z * Z) (s : TrafficSignal)
    (t : Z) :
  nth_error (signals w) i = Some s ->
  nth_error (lane_last_green_time w) i = Some t ->
  start_green w i (Some m)
  = Some (mkWorld (vehicles w) (crossed_count w)
            (replace_at i
               (mkSignal DEFAULT_RED (yellow s)
                  (nonlinear_green_time (waiting_count w (DIRECTIONS i)))
                  (minimum s) (maximum s) (total_green_time s))
               (signals w))
            (time_elapsed w) i (current_yellow w)
            (replace_at i (time_elapsed w) (lane_last_green_time w))
            (waiting_times w)).
Proof.
  intros Hs Ht. unfold start_green, modify_signal, set_last_green.
  rewrite Hs. cbn [bind set_current_green set_signals current_green
    lane_last_green_time time_elapsed]. rewrite Ht.
  cbn [bind vehicles crossed_count signals time_elapsed current_green
    current_yellow lane_last_green_time waiting_times set_current_green
    set_signals].
  rewrite (nth_error_replace_at_eq _ _ _ _ Hs).
  unfold waiting_count, approach_vehicles.
  cbn [vehicles crossed_count signals time_elapsed current_green
    current_yellow lane_last_green_time waiting_times set_green set_red
    red yellow green minimum maximum total_green_time].
  rewrite replace_at_twice. reflexivity.
Qed.

(** X4.  The bookkeeping at the start of a green phase.  [start_green]
    raises exactly when the selected index has no signal or no tick of last
    service, or when the locals read by its print are unbound.  Otherwise
    the selected approach becomes the active one, its red counter is set to
    [DEFAULT_RED] and its green counter to the time sized from its waiting
    count, its waiting time is reset to 0, and every other signal, every
    other waiting time, the yellow flag, the vehicles, the clock and the
    crossing metrics stay as they were. *)
Theorem start_green_bookkeeping (w : World) (i : nat) (lo : Locals) :
  (start_green w i lo = None <->
   (length (signals w) <= i)%nat \/
   (length (lane_last_green_time w) <= i)%nat \/ lo = None) /\
  forall w', start_green w i lo = Some w' ->
    current_green w' = i /\ current_yellow w' = current_yellow w /\
    lane_waiting_time w' i = 0%Z /\
    (forall j, j <> i -> lane_waiting_time w' j = lane_waiting_time w j) /\
    (forall s, nth_error (signals w) i = Some s ->
       nth_error (signals w') i
       = Some (mkSignal DEFAULT_RED (yellow s)
                 (nonlinear_green_time (waiting_count w (DIRECTIONS i)))
                 (minimum s) (maximum s) (total_green_time s))) /\
    (forall j, j <> i -> nth_error (signals w') j = nth_error (signals w) j) /\
    vehicles w' = vehicles w /\ time_elapsed w' = time_elapsed w /\
    crossed_count w' = crossed_count w /\ waiting_times w' = waiting_times w.
Proof.
  destruct (nth_error (signals w) i) as [s |] eqn:Hs.
  2:{ assert (E : start_green w i lo = None)
        by (unfold start_green, modify_signal; rewrite Hs; reflexivity).
      rewrite E. split; [| discriminate].
      split; [| reflexivity]. intros _. left. now apply nth_error_None. }
  destruct (nth_error (lane_last_green_time w) i) as [t |] eqn:Ht.
  2:{ assert (E : start_green w i lo = None).
      { unfold start_green, modify_signal, set_last_green. rewrite Hs.
        cbn [bind set_current_green set_signals current_green
          lane_last_green_time time_elapsed]. rewrite Ht. reflexivity. }
      rewrite E. split; [| discriminate].
      split; [| reflexivity]. intros _. right. left.
      now apply nth_error_None. }
  assert (Ls : (i < length (signals w))%nat)
    by (apply nth_error_Some; congruence).
  assert (Lt : (i < length (lane_last_green_time w))%nat)
    by (apply nth_error_Some; congruence).
  destruct lo as [m |].
  2:{ assert (E : start_green w i None = None).
      { unfold start_green, modify_signal, set_last_green. rewrite Hs.
        cbn [bind set_current_green set_signals current_green
          lane_last_green_time time_elapsed]. rewrite Ht. reflexivity. }
      rewrite E. split; [| discriminate].
      split; [| reflexivity]. intros _. right. right. reflexivity. }
  rewrite (start_green_value w i m s t Hs Ht). split.
  - split; [discriminate |]. intros [H | [H | H]]; try lia. discriminate.
  - intros w' [= <-]. unfold lane_waiting_time.
    cbn [vehicles crossed_count signals time_elapsed current_green
         current_yellow lane_last_green_time waiting_times].
    repeat split.
    + rewrite nth_replace_at_same by exact Lt. lia.
    + intros j Hj. rewrite nth_replace_at_other by congruence. reflexivity.
    + intros s' [= <-]. apply (nth_error_replace_at_eq _ _ _ _ Hs).
    + intros j Hj. apply nth_error_replace_at_neq. congruence.
Qed.

(** X5.  The estimate of the detection thread does not outlive the next
    selection.  Whatever green time [calculate_green_time] has stored for
    the next signal, starting the green phase of that signal gives the very
    world it would have given without the estimate. *)
Theorem lookahead_overwritten_at_selection (w w1 : World) (lo : Locals)
    (H : calculate_green_time w = Some w1) :
  start_green w1 (next_signal w) lo = start_green w (next_signal w) lo.
Proof.
  unfold calculate_green_time, modify_signal in H.
  destruct (nth_error (signals w) (next_signal w)) as [s |] eqn:Hs;
    [| discriminate].
  injection H as <-.
  set (i := next_signal w) in *.
  set (w1 := set_signals w _).
  assert (Hs1 : nth_error (signals w1) i
                = Some (set_green s (lookahead_green_time w)))
    by apply (nth_error_replace_at_eq _ _ _ _ Hs).
  destruct lo as [m |].
  - destruct (nth_error (lane_last_green_time w) i) as [t |] eqn:Ht.
    + rewrite (start_green_value w i m s t Hs Ht).
      rewrite (start_green_value w1 i m _ t Hs1 Ht).
      unfold w1. cbn [vehicles crossed_count signals time_elapsed
        current_green current_yellow lane_last_green_time waiting_times
        set_signals yellow minimum maximum total_green_time set_green].
      rewrite replace_at_twice. reflexivity.
    + unfold start_green, modify_signal, set_last_green.
      rewrite Hs, Hs1.
      cbn [bind set_current_green set_signals current_green
        lane_last_green_time time_elapsed w1].
      rewrite Ht. reflexivity.
  - unfold start_green, modify_signal, set_last_green.
    rewrite Hs, Hs1.
    cbn [bind set_current_green set_signals current_green
      lane_last_green_time time_elapsed w1].
    destruct (nth_error (lane_last_green_time w) i); reflexivity.
Qed.

Lemma lookahead_overwritten_at_selection_witness :
  exists w1,
    calculate_green_time buses_and_emergency_world = Some w1 /\
    start_green w1 (next_signal buses_and_emergency_world) (Some (1, 1)%Z)
    = start_green buses_and_emergency_world
        (next_signal buses_and_emergency_world) (Some (1, 1)%Z).
Proof.
  eexists. split; [reflexivity |].
  apply (lookahead_overwritten_at_selection buses_and_emergency_world).
  reflexivity.
Defined.

(** ** Emergency override *)

(** X6.  The emergency override.  As soon as an emergency vehicle that
    has not crossed is on one of the four approaches, the selection returns
    an approach that holds such a vehicle, whatever the priorities of the
    approaches are: one whose arrival estimate is the least of all waiting
    emergency vehicles.  The locals of the normal branch are left as they
    were. *)
Theorem emergency_override_selection (fl : Q -> Q) (w : World) (lo : Locals)
    (i : nat) (v : Vehicle)
    (Hi : (i < NO_OF_SIGNALS)%nat)
    (Hv : In v (approach_vehicles w (DIRECTIONS i)))
    (He : is_waiting_emergency v = true) :
  exists lane e,
    selection fl w lo = Some (lane, lo) /\ (lane < NO_OF_SIGNALS)%nat /\
    In e (approach_vehicles w (DIRECTIONS lane)) /\
    is_waiting_emergency e = true /\
    forall j u, (j < NO_OF_SIGNALS)%nat ->
      In u (approach_vehicles w (DIRECTIONS j)) ->
      is_waiting_emergency u = true ->
      arrival_estimate (DIRECTIONS lane) e
      <= arrival_estimate (DIRECTIONS j) u.
Proof.
  destruct (emergency_override_fires w i v Hi Hv He) as (t & lane & E).
  destruct (emergency_scan_minimal fl w t lane E)
    as (_ & Hl & (e & He1 & He2 & He3) & Hmin).
  exists lane, e. unfold selection. rewrite E. cbn [snd].
  repeat split; try assumption.
  intros j u Hj Hu Hw. rewrite He3. now apply Hmin.
Qed.

Lemma emergency_override_selection_witness :
  (0 < NO_OF_SIGNALS)%nat /\
  In far_emergency (approach_vehicles two_emergencies_world (DIRECTIONS 0)) /\
  is_waiting_emergency far_emergency = true /\
  exists lane e,
    selection exact two_emergencies_world (Some (3, 7)%Z)
      = Some (lane, Some (3, 7)%Z) /\
    (lane < NO_OF_SIGNALS)%nat /\
    In e (approach_vehicles two_emergencies_world (DIRECTIONS lane)) /\
    is_waiting_emergency e = true /\
    forall j u, (j < NO_OF_SIGNALS)%nat ->
      In u (approach_vehicles two_emergencies_world (DIRECTIONS j)) ->
      is_waiting_emergency u = true ->
      arrival_estimate (DIRECTIONS lane) e
      <= arrival_estimate (DIRECTIONS j) u.
Proof.
  assert (Hi : (0 < NO_OF_SIGNALS)%nat) by (unfold NO_OF_SIGNALS; lia).
  assert (Hv : In far_emergency
                 (approach_vehicles two_emergencies_world (DIRECTIONS 0)))
    by (simpl; auto).
  split; [exact Hi |]. split; [exact Hv |]. split; [reflexivity |].
  exact (emergency_override_selection exact two_emergencies_world
           (Some (3, 7)%Z) 0 far_emergency Hi Hv eq_refl).
Defined.

Lemma start_green_unbound (w : World) (i : nat) : start_green w i None = None.
Proof.
  unfold start_green, modify_signal, set_last_green.
  destruct (nth_error (signals w) i); [| reflexivity].
  cbn [bind set_current_green set_signals current_green
    lane_last_green_time time_elapsed].
  destruct (nth_error (lane_last_green_time w) i); reflexivity.
Qed.

(** X7.  An override before the first normal selection ends the
    scheduler.  While the locals [max_waiting] and [max_waiting_time] are
    unbound, a waiting emergency vehicle on one of the four approaches makes
    the step that selects raise, at the print that follows the selection:
    no green time is assigned and no green loop starts. *)
Theorem emergency_before_binding_raises (fl : Q -> Q) (w : World)
    (i : nat) (v : Vehicle)
    (Hi : (i < NO_OF_SIGNALS)%nat)
    (Hv : In v (approach_vehicles w (DIRECTIONS i)))
    (He : is_waiting_emergency v = true) :
  repeat_signal_cycle fl Selecting None w = None.
Proof.
  destruct (emergency_override_fires w i v Hi Hv He) as (t & lane & E).
  cbn [repeat_signal_cycle]. unfold selection. rewrite E. cbn [snd].
  rewrite start_green_unbound. reflexivity.
Qed.

(** The first vehicle of a run is an emergency vehicle. *)
Lemma emergency_before_binding_raises_witness :
  (0 < NO_OF_SIGNALS)%nat /\
  In (mkVehicle emergency 0 348 false false false 0 0 0 None
        sample_image sample_image 580)
    (approach_vehicles
       (new_vehicle (fun _ _ => sample_image) initial_world L0 emergency
          DRight false)
       (DIRECTIONS 0)) /\
  repeat_signal_cycle exact Selecting None
    (new_vehicle (fun _ _ => sample_image) initial_world L0 emergency
       DRight false)
  = None.
Proof.
  assert (Hi : (0 < NO_OF_SIGNALS)%nat) by (unfold NO_OF_SIGNALS; lia).
  assert (Hv : In (mkVehicle emergency 0 348 false false false 0 0 0 None
                     sample_image sample_image 580)
                 (approach_vehicles
                    (new_vehicle (fun _ _ => sample_image) initial_world L0
                       emergency DRight false)
                    (DIRECTIONS 0)))
    by (left; reflexivity).
  split; [exact Hi |]. split; [exact Hv |].
  exact (emergency_before_binding_raises exact _ 0 _ Hi Hv eq_refl).
Defined.

(** ** The signal store in the running system *)

Lemma nth_error_replace_at_cases {A : Type} (l : list A) (i j : nat)
    (a b : A) :
  nth_error (replace_at i a l) j = Some b -> b = a \/ nth_error l j = Some b.
Proof.
  intros H. destruct (Nat.eq_dec i j) as [<- | Hd].
  - destruct (nth_error l i) as [c |] eqn:E.
    + rewrite (nth_error_replace_at_eq _ _ _ _ E) in H. left. congruence.
    + apply nth_error_None in E.
      assert (L : (length (replace_at i a l) <= i)%nat)
        by (rewrite length_replace_at; exact E).
      apply nth_error_None in L. congruence.
  - rewrite nth_error_replace_at_neq in H by exact Hd. now right.
Qed.

Lemma start_green_inv (w w' : World) (i : nat) (lo : Locals) :
  start_green w i lo = Some w' ->
  exists s t m,
    nth_error (signals w) i = Some s /\
    nth_error (lane_last_green_time w) i = Some t /\ lo = Some m /\
    w' = mkWorld (vehicles w) (crossed_count w)
           (replace_at i
              (mkSignal DEFAULT_RED (yellow s)
                 (nonlinear_green_time (waiting_count w (DIRECTIONS i)))
                 (minimum s) (maximum s) (total_green_time s))
              (signals w))
           (time_elapsed w) i (current_yellow w)
           (replace_at i (time_elapsed w) (lane_last_green_time w))
           (waiting_times w).
Proof.
  intros H.
  destruct lo as [m |]; [| rewrite start_green_unbound in H; discriminate].
  destruct (nth_error (signals w) i) as [s |] eqn:Hs.
  2:{ unfold start_green, modify_signal in H. rewrite Hs in H.
      discriminate. }
  destruct (nth_error (lane_last_green_time w) i) as [t |] eqn:Ht.
  2:{ unfold start_green, modify_signal, set_last_green in H.
      rewrite Hs in H.
      cbn [bind set_current_green set_signals current_green
        lane_last_green_time time_elapsed] in H.
      rewrite Ht in H. discriminate. }
  rewrite (start_green_value w i m s t Hs Ht) in H. injection H as <-.
  now exists s, t, m.
Qed.

Lemma leave_yellow_value (w : World) (s : TrafficSignal) :
  nth_error (signals w) (current_green w) = Some s ->
  leave_yellow w
  = Some (mkWorld (vehicles w) (crossed_count w)
            (replace_at (current_green w)
               (mkSignal DEFAULT_RED DEFAULT_YELLOW (green s) (minimum s)
                  (maximum s) (total_green_time s))
               (signals w))
            (time_elapsed w) (current_green w) 0 (lane_last_green_time w)
            (waiting_times w)).
Proof.
  intros Hs. unfold leave_yellow, modify_signal.
  cbn [signals set_current_yellow current_green]. rewrite Hs.
  cbn [bind signals set_signals current_green].
  rewrite (nth_error_replace_at_eq _ _ _ _ Hs).
  rewrite replace_at_twice. reflexivity.
Qed.

Lemma move_signal_frame (tr : Image -> Z -> Image) (w : World)
    (d : Direction) (l : LaneId) (idx : nat) :
  signals (move tr w d l idx) = signals w /\
  time_elapsed (move tr w d l idx) = time_elapsed w /\
  current_green (move tr w d l idx) = current_green w /\
  current_yellow (move tr w d l idx) = current_yellow w /\
  lane_last_green_time (move tr w d l idx) = lane_last_green_time w.
Proof.
  destruct (nth_error (vehicles w d l) idx) as [v |] eqn:E.
  - destruct (move_result tr w d l idx v E)
      as (_ & _ & _ & _ & H1 & H2 & H3 & H4 & H5). auto.
  - unfold move. rewrite E. auto.
Qed.

Lemma in_range_after_tick (w w' : World) :
  four_signals w ->
  (forall i s, nth_error (signals w) i = Some s -> signal_in_range s) ->
  counted_down 1 w w' ->
  (forall s, nth_error (signals w) (current_green w) = Some s ->
     exists s', nth_error (signals w') (current_green w) = Some s' /\
                signal_in_range s') ->
  forall i s, nth_error (signals w') i = Some s -> signal_in_range s.
Proof.
  intros (L4 & _ & _) Hr (H4' & Hg & _ & _ & _ & _ & _ & _ & Ho) Hc i s' Hi.
  assert (Li : (i < length (signals w))%nat).
  { destruct H4' as (L4' & _). rewrite L4, <- L4'. apply nth_error_Some.
    congruence. }
  destruct (nth_error_some_of_lt _ _ Li) as (s & Es).
  destruct (Nat.eq_dec i (current_green w)) as [-> | Hd].
  - destruct (Hc s Es) as (s'' & E'' & R). congruence.
  - destruct (Ho i s Hd Es) as (s'' & E'' & R1 & Y1 & T1 & _ & G1).
    assert (s'' = s') by congruence. subst s''.
    destruct (Hr i s Es) as (Rr & Ry & Rg & Rt).
    unfold signal_in_range, DEFAULT_RED, DEFAULT_YELLOW, DEFAULT_MAXIMUM,
      DEFAULT_MINIMUM in *.
    rewrite R1, Y1, T1. repeat split; try lia;
      destruct G1 as [-> | G1]; lia.
Qed.

Lemma scheduler_invariant_cycle (fl : Q -> Q) (st : System) (ph' : Phase)
    (lo' : Locals) (w' : World) :
  scheduler_invariant st ->
  repeat_signal_cycle fl (phase st) (locals_of st) (world st)
    = Some (ph', lo', w') ->
  scheduler_invariant (mkSystem w' ph' lo').
Proof.
  destruct st as [w ph lo]. unfold scheduler_invariant.
  cbn [world phase locals_of]. intros (H4 & Hr & Hy) H.
  pose proof H4 as (L4 & Ll & Lg).
  destruct ph; cbn [repeat_signal_cycle] in H.
  - (* the selection *)
    destruct (selection fl w lo) as [[lane lo1] |];
      [| injection H as <- <- <-; auto].
    destruct (start_green w lane lo1) as [w1 |] eqn:E; [| discriminate].
    cbn [bind] in H. injection H as <- <- <-.
    destruct (start_green_inv _ _ _ _ E) as (s & t & m & Es & Et & -> & ->).
    unfold four_signals.
    cbn [vehicles crossed_count signals time_elapsed current_green
         current_yellow lane_last_green_time waiting_times].
    rewrite !length_replace_at.
    assert (Hl : (lane < NO_OF_SIGNALS)%nat)
      by (rewrite <- L4; apply nth_error_Some; congruence).
    refine (conj (conj _ (conj _ _)) (conj _ _)); try assumption.
    intros i s' Hi.
    destruct (nth_error_replace_at_cases _ _ _ _ _ Hi) as [-> | Hs'];
      [| exact (Hr i s' Hs')].
    destruct (Hr lane s Es) as (_ & Ry & _ & Rt).
    pose proof (clamp_green_bounds
                  (nonlinear_estimate (waiting_count w (DIRECTIONS lane)))).
    unfold signal_in_range. cbn [red yellow green total_green_time].
    unfold nonlinear_green_time, DEFAULT_RED, DEFAULT_MINIMUM,
      DEFAULT_MAXIMUM in *. repeat split; try lia; apply Ry.
  - (* the green loop *)
    destruct (nth_error (signals w) (current_green w)) as [s |] eqn:Es;
      [| discriminate].
    destruct (Z.gtb_spec (green s) 0) as [Hg | Hg].
    + destruct (green_round_ticked w H4) as (w1 & E1 & C1 & Hcur).
      rewrite E1 in H. cbn [bind] in H. injection H as <- <- <-.
      split; [apply C1 |]. split.
      * apply (in_range_after_tick w w1 H4 Hr C1).
        intros s0 Es0. eexists. split; [apply Hcur; exact Es0 |].
        assert (s0 = s) by congruence. subst s0.
        destruct (Hr _ s Es) as (Rr & Ry & Rg & Rt).
        unfold update_signal. rewrite Nat.eqb_refl, Hy. cbn [Z.eqb].
        unfold signal_in_range. cbn [red yellow green total_green_time].
        repeat split; try lia; try apply Rr; apply Ry.
      * destruct C1 as (_ & _ & -> & _). exact Hy.
    + injection H as <- <- <-.
      unfold four_signals, enter_yellow.
      cbn [vehicles crossed_count signals time_elapsed current_green
           current_yellow lane_last_green_time waiting_times
           set_vehicles set_current_yellow].
      refine (conj (conj _ (conj _ _)) (conj _ _)); try assumption.
      reflexivity.
  - (* the yellow loop *)
    destruct (nth_error (signals w) (current_green w)) as [s |] eqn:Es;
      [| discriminate].
    destruct (Z.gtb_spec (yellow s) 0) as [Hg | Hg].
    + destruct (update_signal_values_ticked w H4) as (w1 & E1 & C1 & Hcur).
      rewrite E1 in H. cbn [bind] in H. injection H as <- <- <-.
      split; [apply C1 |]. split.
      * apply (in_range_after_tick w w1 H4 Hr C1).
        intros s0 Es0. eexists. split; [apply Hcur; exact Es0 |].
        assert (s0 = s) by congruence. subst s0.
        destruct (Hr _ s Es) as (Rr & Ry & Rg & Rt).
        unfold update_signal. rewrite Nat.eqb_refl, Hy. cbn [Z.eqb].
        unfold signal_in_range, set_yellow.
        cbn [red yellow green total_green_time].
        repeat split; try lia; try apply Rr; apply Rg.
      * destruct C1 as (_ & _ & -> & _). exact Hy.
    + rewrite (leave_yellow_value w s Es) in H. cbn [bind] in H.
      injection H as <- <- <-.
      unfold four_signals.
      cbn [vehicles crossed_count signals time_elapsed current_green
           current_yellow lane_last_green_time waiting_times].
      rewrite !length_replace_at.
      refine (conj (conj _ (conj _ _)) (conj _ _)); try assumption;
        [| reflexivity].
      intros i s' Hi.
      destruct (nth_error_replace_at_cases _ _ _ _ _ Hi) as [-> | Hs'];
        [| exact (Hr i s' Hs')].
      destruct (Hr _ s Es) as (_ & _ & Rg & Rt).
      unfold signal_in_range. cbn [red yellow green total_green_time].
      unfold DEFAULT_RED, DEFAULT_YELLOW in *. repeat split; try lia;
        apply Rg.
Qed.

Lemma reachable_scheduler_invariant (tr : Image -> Z -> Image)
    (load_image : Direction -> VClass -> Image) (fl : Q -> Q) (st : System) :
  reachable tr load_image fl st -> scheduler_invariant st.
Proof.
  induction 1 as [| st r _ IH | st _ IH | st d l idx _ IH
                  | st ph' lo' w' _ IH Hc].
  - unfold scheduler_invariant, four_signals, NO_OF_SIGNALS.
    cbn [world phase initial_world signals lane_last_green_time
         current_green current_yellow initial_signals length].
    refine (conj (conj _ (conj _ _)) (conj _ _)); try lia; try reflexivity.
    intros i s Hi.
    destruct i as [| [| [| [| i]]]]; cbn in Hi;
      try (destruct i; discriminate);
      injection Hi as <-; vm_compute; intuition discriminate.
  - exact IH.
  - exact IH.
  - destruct IH as (H4 & Hr & Hy).
    destruct (move_signal_frame tr (world st) d l idx)
      as (E1 & E2 & E3 & E4 & E5).
    unfold scheduler_invariant, four_signals. cbn [world phase].
    rewrite E1, E3, E4, E5.
    refine (conj (conj _ (conj _ _)) (conj _ _)); try apply H4; assumption.
  - exact (scheduler_invariant_cycle fl st ph' lo' w' IH Hc).
Qed.

(** X8.  The signal store of the running system.  In every state the
    threads reach by steps that do not raise there are exactly four
    signals, the active index is one of them, the yellow flag is 1 in the
    yellow loop of the scheduler and 0 elsewhere, and every counter is
    within its range: red between 0 and [DEFAULT_RED], yellow between 0 and
    [DEFAULT_YELLOW], green between 0 and [DEFAULT_MAXIMUM], and a total
    green time that is not negative. *)
Theorem signal_counters_stay_in_range (tr : Image -> Z -> Image)
    (load_image : Direction -> VClass -> Image) (fl : Q -> Q) (st : System)
    (H : reachable tr load_image fl st) :
  length (signals (world st)) = NO_OF_SIGNALS /\
  (current_green (world st) < NO_OF_SIGNALS)%nat /\
  current_yellow (world st)
  = match phase st with Yellow => 1%Z | _ => 0%Z end /\
  forall i s, nth_error (signals (world st)) i = Some s ->
    (0 <= red s <= DEFAULT_RED)%Z /\ (0 <= yellow s <= DEFAULT_YELLOW)%Z /\
    (0 <= green s <= DEFAULT_MAXIMUM)%Z /\ (0 <= total_green_time s)%Z.
Proof.
  destruct (reachable_scheduler_invariant tr load_image fl st H)
    as ((L4 & _ & Lg) & Hr & Hy).
  refine (conj L4 (conj Lg (conj Hy _))).
  intros i s Hi. exact (Hr i s Hi).
Qed.

(** The state after the first tick of the clock. *)
Lemma signal_counters_stay_in_range_witness :
  reachable keep_rect (fun _ _ => sample_image) exact
    (mkSystem (simulation_timer initial_world) Selecting None) /\
  length (signals (simulation_timer initial_world)) = NO_OF_SIGNALS /\
  (current_green (simulation_timer initial_world) < NO_OF_SIGNALS)%nat /\
  current_yellow (simulation_timer initial_world) = 0%Z /\
  forall i s, nth_error (signals (simulation_timer initial_world)) i = Some s ->
    (0 <= red s <= DEFAULT_RED)%Z /\ (0 <= yellow s <= DEFAULT_YELLOW)%Z /\
    (0 <= green s <= DEFAULT_MAXIMUM)%Z /\ (0 <= total_green_time s)%Z.
Proof.
  assert (R : reachable keep_rect (fun _ _ => sample_image) exact
                (mkSystem (simulation_timer initial_world) Selecting None)).
  { exact (reach_timer _ _ _ _ (reach_start _ _ _)). }
  split; [exact R |].
  exact (signal_counters_stay_in_range _ _ _ _ R).
Defined.

Lemma selection_lane (fl : Q -> Q) (w : World) (lo lo1 : Locals)
    (lane : nat) :
  selection fl w lo = Some (lane, lo1) ->
  (lane < NO_OF_SIGNALS)%nat /\
  ((lo1 = lo /\
    exists v, In v (approach_vehicles w (DIRECTIONS lane)) /\
              is_waiting_emergency v = true) \/
   exists m, lo1 = Some m).
Proof.
  unfold selection. intros H.
  pose proof (scan_emergencies_invariant w) as I.
  destruct (scan_emergencies w) as [[t |] [l |]] eqn:E; cbn [snd] in H;
    try contradiction.
  - injection H as <- <-.
    destruct (emergency_scan_minimal fl w t l E)
      as (_ & Hl & (v & Hv & He & _) & _).
    split; [exact Hl |]. left. split; [reflexivity |]. now exists v.
  - destruct (priorities fl w) as [| p rest] eqn:P; [discriminate |].
    injection H as <- <-. split; [| right; eauto].
    assert (Hp : In p (priorities fl w)) by (rewrite P; left; reflexivity).
    unfold priorities in Hp. apply (proj1 (sort_reverse_in _ _)) in Hp.
    apply filter_In in Hp. destruct Hp as (Hp & _).
    apply in_map_iff in Hp. destruct Hp as (i & <- & Hi).
    apply in_seq in Hi. cbn [tuple_lane priority_tuple fst snd]. lia.
Qed.

(** X9.  What can end the scheduler thread.  In every state the threads
    reach by steps that do not raise, the next step of
    [repeat_signal_cycle] raises in one case only: it is at the selection,
    the locals read by the print are still unbound, and an emergency vehicle
    is waiting.  No access to a signal or to a tick of last service is ever
    out of range. *)
Theorem scheduler_raises_only_unbound (tr : Image -> Z -> Image)
    (load_image : Direction -> VClass -> Image) (fl : Q -> Q) (st : System)
    (H : reachable tr load_image fl st) :
  repeat_signal_cycle fl (phase st) (locals_of st) (world st) = None <->
  phase st = Selecting /\ locals_of st = None /\
  exists i v, (i < NO_OF_SIGNALS)%nat /\
              In v (approach_vehicles (world st) (DIRECTIONS i)) /\
              is_waiting_emergency v = true.
Proof.
  destruct (reachable_scheduler_invariant tr load_image fl st H)
    as (H4 & Hr & Hy).
  destruct st as [w ph lo]. cbn [world phase locals_of] in *.
  pose proof H4 as (L4 & Ll & Lg).
  split.
  - intros N. destruct ph; cbn [repeat_signal_cycle] in N.
    + destruct (selection fl w lo) as [[lane lo1] |] eqn:S; [| discriminate].
      destruct (selection_lane fl w lo lo1 lane S) as (Hl & Hc).
      destruct (nth_error_some_of_lt (signals w) lane ltac:(lia)) as (s & Es).
      destruct (nth_error_some_of_lt (lane_last_green_time w) lane
                  ltac:(lia)) as (t & Et).
      destruct lo1 as [m |].
      * rewrite (start_green_value w lane m s t Es Et) in N. discriminate.
      * destruct Hc as [(<- & v & Hv & He) | (m & F)]; [| discriminate].
        split; [reflexivity |]. split; [reflexivity |]. now exists lane, v.
    + destruct (nth_error_some_of_lt (signals w) (current_green w)
                  ltac:(lia)) as (s & Es).
      rewrite Es in N.
      destruct (green_round_ticked w H4) as (w1 & E1 & _).
      rewrite E1 in N. destruct (green s >? 0)%Z; discriminate.
    + destruct (nth_error_some_of_lt (signals w) (current_green w)
                  ltac:(lia)) as (s & Es).
      rewrite Es in N.
      destruct (update_signal_values_ticked w H4) as (w1 & E1 & _).
      rewrite E1, (leave_yellow_value w s Es) in N.
      destruct (yellow s >? 0)%Z; discriminate.
  - intros (-> & -> & i & v & Hi & Hv & He).
    destruct (emergency_override_fires w i v Hi Hv He) as (t & lane & E).
    cbn [repeat_signal_cycle]. unfold selection. rewrite E. cbn [snd].
    rewrite start_green_unbound. reflexivity.
Qed.

(** An emergency vehicle is the first vehicle of the run. *)
Lemma scheduler_raises_only_unbound_witness :
  reachable keep_rect (fun _ _ => sample_image) exact
    (mkSystem
       (generate_vehicles (fun _ _ => sample_image) initial_world
          (mkDraws 0.01 0 L0 0 0))
       Selecting None) /\
  repeat_signal_cycle exact Selecting None
    (generate_vehicles (fun _ _ => sample_image) initial_world
       (mkDraws 0.01 0 L0 0 0))
  = None.
Proof.
  assert (R : reachable keep_rect (fun _ _ => sample_image) exact
                (mkSystem
                   (generate_vehicles (fun _ _ => sample_image) initial_world
                      (mkDraws 0.01 0 L0 0 0))
                   Selecting None)).
  { exact (reach_generate _ _ _ _ (mkDraws 0.01 0 L0 0 0)
             (reach_start _ _ _)). }
  split; [exact R |].
  apply (scheduler_raises_only_unbound _ _ _ _ R).
  split; [reflexivity |]. split; [reflexivity |].
  exists 0%nat. eexists. split; [unfold NO_OF_SIGNALS; lia |].
  split; [left; reflexivity | reflexivity].
Defined.

(** ** Stopping at red and going at green *)

Lemma Qleb_le (a b : Q) : (a <=? b) = true <-> a <= b.
Proof. unfold Qleb. apply Qle_bool_iff. Qed.

Lemma speed_at_most (v : Vehicle) : speed v <= 1.7.
Proof.
  unfold speed. destruct (vehicle_class v); simpl; unfold Qle; simpl; lia.
Qed.

(** A vehicle that has not crossed moves only through its gate: before its
    stop position, or on green. *)
Lemma uncrossed_gate (tr : Image -> Z -> Image) (W : World) (d : Direction)
    (idx : nat) (lane_list : list Vehicle) (V : Vehicle) :
  crossed V = false ->
  let r := fst (move_by_direction tr W d idx lane_list V) in
  r = Some V \/
  (r = Some (forward d V) /\
   before_stop d V || holds_green W (direction_index d) = true).
Proof.
  intros Hc. cbn zeta.
  destruct d; unfold_motion; rewrite Hc; cbn [negb orb direction_index];
    destruct (will_turn V);
    match goal with
    | |- context [if ?c then _ else _] => destruct c eqn:E
    end; cbn [fst]; auto;
    apply andb_true_iff in E; destruct E as [E _]; right;
    (split; [reflexivity |]); cbn [before_stop];
    rewrite ?orb_false_r in E; exact E.
Qed.

Lemma uncrossed_go (tr : Image -> Z -> Image) (W : World) (d : Direction)
    (idx : nat) (lane_list : list Vehicle) (V : Vehicle) :
  crossed V = false ->
  before_stop d V || holds_green W (direction_index d) = true ->
  ahead_clear idx lane_list (gap_kept d V) = true ->
  fst (move_by_direction tr W d idx lane_list V) = Some (forward d V).
Proof.
  intros Hc Hg Ha.
  destruct d; unfold_motion; unfold keep; rewrite Hc;
    cbn [negb orb direction_index before_stop] in *;
    rewrite ?orb_false_r; destruct (will_turn V); rewrite Hg;
    match goal with
    | |- context [ahead_clear idx lane_list ?c] =>
        replace (ahead_clear idx lane_list c) with true
          by (symmetry; revert Ha; apply ahead_clear_weaken;
              intros p Hp; cbn [gap_kept] in Hp; rewrite ?Hp; reflexivity)
    end; reflexivity.
Qed.

(** X10.  A vehicle stops at red.  A vehicle that has not crossed, whose
    leading edge is not beyond the stop line and whose stop position is not
    beyond the default one, does not get beyond the stop line by a step of
    [move] while its approach does not hold green (another approach is
    active, or the yellow flag is set): it stays in its queue, is not
    flagged as crossed, and no crossing is recorded. *)
Theorem red_light_holds (tr : Image -> Z -> Image) (w : World)
    (d : Direction) (l : LaneId) (idx : nat) (v : Vehicle)
    (Hv : nth_error (vehicles w d l) idx = Some v)
    (Hc : crossed v = false)
    (Hp : past_stop_line d v = false)
    (Hs : stop_within_default d v)
    (Hr : holds_green w (direction_index d) = false) :
  exists v',
    nth_error (vehicles (move tr w d l idx) d l) idx = Some v' /\
    crossed v' = false /\ past_stop_line d v' = false /\
    length (vehicles (move tr w d l idx) d l) = length (vehicles w d l) /\
    crossed_count (move tr w d l idx) = crossed_count w /\
    waiting_times (move tr w d l idx) = waiting_times w.
Proof.
  destruct (move_result tr w d l idx v Hv)
    as (Hq & _ & Hw & Hn & _).
  destruct (advance_forms tr w d idx (vehicles w d l) v)
    as [(F & _) | [(_ & _ & A) | (_ & F & _)]]; try congruence.
  rewrite A in Hq, Hw, Hn. cbn [fst snd] in Hq, Hw, Hn.
  set (V := set_waiting_time v (waiting_time v + 1)) in *.
  assert (HcV : crossed V = false) by exact Hc.
  assert (HpV : past_stop_line d V = false)
    by (unfold V; rewrite past_stop_line_waiting; exact Hp).
  assert (Keep : forall v', fst (move_by_direction tr w d idx
                                   (vehicles w d l) V) = Some v' ->
            crossed v' = false -> past_stop_line d v' = false ->
            exists v'',
              nth_error (vehicles (move tr w d l idx) d l) idx = Some v'' /\
              crossed v'' = false /\ past_stop_line d v'' = false /\
              length (vehicles (move tr w d l idx) d l)
              = length (vehicles w d l) /\
              crossed_count (move tr w d l idx) = crossed_count w /\
              waiting_times (move tr w d l idx) = waiting_times w).
  { intros v' E C P. exists v'. rewrite Hq, E. cbn [put_back].
    rewrite (nth_error_replace_at_eq _ _ _ _ Hv), length_replace_at.
    auto 10. }
  destruct (uncrossed_gate tr w d idx (vehicles w d l) V HcV)
    as [E | (E & G)]; cbn zeta in E.
  - exact (Keep V E HcV HpV).
  - apply (Keep _ E); [destruct d; exact Hc |].
    rewrite Hr, orb_false_r in G.
    pose proof (speed_at_most V) as Sp.
    destruct d; cbn [before_stop stop_within_default DEFAULT_STOPS] in G, Hs;
      apply Qleb_le in G;
      cbn [past_stop_line forward STOP_LINES x y set_x set_y rect_w rect_h
           current_image];
      apply Qltb_ge;
      replace (stop V) with (stop v) in G by reflexivity;
      unfold rect_w, rect_h in *; cbn [current_image set_x set_y] in *; lra.
Qed.

(** A car of the second approach at its spawn point while the first
    approach is the active one. *)
Lemma red_light_holds_witness :
  nth_error (vehicles tied_world DDown L0) 0
    = Some (sample_vehicle DDown car 755 0 false) /\
  crossed (sample_vehicle DDown car 755 0 false) = false /\
  past_stop_line DDown (sample_vehicle DDown car 755 0 false) = false /\
  stop_within_default DDown (sample_vehicle DDown car 755 0 false) /\
  holds_green tied_world (direction_index DDown) = false /\
  exists v',
    nth_error (vehicles (move keep_rect tied_world DDown L0 0) DDown L0) 0
      = Some v' /\
    crossed v' = false /\ past_stop_line DDown v' = false /\
    length (vehicles (move keep_rect tied_world DDown L0 0) DDown L0)
    = length (vehicles tied_world DDown L0) /\
    crossed_count (move keep_rect tied_world DDown L0 0)
    = crossed_count tied_world /\
    waiting_times (move keep_rect tied_world DDown L0 0)
    = waiting_times tied_world.
Proof.
  assert (Hs : stop_within_default DDown
                 (sample_vehicle DDown car 755 0 false))
    by (cbn; unfold Qle; simpl; lia).
  split; [reflexivity |]. split; [reflexivity |]. split; [reflexivity |].
  split; [exact Hs |]. split; [reflexivity |].
  exact (red_light_holds keep_rect tied_world DDown L0 0
           (sample_vehicle DDown car 755 0 false)
           eq_refl eq_refl eq_refl Hs eq_refl).
Defined.

(** X11.  A vehicle goes when its gate is open.  A vehicle that has not
    crossed and is not beyond the stop line moves by exactly one step of
    its class speed along its direction, and counts one more step of
    waiting, whenever its leading edge has not passed its stop position or
    its approach holds green with the yellow flag clear, and it keeps more
    than [MOVING_GAP] to the vehicle ahead of it in the queue (or it is the
    first of the queue). *)
Theorem open_gate_moves (tr : Image -> Z -> Image) (w : World)
    (d : Direction) (l : LaneId) (idx : nat) (v : Vehicle)
    (Hv : nth_error (vehicles w d l) idx = Some v)
    (Hc : crossed v = false)
    (Hp : past_stop_line d v = false)
    (Hg : before_stop d v || holds_green w (direction_index d) = true)
    (Ha : ahead_clear idx (vehicles w d l) (gap_kept d v) = true) :
  vehicles (move tr w d l idx) d l
  = replace_at idx (forward d (set_waiting_time v (waiting_time v + 1)))
      (vehicles w d l) /\
  crossed_count (move tr w d l idx) = crossed_count w /\
  waiting_times (move tr w d l idx) = waiting_times w.
Proof.
  destruct (move_result tr w d l idx v Hv)
    as (Hq & _ & Hw & Hn & _).
  destruct (advance_forms tr w d idx (vehicles w d l) v)
    as [(F & _) | [(_ & _ & A) | (_ & F & _)]]; try congruence.
  rewrite A in Hq, Hw, Hn. cbn [fst snd] in Hq, Hw, Hn.
  rewrite Hq, (uncrossed_go tr w d idx (vehicles w d l)
                 (set_waiting_time v (waiting_time v + 1)) Hc).
  - auto.
  - destruct d; exact Hg.
  - destruct d; exact Ha.
Qed.

(** The follower of [queue_world], far from its stop position and from
    the car ahead of it. *)
Lemma open_gate_moves_witness :
  nth_error (vehicles queue_world DRight L0) 1 = Some follow_car /\
  crossed follow_car = false /\
  past_stop_line DRight follow_car = false /\
  before_stop DRight follow_car
    || holds_green queue_world (direction_index DRight) = true /\
  ahead_clear 1 (vehicles queue_world DRight L0) (gap_kept DRight follow_car)
    = true /\
  vehicles (move keep_rect queue_world DRight L0 1) DRight L0
  = replace_at 1
      (forward DRight
         (set_waiting_time follow_car (waiting_time follow_car + 1)))
      (vehicles queue_world DRight L0) /\
  crossed_count (move keep_rect queue_world DRight L0 1)
  = crossed_count queue_world /\
  waiting_times (move keep_rect queue_world DRight L0 1)
  = waiting_times queue_world.
Proof.
  split; [reflexivity |]. split; [reflexivity |]. split; [reflexivity |].
  split; [reflexivity |]. split; [reflexivity |].
  exact (open_gate_moves keep_rect queue_world DRight L0 1 follow_car
           eq_refl eq_refl eq_refl eq_refl eq_refl).
Defined.

(** ** The waiting counter and the length of a queue *)

(** X12.  The counter [waiting_time] of a vehicle counts its steps before
    it is flagged as crossed, whether it stood or moved in them: a step of
    [move] adds one to the counter of a vehicle that is not flagged yet when
    the step begins, and leaves the counter of a flagged vehicle alone. *)
Theorem waiting_time_counts_steps (tr : Image -> Z -> Image) (w : World)
    (d : Direction) (l : LaneId) (idx : nat) (v : Vehicle)
    (Hv : nth_error (vehicles w d l) idx = Some v) :
  exists r,
    vehicles (move tr w d l idx) d l = put_back idx (vehicles w d l) r /\
    forall v', r = Some v' ->
      waiting_time v'
      = if crossed v then waiting_time v else (waiting_time v + 1)%Z.
Proof.
  destruct (move_result tr w d l idx v Hv) as (Hq & _).
  eexists. split; [exact Hq |]. intros v' E.
  destruct (advance_forms tr w d idx (vehicles w d l) v)
    as [(C & A) | [(C & _ & A) | (C & _ & A)]];
    rewrite A in E; cbn [snd] in E;
    apply move_by_direction_keeps in E;
    destruct E as (_ & _ & _ & _ & _ & -> & _); rewrite C; reflexivity.
Qed.

Lemma waiting_time_counts_steps_witness :
  nth_error (vehicles queue_world DRight L0) 0 = Some lead_car /\
  exists r,
    vehicles (move keep_rect queue_world DRight L0 0) DRight L0
    = put_back 0 (vehicles queue_world DRight L0) r /\
    forall v', r = Some v' ->
      waiting_time v'
      = if crossed lead_car then waiting_time lead_car
        else (waiting_time lead_car + 1)%Z.
Proof.
  split; [reflexivity |].
  exact (waiting_time_counts_steps keep_rect queue_world DRight L0 0
           lead_car eq_refl).
Defined.

Lemma length_remove_at {A : Type} (l : list A) (i : nat) :
  (i < length l)%nat -> S (length (remove_at i l)) = length l.
Proof.
  revert i. induction l as [| h t IH]; intros [| i] H; simpl in *;
    try lia. rewrite IH by lia. reflexivity.
Qed.

(** X13.  Which queues a step of [move] can shorten.  The step leaves
    every other queue as it is and keeps the length of its own queue, with
    one exception: on the approach of direction [left] the vehicle is taken
    out of its queue, when its trailing edge is more than 10 beyond the
    left border while a vehicle ahead of it in the queue is still in the
    scene.  No step shortens a queue of the other three directions. *)
Theorem queue_shrinks_only_on_left (tr : Image -> Z -> Image) (w : World)
    (d : Direction) (l : LaneId) (idx : nat) :
  (forall d' l', d <> d' \/ l <> l' ->
     vehicles (move tr w d l idx) d' l' = vehicles w d' l') /\
  (length (vehicles (move tr w d l idx) d l) = length (vehicles w d l) \/
   d = DLeft /\
   S (length (vehicles (move tr w d l idx) d l)) = length (vehicles w d l) /\
   exists v a,
     nth_error (vehicles w d l) idx = Some v /\
     x v + rect_w v < - (10) /\
     find_ahead idx (vehicles w d l) = Some a /\
     0 < x a + rect_w a).
Proof.
  destruct (nth_error (vehicles w d l) idx) as [v |] eqn:Hv.
  2:{ unfold move. rewrite Hv. auto. }
  destruct (move_result tr w d l idx v Hv) as (Hq & Ho & _).
  split; [exact Ho |]. rewrite Hq.
  destruct (snd (advance tr w d idx (vehicles w d l) v)) as [v' |] eqn:E;
    cbn [put_back].
  - left. apply length_replace_at.
  - right. destruct (removal_conditions tr w d idx _ v E)
      as (-> & Hx & a & Ha).
    split; [reflexivity |]. split.
    + apply length_remove_at. apply nth_error_Some. congruence.
    + exists v, a. repeat split; try assumption.
      unfold find_ahead in Ha. apply find_some in Ha.
      destruct Ha as (_ & Ha). now apply Qltb_lt in Ha.
Qed.

(** ** Invariants of the vehicles of the running system *)

Lemma Direction_eqb_eq (a b : Direction) : Direction_eqb a b = true -> a = b.
Proof. destruct a, b; simpl; congruence. Qed.

Lemma LaneId_eqb_eq (a b : LaneId) : LaneId_eqb a b = true -> a = b.
Proof. destruct a, b; simpl; congruence. Qed.

Lemma enter_yellow_vehicles_default (w : World) (d : Direction) (l : LaneId)
    (v' : Vehicle) :
  In v' (vehicles (enter_yellow w) d l) ->
  exists v, In v (vehicles w d l) /\
            (v' = v \/ v' = set_stop v (DEFAULT_STOPS d)).
Proof.
  unfold enter_yellow. cbn [vehicles set_vehicles set_current_yellow].
  destruct (Direction_eqb (DIRECTIONS (current_green w)) d) eqn:E.
  - apply Direction_eqb_eq in E. rewrite E.
    intros Hin. apply in_map_iff in Hin. destruct Hin as (v & <- & Hv).
    exists v. auto.
  - intros Hin. exists v'. auto.
Qed.

Section VehicleInvariant.

Variable tr : Image -> Z -> Image.
Variable load_image : Direction -> VClass -> Image.
Variable fl : Q -> Q.

(** A property of the vehicles of a direction that holds of a new vehicle
    when it holds of the vehicles of its queue, and that the motion step
    and the reset of the stop position keep. *)
Variable P : Direction -> Vehicle -> Prop.

Hypothesis P_spawn :
  forall (w : World) (l : LaneId) (c : VClass) (d : Direction) (turn : bool),
    (forall v, In v (vehicles w d l) -> P d v) ->
    P d (mkVehicle c (fst (SPAWN_COORDS d l)) (snd (SPAWN_COORDS d l))
           false turn false 0 0 (time_elapsed w) None
           (load_image d c) (load_image d c)
           (_set_stop_position d (vehicles w d l))).

Hypothesis P_move :
  forall (w : World) (d : Direction) (idx : nat) (lane_list : list Vehicle)
         (v v' : Vehicle),
    P d v -> snd (advance tr w d idx lane_list v) = Some v' -> P d v'.

Hypothesis P_stop :
  forall (d : Direction) (v : Vehicle),
    P d v -> P d (set_stop v (DEFAULT_STOPS d)).

Lemma reachable_vehicles (st : System) :
  reachable tr load_image fl st ->
  forall d l v, In v (vehicles (world st) d l) -> P d v.
Proof.
  induction 1 as [| st r _ IH | st _ IH | st d0 l0 idx _ IH
                  | st ph' lo' w' _ IH Hstep]; cbn [world];
    intros d l v Hin.
  - destruct Hin.
  - unfold generate_vehicles, new_vehicle in Hin.
    cbn [vehicles set_lane] in Hin.
    destruct (Direction_eqb _ d && LaneId_eqb _ l) eqn:E;
      [| exact (IH d l v Hin)].
    apply andb_true_iff in E. destruct E as (Ed & El).
    apply Direction_eqb_eq in Ed. apply LaneId_eqb_eq in El.
    rewrite Ed, El in Hin.
    apply in_app_or in Hin. destruct Hin as [Hin | [<- | []]].
    + exact (IH d l v Hin).
    + apply P_spawn. intros u Hu. exact (IH d l u Hu).
  - exact (IH d l v Hin).
  - destruct (nth_error (vehicles (world st) d0 l0) idx) as [u |] eqn:Eu;
      [| unfold move in *; rewrite Eu in *; exact (IH d l v Hin)].
    destruct (move_result tr (world st) d0 l0 idx u Eu) as (Hq & Hother & _).
    assert (Hcase : (d0 = d /\ l0 = l) \/ (d0 <> d \/ l0 <> l)).
    { destruct d0, d, l0, l; auto; right;
        ((left; discriminate) || (right; discriminate)). }
    destruct Hcase as [[<- <-] | Hne].
    + rewrite Hq in Hin. apply put_back_in in Hin.
      destruct Hin as [Hr | Hin]; [| exact (IH d0 l0 v Hin)].
      eapply P_move; [| exact Hr].
      apply (IH d0 l0 u). eapply nth_error_In. exact Eu.
    + rewrite (Hother d l Hne) in Hin. exact (IH d l v Hin).
  - apply repeat_signal_cycle_frame in Hstep.
    destruct Hstep as (_ & [Hv | ->] & _).
    + rewrite Hv in Hin. exact (IH d l v Hin).
    + apply enter_yellow_vehicles_default in Hin.
      destruct Hin as (u & Hu & [-> | ->]);
        [| apply P_stop]; exact (IH d l u Hu).
Qed.

End VehicleInvariant.

(** *** Stop positions *)

Lemma inject_Z_nonneg (z : Z) : (0 <= z)%Z -> 0 <= inject_Z z.
Proof. intros H. unfold Qle. simpl. lia. Qed.

Lemma advance_keeps_stop (tr : Image -> Z -> Image) (w : World)
    (d : Direction) (idx : nat) (lane_list : list Vehicle) (v v' : Vehicle) :
  snd (advance tr w d idx lane_list v) = Some v' ->
  stop v' = stop v /\
  (crossed v' = false ->
   crossed v = false /\ current_image v' = current_image v).
Proof.
  intros E.
  destruct (advance_forms tr w d idx lane_list v)
    as [(C & A) | [(C & _ & A) | (C & _ & A)]];
    rewrite A in E; cbn [snd] in E.
  - pose proof (move_by_direction_keeps _ _ _ _ _ _ _ E)
      as (Hc & _ & _ & _ & _ & _ & Hs).
    split; [exact Hs |]. intros F. congruence.
  - pose proof (move_by_direction_keeps _ _ _ _ _ _ _ E)
      as (Hc & _ & _ & _ & _ & _ & Hs).
    split; [exact Hs |]. intros _. split; [exact C |].
    destruct (uncrossed_motion tr w d idx lane_list
                (set_waiting_time v (waiting_time v + 1)) C)
      as [R | (R & _)]; cbn zeta in R; rewrite R in E;
      injection E as <-; destruct d; reflexivity.
  - pose proof (move_by_direction_keeps _ _ _ _ _ _ _ E)
      as (Hc & _ & _ & _ & _ & _ & Hs).
    split; [exact Hs |]. intros F. rewrite Hc in F. discriminate F.
Qed.

Lemma stop_and_size_reachable (tr : Image -> Z -> Image)
    (load_image : Direction -> VClass -> Image) (fl : Q -> Q) (st : System) :
  sized_images load_image ->
  reachable tr load_image fl st ->
  forall d l v, In v (vehicles (world st) d l) -> stop_and_size d v.
Proof.
  intros Hsz. apply reachable_vehicles.
  - intros w l c d turn IH. split.
    + unfold _set_stop_position.
      destruct (nth_error (vehicles w d l) (length (vehicles w d l) - 1))
        as [prev |] eqn:E.
      2:{ destruct d; cbn; apply Qle_refl. }
      destruct (crossed prev) eqn:C; cbn [negb].
      1:{ destruct d; cbn; apply Qle_refl. }
      destruct (IH prev (nth_error_In _ _ E)) as (Hs & Hz).
      destruct (Hz C) as (Hw & Hh).
      unfold STOPPING_GAP.
      destruct d; cbn [stop_within_default stop] in *; lra.
    + intros _. unfold rect_w, rect_h. cbn [current_image].
      destruct (Hsz d c). split; now apply inject_Z_nonneg.
  - intros w d idx lane_list v v' (Hs & Hz) E.
    destruct (advance_keeps_stop tr w d idx lane_list v v' E) as (S1 & K).
    split.
    + destruct d; cbn [stop_within_default] in *; rewrite S1; exact Hs.
    + intros C. destruct (K C) as (C0 & I). unfold rect_w, rect_h.
      rewrite I. exact (Hz C0).
  - intros d v (Hs & Hz). split; [destruct d; cbn; apply Qle_refl |].
    exact Hz.
Qed.

(** X14.  Stop positions never lie beyond the default one.  When the
    vehicle pictures have rectangles of non-negative size, then in every
    state the threads reach by steps that do not raise, the stop position of
    every vehicle is at its default or farther from the stop line ([<=] for
    the directions right and down, [>=] for left and up), and so at least
    10 short of the stop line. *)
Theorem stops_stay_within_default (tr : Image -> Z -> Image)
    (load_image : Direction -> VClass -> Image) (fl : Q -> Q) (st : System)
    (Hsz : sized_images load_image)
    (H : reachable tr load_image fl st) :
  forall d l v, In v (vehicles (world st) d l) ->
    stop_within_default d v /\
    match d with
    | DRight | DDown => stop v <= STOP_LINES d - 10
    | DLeft | DUp => STOP_LINES d + 10 <= stop v
    end.
Proof.
  intros d l v Hin.
  destruct (stop_and_size_reachable tr load_image fl st Hsz H d l v Hin)
    as (Hs & _).
  split; [exact Hs |].
  destruct d; cbn [stop_within_default DEFAULT_STOPS STOP_LINES] in *; lra.
Qed.

(** Two vehicles spawned one after the other on the same lane. *)
Lemma stops_stay_within_default_witness :
  sized_images (fun _ _ => sample_image) /\
  reachable keep_rect (fun _ _ => sample_image) exact
    (mkSystem
       (generate_vehicles (fun _ _ => sample_image)
          (generate_vehicles (fun _ _ => sample_image) initial_world
             (mkDraws 0.5 0 L0 0 0))
          (mkDraws 0.5 1 L0 0 0))
       Selecting None) /\
  forall d l v,
    In v (vehicles
            (generate_vehicles (fun _ _ => sample_image)
               (generate_vehicles (fun _ _ => sample_image) initial_world
                  (mkDraws 0.5 0 L0 0 0))
               (mkDraws 0.5 1 L0 0 0)) d l) ->
    stop_within_default d v /\
    match d with
    | DRight | DDown => stop v <= STOP_LINES d - 10
    | DLeft | DUp => STOP_LINES d + 10 <= stop v
    end.
Proof.
  assert (Hsz : sized_images (fun _ _ => sample_image))
    by (intros d c; simpl; lia).
  assert (R : reachable keep_rect (fun _ _ => sample_image) exact
                (mkSystem
                   (generate_vehicles (fun _ _ => sample_image)
                      (generate_vehicles (fun _ _ => sample_image)
                         initial_world (mkDraws 0.5 0 L0 0 0))
                      (mkDraws 0.5 1 L0 0 0))
                   Selecting None)).
  { exact (reach_generate _ _ _ _ (mkDraws 0.5 1 L0 0 0)
             (reach_generate _ _ _ _ (mkDraws 0.5 0 L0 0 0)
                (reach_start _ _ _))). }
  split; [exact Hsz |]. split; [exact R |].
  exact (stops_stay_within_default _ _ _ _ Hsz R).
Defined.

(** *** Rotation *)

Lemma rotation_in_steps_same (v v' : Vehicle) :
  rotate_angle v' = rotate_angle v -> turned v' = turned v ->
  (crossed v' = false -> crossed v = false) ->
  rotation_in_steps v -> rotation_in_steps v'.
Proof.
  intros Ha Ht Hc (Hk & Hn & Hz). unfold rotation_in_steps.
  rewrite Ha, Ht. split; [exact Hk |]. split; [exact Hn |]. auto.
Qed.

Lemma rotation_in_steps_step (tr : Image -> Z -> Image) (v : Vehicle)
    (dx dy : Q) :
  crossed v = true -> turned v = false ->
  rotation_in_steps v -> rotation_in_steps (rotation_step tr v dx dy).
Proof.
  intros Hc Ht ((k & Hk & Ha) & Hn & _).
  assert (Hne : rotate_angle v <> 90%Z)
    by (intros F; apply Hn in F; congruence).
  unfold ROTATION_ANGLE in Ha.
  unfold rotation_step, ROTATION_ANGLE.
  destruct (Z.eqb_spec (rotate_angle v + 3) 90) as [E | E];
    unfold rotation_in_steps, ROTATION_ANGLE;
    cbn [rotate_angle turned crossed set_turned set_x set_y set_rotation];
    (split; [exists (k + 1)%Z; lia |]); rewrite ?Hc, ?Ht;
    (split; [| discriminate]); split; intros F; congruence.
Qed.

Lemma rotation_in_steps_reachable (tr : Image -> Z -> Image)
    (load_image : Direction -> VClass -> Image) (fl : Q -> Q) (st : System) :
  reachable tr load_image fl st ->
  forall d l v, In v (vehicles (world st) d l) -> rotation_in_steps v.
Proof.
  apply (reachable_vehicles tr load_image fl (fun _ => rotation_in_steps)).
  - intros w l c d turn _. unfold rotation_in_steps, ROTATION_ANGLE.
    cbn [rotate_angle turned crossed].
    split; [exists 0%Z; lia |]. split; [| reflexivity].
    split; discriminate.
  - intros w d idx lane_list v v' Hv E.
    assert (Step : forall W V,
              rotation_in_steps V ->
              fst (move_by_direction tr W d idx lane_list V) = Some v' ->
              rotation_in_steps v').
    { intros W V HV R.
      destruct (move_by_direction_outcome tr W d idx lane_list V)
        as [O | [O | [(O & _) | [(O & C & _ & T & _) | (O & _)]]]];
        cbn zeta in O; rewrite O in R; try discriminate R;
        injection R as <-.
      - exact HV.
      - revert HV. apply rotation_in_steps_same; destruct d; auto.
      - revert HV. apply rotation_in_steps_same; destruct d; auto.
      - now apply rotation_in_steps_step. }
    destruct (advance_forms tr w d idx lane_list v)
      as [(C & A) | [(C & _ & A) | (C & _ & A)]];
      rewrite A in E; cbn [snd] in E; apply Step in E; try exact E.
    + exact Hv.
    + revert Hv. apply rotation_in_steps_same; auto.
    + revert Hv. apply rotation_in_steps_same; try reflexivity.
      cbn. discriminate.
  - intros d v. apply rotation_in_steps_same; auto.
Qed.

(** X15.  Rotation goes in whole steps and ends at 90 degrees.  In every
    state the threads reach by steps that do not raise, the rotation angle
    of every vehicle is [ROTATION_ANGLE * k] for some [k] between 0 and 30;
    the vehicle is flagged as turned exactly when the angle is 90, so after
    the 30th rotation step and never before; and a vehicle that has not
    crossed has not begun to rotate. *)
Theorem rotation_in_whole_steps (tr : Image -> Z -> Image)
    (load_image : Direction -> VClass -> Image) (fl : Q -> Q) (st : System)
    (H : reachable tr load_image fl st) :
  forall d l v, In v (vehicles (world st) d l) ->
    (exists k, (0 <= k <= 30)%Z /\ rotate_angle v = (ROTATION_ANGLE * k)%Z) /\
    (turned v = true <-> rotate_angle v = 90%Z) /\
    (crossed v = false -> rotate_angle v = 0%Z /\ turned v = false).
Proof.
  intros d l v Hin.
  destruct (rotation_in_steps_reachable tr load_image fl st H d l v Hin)
    as (Hk & Hn & Hz).
  split; [exact Hk |]. split; [exact Hn |].
  intros C. split; [exact (Hz C) |].
  destruct (turned v) eqn:T; [| reflexivity].
  pose proof (proj1 Hn eq_refl) as F. rewrite (Hz C) in F. discriminate F.
Qed.

(** A bus of the turning lane after its first step. *)
Lemma rotation_in_whole_steps_witness :
  reachable keep_rect (fun _ _ => sample_image) exact
    (mkSystem
       (move keep_rect
          (generate_vehicles (fun _ _ => sample_image) initial_world
             (mkDraws 0.5 1 L2 0 0))
          DRight L2 0)
       Selecting None) /\
  forall d l v,
    In v (vehicles
            (move keep_rect
               (generate_vehicles (fun _ _ => sample_image) initial_world
                  (mkDraws 0.5 1 L2 0 0))
               DRight L2 0) d l) ->
    (exists k, (0 <= k <= 30)%Z /\ rotate_angle v = (ROTATION_ANGLE * k)%Z) /\
    (turned v = true <-> rotate_angle v = 90%Z) /\
    (crossed v = false -> rotate_angle v = 0%Z /\ turned v = false).
Proof.
  assert (R : reachable keep_rect (fun _ _ => sample_image) exact
                (mkSystem
                   (move keep_rect
                      (generate_vehicles (fun _ _ => sample_image)
                         initial_world (mkDraws 0.5 1 L2 0 0))
                      DRight L2 0)
                   Selecting None)).
  { exact (reach_move _ _ _ _ DRight L2 0%nat
             (reach_generate _ _ _ _ (mkDraws 0.5 1 L2 0 0)
                (reach_start _ _ _))). }
  split; [exact R |].
  exact (rotation_in_whole_steps _ _ _ _ R).
Defined.

(** ** Spawning *)

Lemma Direction_eqb_refl (d : Direction) : Direction_eqb d d = true.
Proof. destruct d; reflexivity. Qed.

Lemma Direction_eqb_neq (a b : Direction) :
  a <> b -> Direction_eqb a b = false.
Proof. destruct a, b; simpl; congruence. Qed.

(** X16.  What a round of the generator adds.  [generate_vehicles]
    appends exactly one vehicle, at the end of the queue of the drawn lane
    of the drawn direction: it stands at the spawn point of that lane, has
    not crossed, carries the current tick as spawn time and a waiting
    counter of 0, and is an emergency vehicle when the first draw is below
    0.015 and of the class of the second draw otherwise.  The waiting count
    of that approach grows by one; the other queues, the other waiting
    counts, the signals, the clock and the metrics are unchanged. *)
Theorem spawn_adds_one_waiting_vehicle
    (load_image : Direction -> VClass -> Image) (w : World) (r : Draws) :
  let d := DIRECTIONS (direction_draw r) in
  let w' := generate_vehicles load_image w r in
  (exists v,
     vehicles w' d (lane_draw r) = vehicles w d (lane_draw r) ++ [v] /\
     x v = fst (SPAWN_COORDS d (lane_draw r)) /\
     y v = snd (SPAWN_COORDS d (lane_draw r)) /\
     crossed v = false /\ turned v = false /\
     spawn_time v = time_elapsed w /\ waiting_time v = 0%Z /\
     vehicle_class v
     = (if emergency_draw r <? 0.015 then emergency
        else VEHICLE_TYPES (type_draw r))) /\
  (forall d' l', d' <> d \/ l' <> lane_draw r ->
     vehicles w' d' l' = vehicles w d' l') /\
  waiting_count w' d = (waiting_count w d + 1)%Z /\
  (forall d', d' <> d -> waiting_count w' d' = waiting_count w d') /\
  signals w' = signals w /\ time_elapsed w' = time_elapsed w /\
  crossed_count w' = crossed_count w /\ waiting_times w' = waiting_times w /\
  current_green w' = current_green w /\
  current_yellow w' = current_yellow w /\
  lane_last_green_time w' = lane_last_green_time w.
Proof.
  cbn zeta. unfold generate_vehicles, new_vehicle.
  set (d := DIRECTIONS (direction_draw r)).
  set (l := lane_draw r).
  set (v := mkVehicle _ _ _ _ _ _ _ _ _ _ _ _ _).
  split; [| split; [| split; [| split]]].
  - exists v. rewrite set_lane_same.
    split; [reflexivity |]. repeat split.
    unfold v. cbn [vehicle_class].
    destruct (emergency_draw r <? 0.015); reflexivity.
  - intros d' l' Hne. apply set_lane_other.
    destruct Hne as [Hne | Hne]; [left | right]; congruence.
  - unfold waiting_count, approach_vehicles. cbn [vehicles set_lane].
    rewrite Direction_eqb_refl. cbn [andb].
    rewrite !filter_app, !length_app.
    destruct l; cbn [LaneId_eqb];
      rewrite ?filter_app, ?length_app; cbn [filter crossed v negb length];
      lia.
  - intros d' Hd. unfold waiting_count, approach_vehicles.
    cbn [vehicles set_lane].
    rewrite (Direction_eqb_neq d d') by congruence. reflexivity.
  - repeat split.
Qed.

(** ** The metrics report *)

Lemma fold_add_acc (l : list Z) (a : Z) :
  fold_left Z.add l a = (a + fold_left Z.add l 0)%Z.
Proof.
  revert a. induction l as [| h t IH]; intros a; cbn [fold_left]; [lia |].
  rewrite (IH (a + h)%Z), (IH (0 + h)%Z). lia.
Qed.

Lemma sum_bounds (l : list Z) (m : Z) :
  (forall t, In t l -> (0 <= t <= m)%Z) ->
  (0 <= fold_left Z.add l 0 <= Z.of_nat (length l) * m)%Z.
Proof.
  induction l as [| h t IH]; intros H; [cbn; lia |].
  cbn [fold_left]. rewrite fold_add_acc.
  pose proof (H h (or_introl eq_refl)).
  assert (Ht : forall u, In u t -> (0 <= u <= m)%Z)
    by (intros u Hu; apply H; right; exact Hu).
  specialize (IH Ht). cbn [length]. lia.
Qed.

Lemma max_of_upper (t : list Z) :
  forall h u, In u (h :: t) -> (u <= max_of h t)%Z.
Proof.
  unfold max_of. induction t as [| a t IH]; intros h u Hu; cbn [fold_left].
  - destruct Hu as [<- | []]. lia.
  - destruct Hu as [<- | [<- | Hu]].
    + specialize (IH (Z.max h a) (Z.max h a) (or_introl eq_refl)). lia.
    + specialize (IH (Z.max h a) (Z.max h a) (or_introl eq_refl)). lia.
    + apply IH. right. exact Hu.
Qed.

Lemma cycle_keeps_metrics (fl : Q -> Q) (st : System) (ph' : Phase)
    (lo' : Locals) (w' : World) :
  scheduler_invariant st ->
  repeat_signal_cycle fl (phase st) (locals_of st) (world st)
    = Some (ph', lo', w') ->
  crossed_count w' = crossed_count (world st) /\
  waiting_times w' = waiting_times (world st) /\
  time_elapsed w' = time_elapsed (world st).
Proof.
  destruct st as [w ph lo]. cbn [world phase locals_of].
  intros (H4 & _ & _) H.
  destruct ph; cbn [repeat_signal_cycle] in H.
  - destruct (selection fl w lo) as [[lane lo1] |];
      [| injection H as <- <- <-; auto].
    destruct (start_green w lane lo1) as [w1 |] eqn:E; [| discriminate].
    cbn [bind] in H. injection H as <- <- <-.
    destruct (start_green_inv _ _ _ _ E) as (s & t & m & _ & _ & _ & ->).
    auto.
  - destruct (nth_error (signals w) (current_green w)) as [s |];
      [| discriminate].
    destruct (green s >? 0)%Z.
    + destruct (green_round_ticked w H4) as (w1 & E1 & C1 & _).
      rewrite E1 in H. cbn [bind] in H. injection H as <- <- <-.
      destruct C1 as (_ & _ & _ & _ & Hc & Ht & _ & Hw & _). auto.
    + injection H as <- <- <-. auto.
  - destruct (nth_error (signals w) (current_green w)) as [s |] eqn:Es;
      [| discriminate].
    destruct (yellow s >? 0)%Z.
    + destruct (update_signal_values_ticked w H4) as (w1 & E1 & C1 & _).
      rewrite E1 in H. cbn [bind] in H. injection H as <- <- <-.
      destruct C1 as (_ & _ & _ & _ & Hc & Ht & _ & Hw & _). auto.
    + rewrite (leave_yellow_value w s Es) in H. cbn [bind] in H.
      injection H as <- <- <-. auto.
Qed.

Lemma consistent_metrics_move (tr : Image -> Z -> Image) (w : World)
    (d : Direction) (l : LaneId) (idx : nat) :
  spawned_in_past w -> consistent_metrics w ->
  consistent_metrics (move tr w d l idx).
Proof.
  intros Hsp Hm.
  destruct (nth_error (vehicles w d l) idx) as [v |] eqn:Ev;
    [| unfold move; rewrite Ev; exact Hm].
  destruct (move_result tr w d l idx v Ev)
    as (_ & _ & Hw & Hc & _ & Ht & _).
  destruct Hm as (Hsum & Hpos & Hcnt & Htime).
  unfold consistent_metrics. rewrite Hw, Hc, Ht.
  destruct (advance_forms tr w d idx (vehicles w d l) v)
    as [(_ & A) | [(_ & _ & A) | (_ & _ & A)]]; rewrite A; cbn [fst];
    try (repeat split; assumption).
  cbn [_mark_crossed fst waiting_times crossed_count spawn_time
       set_waiting_time].
  pose proof (Hsp d l v (nth_error_In _ _ Ev)) as Hs.
  refine (conj _ (conj _ (conj _ Htime))).
  - rewrite length_app. cbn [length].
    destruct d; cbn [Direction_eqb]; lia.
  - intros t Hin. apply in_app_or in Hin.
    destruct Hin as [Hin | [<- | []]]; [exact (Hpos t Hin) | lia].
  - intros d'. specialize (Hcnt d').
    destruct (Direction_eqb d d'); lia.
Qed.

Lemma consistent_metrics_reachable (tr : Image -> Z -> Image)
    (load_image : Direction -> VClass -> Image) (fl : Q -> Q) (st : System) :
  reachable tr load_image fl st -> consistent_metrics (world st).
Proof.
  induction 1 as [| st r _ IH | st _ IH | st d l idx R IH
                  | st ph' lo' w' R IH Hstep]; cbn [world].
  - unfold consistent_metrics. cbn.
    refine (conj eq_refl (conj _ (conj _ _))); try lia; intros t [].
  - exact IH.
  - destruct IH as (H1 & H2 & H3 & H4).
    unfold consistent_metrics. cbn [simulation_timer crossed_count
      waiting_times time_elapsed].
    refine (conj H1 (conj H2 (conj H3 _))). lia.
  - apply consistent_metrics_move; [| exact IH].
    apply (reachable_invariants tr load_image fl st R).
  - destruct (cycle_keeps_metrics fl st ph' lo' w'
                (reachable_scheduler_invariant tr load_image fl st R) Hstep)
      as (Hc & Hw & Ht).
    unfold consistent_metrics. rewrite Hc, Hw, Ht. exact IH.
Qed.

(** X17.  The report of [output_simulation_metrics] is consistent.  In
    every state the threads reach by steps that do not raise, the total of
    the report equals the number of recorded waiting times and no lane
    count is negative; the average and the maximum waiting time are absent
    exactly when no vehicle has crossed, and otherwise (computed exactly)
    the average lies between 0 and the maximum; the throughput is not
    negative; and the summary printed after the report goes through once
    the clock has ticked. *)
Theorem metrics_report_consistent (tr : Image -> Z -> Image)
    (load_image : Direction -> VClass -> Image) (fl : Q -> Q) (st : System)
    (H : reachable tr load_image fl st) :
  let m := fst (output_simulation_metrics (world st)) in
  total_vehicles_passed m = Z.of_nat (length (waiting_times (world st))) /\
  (forall c, In c (lane_counts m) -> (0 <= c)%Z) /\
  (average_waiting_time m = None <-> total_vehicles_passed m = 0%Z) /\
  (max_waiting_time m = None <-> total_vehicles_passed m = 0%Z) /\
  (forall a mx,
     average_waiting_time m = Some a -> max_waiting_time m = Some mx ->
     0 <= a /\ a <= inject_Z mx) /\
  0 <= vehicles_per_unit_time m /\
  ((0 < time_elapsed (world st))%Z ->
   snd (output_simulation_metrics (world st)) = true).
Proof.
  destruct (consistent_metrics_reachable tr load_image fl st H)
    as (Hsum & Hpos & Hcnt & Htime).
  set (w := world st) in *. cbn zeta.
  unfold output_simulation_metrics, make_metrics.
  cbn [fst snd total_vehicles_passed lane_counts average_waiting_time
       max_waiting_time vehicles_per_unit_time].
  assert (Htot : fold_left Z.add
                   (map (fun i => crossed_count w (DIRECTIONS i))
                      (seq 0 NO_OF_SIGNALS)) 0%Z
                 = Z.of_nat (length (waiting_times w))).
  { rewrite <- Hsum. cbn. lia. }
  rewrite Htot.
  refine (conj eq_refl (conj _ (conj _ (conj _ (conj _ (conj _ _)))))).
  - intros c Hc. apply in_map_iff in Hc. destruct Hc as (i & <- & _).
    apply Hcnt.
  - destruct (waiting_times w); cbn [length]; split;
      try reflexivity; try discriminate; lia.
  - destruct (waiting_times w); cbn [length]; split;
      try reflexivity; try discriminate; lia.
  - intros a mx Ha Hm.
    destruct (waiting_times w) as [| h t] eqn:E; [discriminate |].
    assert (Hb : forall u, In u (h :: t) -> (0 <= u <= max_of h t)%Z).
    { intros u Hu. split; [exact (Hpos u Hu) |].
      apply max_of_upper. exact Hu. }
    pose proof (sum_bounds _ _ Hb) as (S0 & S1).
    assert (Hlen : 0 < inject_Z (Z.of_nat (length (h :: t))))
      by (cbn [length]; unfold Qlt; simpl; lia).
    injection Ha as <-. injection Hm as <-.
    split.
    + apply Qle_shift_div_l; [exact Hlen |].
      rewrite Qmult_0_l. apply inject_Z_nonneg. exact S0.
    + apply Qle_shift_div_r; [exact Hlen |].
      rewrite <- inject_Z_mult, <- Zle_Qle.
      rewrite Z.mul_comm. exact S1.
  - destruct (Z.eqb_spec (time_elapsed w) 0) as [_ | Hne];
      [apply Qle_refl |].
    apply Qle_shift_div_l.
    + unfold Qlt. simpl. lia.
    + rewrite Qmult_0_l. apply inject_Z_nonneg. lia.
  - intros Hp. destruct (Z.eqb_spec (time_elapsed w) 0); [lia | reflexivity].
Qed.

(** A car spawned in the first round and moved once. *)
Lemma metrics_report_consistent_witness :
  reachable keep_rect (fun _ _ => sample_image) exact
    (mkSystem
       (move keep_rect
          (generate_vehicles (fun _ _ => sample_image) initial_world
             (mkDraws 0.5 0 L0 0 0))
          DRight L0 0)
       Selecting None) /\
  total_vehicles_passed
    (fst (output_simulation_metrics
            (move keep_rect
               (generate_vehicles (fun _ _ => sample_image) initial_world
                  (mkDraws 0.5 0 L0 0 0))
               DRight L0 0)))
  = Z.of_nat
      (length
         (waiting_times
            (move keep_rect
               (generate_vehicles (fun _ _ => sample_image) initial_world
                  (mkDraws 0.5 0 L0 0 0))
               DRight L0 0))).
Proof.
  assert (R : reachable keep_rect (fun _ _ => sample_image) exact
                (mkSystem
                   (move keep_rect
                      (generate_vehicles (fun _ _ => sample_image)
                         initial_world (mkDraws 0.5 0 L0 0 0))
                      DRight L0 0)
                   Selecting None)).
  { exact (reach_move _ _ _ _ DRight L0 0%nat
             (reach_generate _ _ _ _ (mkDraws 0.5 0 L0 0 0)
                (reach_start _ _ _))). }
  split; [exact R |].
  exact (proj1 (metrics_report_consistent _ _ _ _ R)).
Defined.

(** ** Shape of the green time as a function of the count *)

Lemma round_pow085_monotone (n m : Z) :
  (0 <= n <= m)%Z -> (round_pow085 n <= round_pow085 m)%Z.
Proof.
  intros Hnm.
  assert (Hn : (0 <= n)%Z) by lia.
  assert (Hm : (0 <= m)%Z) by lia.
  destruct (Z.le_gt_cases (round_pow085 n) (round_pow085 m)) as [L | G];
    [exact L | exfalso].
  assert (Rm0 : (0 <= round_pow085 m)%Z)
    by exact (proj1 (round_pow085_spec m Hm)).
  assert (B : (0 <= 2 * round_pow085 m + 1 <= 2 * round_pow085 n - 1)%Z)
    by lia.
  assert (Nz : round_pow085 n <> 0%Z) by lia.
  pose proof (Z.pow_le_mono_l _ _ 20 B) as P1.
  pose proof (Z.pow_le_mono_l _ _ 17 Hnm) as P0.
  pose proof (Z.mul_le_mono_nonneg_l _ _ (2 ^ 20)
                (Z.pow_nonneg 2 20 ltac:(discriminate)) P0) as P2.
  destruct (round_pow085_spec n Hn) as (_ & Rn1 & _).
  destruct (round_pow085_spec m Hm) as (_ & _ & Rm2).
  cbn zeta in *.
  destruct Rn1 as [Rn1 | Rn1]; [exact (Nz Rn1) |].
  apply (Z.lt_irrefl ((2 * round_pow085 n - 1) ^ 20)).
  eapply Z.lt_le_trans; [exact Rn1 |].
  eapply Z.le_trans; [exact P2 |].
  eapply Z.le_trans; [apply Z.lt_le_incl; exact Rm2 | exact P1].
Qed.

Lemma nonlinear_green_time_monotone (n m : Z) :
  (0 <= n <= m)%Z -> (nonlinear_green_time n <= nonlinear_green_time m)%Z.
Proof.
  intros H. pose proof (round_pow085_monotone n m H).
  unfold nonlinear_green_time, nonlinear_estimate, clamp_green,
    DEFAULT_MINIMUM, DEFAULT_MAXIMUM. lia.
Qed.

(** X18.  The green time grows with the waiting count and saturates.
    The time that the start of a green phase assigns never decreases when
    the count of waiting vehicles increases; it is the minimum, 10, exactly
    for the counts up to 2, and the maximum, 60, exactly for the counts
    from 104 on (with [count ** 0.85] rounded from its exact value). *)
Theorem green_time_monotone_saturating :
  (forall n m, (0 <= n <= m)%Z ->
     (nonlinear_green_time n <= nonlinear_green_time m)%Z) /\
  (forall n, (0 <= n)%Z ->
     (nonlinear_green_time n = DEFAULT_MINIMUM <-> (n <= 2)%Z) /\
     (nonlinear_green_time n = DEFAULT_MAXIMUM <-> (104 <= n)%Z)).
Proof.
  split; [exact nonlinear_green_time_monotone |].
  intros n Hn.
  assert (E2 : nonlinear_green_time 2 = 10%Z) by (vm_compute; reflexivity).
  assert (E3 : nonlinear_green_time 3 = 11%Z) by (vm_compute; reflexivity).
  assert (E103 : nonlinear_green_time 103 = 59%Z)
    by (vm_compute; reflexivity).
  assert (E104 : nonlinear_green_time 104 = 60%Z)
    by (vm_compute; reflexivity).
  pose proof (clamp_green_bounds (nonlinear_estimate n)) as B.
  fold (nonlinear_green_time n) in B.
  unfold DEFAULT_MINIMUM, DEFAULT_MAXIMUM in *.
  split; split; intros H.
  - destruct (Z.le_gt_cases n 2) as [L | G]; [exact L |].
    pose proof (nonlinear_green_time_monotone 3 n ltac:(lia)). lia.
  - pose proof (nonlinear_green_time_monotone n 2 ltac:(lia)). lia.
  - destruct (Z.le_gt_cases 104 n) as [L | G]; [exact L |].
    pose proof (nonlinear_green_time_monotone n 103 ltac:(lia)). lia.
  - pose proof (nonlinear_green_time_monotone 104 n ltac:(lia)). lia.
Qed.

(** ** After the crossing *)

Lemma crossed_motion_any_signal (tr : Image -> Z -> Image) (w w' : World)
    (d : Direction) (idx : nat) (lane_list : list Vehicle) (v : Vehicle) :
  crossed v = true ->
  move_by_direction tr w d idx lane_list v
  = move_by_direction tr w' d idx lane_list v.
Proof.
  intros Hc. destruct d; unfold_motion; rewrite Hc; cbn [negb orb];
    rewrite ?orb_true_r; reflexivity.
Qed.

(** X19.  A vehicle that has crossed ignores the signals.  Once a vehicle
    is flagged as crossed, what a step of [move] does to the queues does
    not depend on which approach is active nor on the yellow flag. *)
Theorem crossed_vehicle_ignores_signal (tr : Image -> Z -> Image)
    (w : World) (d : Direction) (l : LaneId) (idx : nat) (v : Vehicle)
    (Hv : nth_error (vehicles w d l) idx = Some v)
    (Hc : crossed v = true) :
  forall (g : nat) (yl : Z),
    vehicles (move tr (set_current_yellow (set_current_green w g) yl) d l idx)
    = vehicles (move tr w d l idx).
Proof.
  intros g yl. unfold move.
  cbn [vehicles set_current_yellow set_current_green]. rewrite Hv.
  unfold advance, _check_crossing. repeat (rewrite Hc; cbn [negb]).
  rewrite (crossed_motion_any_signal tr _ w d idx (vehicles w d l) v Hc).
  reflexivity.
Qed.

(** The rotating bus turns under any signal. *)
Lemma crossed_vehicle_ignores_signal_witness :
  nth_error (vehicles rotating_bus_world DRight L2) 0 = Some rotating_bus /\
  crossed rotating_bus = true /\
  forall (g : nat) (yl : Z),
    vehicles
      (move keep_rect
         (set_current_yellow (set_current_green rotating_bus_world g) yl)
         DRight L2 0)
    = vehicles (move keep_rect rotating_bus_world DRight L2 0).
Proof.
  split; [reflexivity |]. split; [reflexivity |].
  exact (crossed_vehicle_ignores_signal keep_rect rotating_bus_world DRight
           L2 0 rotating_bus eq_refl eq_refl).
Defined.

(** ** The selected approach *)

Lemma waiting_count_positive (w : World) (d : Direction) (v : Vehicle) :
  In v (approach_vehicles w d) -> crossed v = false ->
  (0 < waiting_count w d)%Z.
Proof.
  intros Hin Hc. unfold waiting_count.
  assert (Hf : In v (filter (fun u => negb (crossed u))
                       (approach_vehicles w d)))
    by (apply filter_In; split; [exact Hin | rewrite Hc; reflexivity]).
  destruct (filter _ _); [destruct Hf | cbn [length]; lia].
Qed.

(** X20.  Green goes to an approach with waiting vehicles only.
    Whatever the rounding of the scores, the approach that the selection
    returns, by the emergency override or by priority, is one of the four
    and has at least one vehicle that has not crossed. *)
Theorem green_only_for_waiting_approach (fl : Q -> Q) (w : World)
    (lo lo' : Locals) (lane : nat)
    (H : selection fl w lo = Some (lane, lo')) :
  (lane < NO_OF_SIGNALS)%nat /\ (0 < waiting_count w (DIRECTIONS lane))%Z.
Proof.
  unfold selection in H.
  pose proof (scan_emergencies_invariant w) as I.
  destruct (scan_emergencies w) as [[t |] [k |]] eqn:E; cbn [snd] in H;
    try contradiction.
  - injection H as <- <-.
    destruct (emergency_scan_minimal fl w t k E)
      as (_ & Hl & (v & Hv & He & _) & _).
    split; [exact Hl |].
    apply (waiting_count_positive w _ v Hv).
    unfold is_waiting_emergency in He. apply andb_true_iff in He.
    destruct He as (He & _). now apply negb_true_iff in He.
  - destruct (priorities fl w) as [| p rest] eqn:P; [discriminate |].
    injection H as <- <-.
    assert (Hp : In p (priorities fl w)) by (rewrite P; left; reflexivity).
    unfold priorities in Hp. apply (proj1 (sort_reverse_in _ _)) in Hp.
    apply filter_In in Hp. destruct Hp as (Hp & Hpos).
    apply in_map_iff in Hp. destruct Hp as (i & <- & Hi).
    apply in_seq in Hi.
    cbn [tuple_lane tuple_priority priority_tuple fst snd] in *.
    split; [lia |].
    unfold priority_of in Hpos.
    destruct (Z.gtb_spec (waiting_count w (DIRECTIONS i)) 0) as [G | G];
      [lia | discriminate Hpos].
Qed.

Lemma green_only_for_waiting_approach_witness :
  selection exact tied_world None = Some (1%nat, Some (1, 10)%Z) /\
  (1 < NO_OF_SIGNALS)%nat /\ (0 < waiting_count tied_world (DIRECTIONS 1))%Z.
Proof.
  assert (H : selection exact tied_world None
              = Some (1%nat, Some (1, 10)%Z)) by (vm_compute; reflexivity).
  split; [exact H |].
  exact (green_only_for_waiting_approach exact tied_world None _ 1 H).
Defined.

(** ** A whole cycle of the scheduler *)

Lemma nonlinear_green_time_bounds (n : Z) :
  (10 <= nonlinear_green_time n <= 60)%Z.
Proof. exact (clamp_green_bounds (nonlinear_estimate n)). Qed.

(** X21.  A whole cycle.  From a selection that returns an approach with
    the locals of the print bound, the scheduler on its own is back at the
    selection after [g + y + 3] steps, where [g] is the green time sized
    from the waiting count of the approach and [y] the yellow counter of its
    signal: one step for the selection, [g] rounds of green, one step into
    yellow, [y] rounds of yellow and one step out of it.  The signal of the
    approach then has its red and yellow counters at their defaults, a green
    counter of 0 and [g] more seconds of total green time; every other
    signal has counted its red down by [g + y] (not below 0); the approach
    was last served at the tick of the selection; and the only change to the
    vehicles is the reset of the stop positions of the approach. *)
Theorem whole_cycle (fl : Q -> Q) (w : World) (lo : Locals) (lane : nat)
    (m : Z * Z) (s : TrafficSignal)
    (H4 : four_signals w)
    (Hy : current_yellow w = 0%Z)
    (Hsel : selection fl w lo = Some (lane, Some m))
    (Hs : nth_error (signals w) lane = Some s)
    (Hys : (0 < yellow s)%Z) :
  let g := nonlinear_green_time (waiting_count w (DIRECTIONS lane)) in
  exists w',
    run_cycle fl (Z.to_nat g + Z.to_nat (yellow s) + 3) Selecting lo w
    = Some (Selecting, Some m, w') /\
    current_green w' = lane /\ current_yellow w' = 0%Z /\
    nth_error (signals w') lane
    = Some (mkSignal DEFAULT_RED DEFAULT_YELLOW 0 (minimum s) (maximum s)
              (total_green_time s + g)) /\
    (forall j sj, j <> lane -> nth_error (signals w) j = Some sj ->
       exists sj', nth_error (signals w') j = Some sj' /\
                   red sj' = Z.max 0 (red sj - (g + yellow s)) /\
                   yellow sj' = yellow sj /\
                   total_green_time sj' = total_green_time sj) /\
    nth lane (lane_last_green_time w') 0%Z = time_elapsed w /\
    (forall d l,
       vehicles w' d l
       = if Direction_eqb (DIRECTIONS lane) d
         then map (fun v => set_stop v (DEFAULT_STOPS (DIRECTIONS lane)))
                (vehicles w d l)
         else vehicles w d l) /\
    time_elapsed w' = time_elapsed w /\
    crossed_count w' = crossed_count w /\ waiting_times w' = waiting_times w.
Proof.
  cbn zeta.
  set (g := nonlinear_green_time (waiting_count w (DIRECTIONS lane))).
  pose proof (nonlinear_green_time_bounds (waiting_count w (DIRECTIONS lane)))
    as Hg. fold g in Hg.
  pose proof H4 as (L4 & Ll & Lg).
  assert (Hlane : (lane < NO_OF_SIGNALS)%nat)
    by (rewrite <- L4; apply nth_error_Some; congruence).
  destruct (nth_error_some_of_lt (lane_last_green_time w) lane
              ltac:(lia)) as (t & Et).
  (* the selection *)
  pose proof (start_green_value w lane m s t Hs Et) as E1. fold g in E1.
  set (w1 := mkWorld _ _ _ _ _ _ _ _) in E1.
  set (s1 := mkSignal DEFAULT_RED (yellow s) g (minimum s) (maximum s)
               (total_green_time s)) in *.
  assert (S1 : nth_error (signals w1) (current_green w1) = Some s1)
    by apply (nth_error_replace_at_eq _ _ _ _ Hs).
  assert (H41 : four_signals w1).
  { unfold four_signals, w1.
    cbn [signals lane_last_green_time current_green].
    rewrite !length_replace_at. auto. }
  (* the green loop *)
  destruct (green_rounds fl (Some m) (Z.to_nat g - 1) w1 s1 H41 Hy S1)
    as (w2 & E2 & C2 & S2); [cbn [green s1]; lia |].
  replace (S (Z.to_nat g - 1)) with (Z.to_nat g) in * by lia.
  rewrite Z2Nat.id in * by lia.
  cbn [red yellow green minimum maximum total_green_time s1] in S2.
  replace (g - g)%Z with 0%Z in S2 by lia.
  destruct C2 as (H42 & Hg2 & Hy2 & Hv2 & Hc2 & Ht2 & Hl2 & Hw2 & Ho2).
  change (current_green w1) with lane in *.
  (* the yellow loop *)
  set (s2 := mkSignal DEFAULT_RED (yellow s) 0 (minimum s) (maximum s)
               (total_green_time s + g)) in *.
  set (w3 := enter_yellow w2).
  assert (H43 : four_signals w3) by exact H42.
  assert (Hy3 : current_yellow w3 <> 0%Z) by (cbn; discriminate).
  assert (S3 : nth_error (signals w3) (current_green w3) = Some s2)
    by (cbn [w3 enter_yellow signals current_green set_vehicles
             set_current_yellow]; rewrite Hg2; exact S2).
  destruct (yellow_rounds fl (Some m) (Z.to_nat (yellow s) - 1) w3 s2
              H43 Hy3 S3) as (w4 & E4 & C4 & S4); [cbn [yellow s2]; lia |].
  replace (S (Z.to_nat (yellow s) - 1)) with (Z.to_nat (yellow s)) in *
    by lia.
  cbn [yellow s2] in C4, S4. rewrite Z2Nat.id in C4, S4 by lia.
  replace (yellow s - yellow s)%Z with 0%Z in S4 by lia.
  destruct C4 as (H44 & Hg4 & Hy4 & Hv4 & Hc4 & Ht4 & Hl4 & Hw4 & Ho4).
  assert (Hg3 : current_green w3 = lane) by exact Hg2.
  rewrite Hg3 in *.
  assert (S4' : nth_error (signals w4) (current_green w4)
                = Some (set_yellow s2 0)) by (rewrite Hg4; exact S4).
  pose proof (leave_yellow_value w4 _ S4') as E5.
  cbn [green minimum maximum total_green_time set_yellow s2] in E5.
  set (w5 := mkWorld _ _ _ _ _ _ _ _) in E5.
  exists w5. split.
  - replace (Z.to_nat g + Z.to_nat (yellow s) + 3)%nat
      with (1 + (Z.to_nat g + (1 + (Z.to_nat (yellow s) + 1))))%nat by lia.
    rewrite run_cycle_add.
    assert (R1 : run_cycle fl 1 Selecting lo w = Some (Green, Some m, w1)).
    { cbn [run_cycle repeat_signal_cycle]. rewrite Hsel, E1. reflexivity. }
    rewrite R1, run_cycle_add, E2, run_cycle_add.
    assert (R3 : run_cycle fl 1 Green (Some m) w2
                 = Some (Yellow, Some m, w3)).
    { cbn [run_cycle repeat_signal_cycle]. rewrite Hg2, S2. reflexivity. }
    rewrite R3, run_cycle_add, E4.
    cbn [run_cycle repeat_signal_cycle]. rewrite S4'. cbn [yellow set_yellow].
    cbn [Z.gtb Z.compare]. rewrite E5. reflexivity.
  - unfold w5.
    cbn [vehicles crossed_count signals time_elapsed current_green
         current_yellow lane_last_green_time waiting_times].
    rewrite Hg4.
    split; [reflexivity |]. split; [reflexivity |].
    split; [apply (nth_error_replace_at_eq _ _ _ _ S4) |].
    split; [| split; [| split; [| split; [| split]]]].
    + intros j sj Hj Hsj.
      assert (Hsj1 : nth_error (signals w1) j = Some sj).
      { unfold w1. cbn [signals].
        rewrite nth_error_replace_at_neq by congruence. exact Hsj. }
      destruct (Ho2 j sj Hj Hsj1) as (a & Ea & Ra & Ya & Ta & _).
      destruct (Ho4 j a Hj Ea) as (b & Eb & Rb & Yb & Tb & _).
      exists b. rewrite nth_error_replace_at_neq by congruence.
      split; [exact Eb |]. split; [lia |]. split; congruence.
    + rewrite Hl4. cbn [w3 enter_yellow lane_last_green_time set_vehicles
        set_current_yellow]. rewrite Hl2. unfold w1.
      cbn [lane_last_green_time].
      apply nth_replace_at_same. lia.
    + intros d l. rewrite Hv4.
      cbn [w3 enter_yellow vehicles set_vehicles set_current_yellow].
      rewrite Hg2, Hv2. reflexivity.
    + rewrite Ht4. cbn [w3 enter_yellow time_elapsed set_vehicles
        set_current_yellow]. rewrite Ht2. reflexivity.
    + rewrite Hc4. cbn [w3 enter_yellow crossed_count set_vehicles
        set_current_yellow]. rewrite Hc2. reflexivity.
    + rewrite Hw4. cbn [w3 enter_yellow waiting_times set_vehicles
        set_current_yellow]. rewrite Hw2. reflexivity.
Qed.

(** The second approach of [tied_world] is selected, with one waiting
    car: 10 seconds of green and 5 of yellow. *)
Lemma whole_cycle_witness :
  four_signals tied_world /\
  current_yellow tied_world = 0%Z /\
  selection exact tied_world None = Some (1%nat, Some (1, 10)%Z) /\
  nth_error (signals tied_world) 1 = Some (mkSignal 25 5 20 10 60 0) /\
  (0 < yellow (mkSignal 25 5 20 10 60 0))%Z /\
  exists w',
    run_cycle exact 18 Selecting None tied_world
    = Some (Selecting, Some (1, 10)%Z, w') /\
    current_green w' = 1%nat /\ current_yellow w' = 0%Z /\
    nth_error (signals w') 1
    = Some (mkSignal DEFAULT_RED DEFAULT_YELLOW 0 10 60 10).
Proof.
  assert (H4 : four_signals tied_world)
    by (repeat split; unfold NO_OF_SIGNALS; simpl; lia).
  assert (Hsel : selection exact tied_world None
                 = Some (1%nat, Some (1, 10)%Z))
    by (vm_compute; reflexivity).
  assert (Hs : nth_error (signals tied_world) 1
               = Some (mkSignal 25 5 20 10 60 0)) by reflexivity.
  assert (Hys : (0 < yellow (mkSignal 25 5 20 10 60 0))%Z) by (simpl; lia).
  split; [exact H4 |]. split; [reflexivity |]. split; [exact Hsel |].
  split; [exact Hs |]. split; [exact Hys |].
  destruct (whole_cycle exact tied_world None 1 (1, 10)%Z _ H4 eq_refl
              Hsel Hs Hys) as (w' & E & G & Y & S1 & _).
  exists w'. split; [exact E |]. split; [exact G |]. split; [exact Y |].
  exact S1.
Defined.

(** ** After the end of the scheduler thread *)

Lemma without_scheduler_frame (tr : Image -> Z -> Image)
    (load_image : Direction -> VClass -> Image) (w w' : World) :
  runs_without_scheduler tr load_image w w' ->
  signals w' = signals w /\ current_green w' = current_green w /\
  current_yellow w' = current_yellow w /\
  lane_last_green_time w' = lane_last_green_time w.
Proof.
  induction 1 as [| w' r _ IH | w' _ IH | w' d l idx _ IH].
  - auto.
  - exact IH.
  - exact IH.
  - destruct (move_signal_frame tr w' d l idx) as (E1 & _ & E3 & E4 & E5).
    destruct IH as (I1 & I2 & I3 & I4).
    rewrite E1, E3, E4, E5. auto.
Qed.

(** X22.  The world the scheduler leaves behind.  When the print after
    the selection raises (an emergency vehicle waits and the locals of the
    print are still unbound), the assignments made before the print stay:
    the selected approach is the active one, with the yellow flag clear and
    its red counter at [DEFAULT_RED].  From then on, whatever the generator,
    the clock and the vehicles do, the signals are never written again: the
    selected approach holds green for good and no other approach ever
    does. *)
Theorem dead_scheduler_leaves_green (tr : Image -> Z -> Image)
    (load_image : Direction -> VClass -> Image) (fl : Q -> Q) (st : System)
    (i : nat) (v : Vehicle)
    (H : reachable tr load_image fl st)
    (Hp : phase st = Selecting)
    (Hl : locals_of st = None)
    (Hi : (i < NO_OF_SIGNALS)%nat)
    (Hv : In v (approach_vehicles (world st) (DIRECTIONS i)))
    (He : is_waiting_emergency v = true) :
  exists lane w3,
    selection fl (world st) None = Some (lane, None) /\
    repeat_signal_cycle fl Selecting None (world st) = None /\
    before_print (world st) lane = Some w3 /\
    (exists s, nth_error (signals w3) lane = Some s /\ red s = DEFAULT_RED) /\
    vehicles w3 = vehicles (world st) /\
    forall w', runs_without_scheduler tr load_image w3 w' ->
      signals w' = signals w3 /\
      forall k, holds_green w' k = (k =? lane)%nat.
Proof.
  destruct (reachable_scheduler_invariant tr load_image fl st H)
    as ((L4 & Ll & Lg) & _ & Hy).
  rewrite Hp in Hy.
  destruct (emergency_override_fires (world st) i v Hi Hv He)
    as (t & lane & E).
  destruct (emergency_scan_minimal fl (world st) t lane E)
    as (_ & Hlane & _).
  destruct (nth_error_some_of_lt (signals (world st)) lane ltac:(lia))
    as (s & Es).
  destruct (nth_error_some_of_lt (lane_last_green_time (world st)) lane
              ltac:(lia)) as (t0 & Et).
  assert (Hsel : selection fl (world st) None = Some (lane, None))
    by (unfold selection; rewrite E; reflexivity).
  exists lane. eexists. split; [exact Hsel |]. split; [| split].
  - cbn [repeat_signal_cycle]. rewrite Hsel, start_green_unbound.
    reflexivity.
  - unfold before_print, modify_signal, set_last_green. rewrite Es.
    cbn [bind set_current_green set_signals current_green
      lane_last_green_time time_elapsed]. rewrite Et. reflexivity.
  - cbn [vehicles crossed_count signals time_elapsed current_green
         current_yellow lane_last_green_time waiting_times set_signals
         set_current_green].
    split; [| split; [reflexivity |]].
    + eexists. split; [apply (nth_error_replace_at_eq _ _ _ _ Es) |].
      reflexivity.
    + intros w' R.
      destruct (without_scheduler_frame tr load_image _ w' R)
        as (F1 & F2 & F3 & _).
      split; [exact F1 |]. intros k. unfold holds_green.
      rewrite F2, F3.
      cbn [current_green current_yellow set_current_green set_signals].
      rewrite Hy.
      cbn [Z.eqb andb]. rewrite andb_true_r. apply Nat.eqb_sym.
Qed.

(** An emergency vehicle is the first vehicle of the run, and a car
    follows on the second approach. *)
Lemma dead_scheduler_leaves_green_witness :
  reachable keep_rect (fun _ _ => sample_image) exact
    (mkSystem
       (generate_vehicles (fun _ _ => sample_image) initial_world
          (mkDraws 0.01 0 L0 0 0))
       Selecting None) /\
  exists lane w3,
    before_print
      (generate_vehicles (fun _ _ => sample_image) initial_world
         (mkDraws 0.01 0 L0 0 0)) lane = Some w3 /\
    forall k,
      holds_green
        (generate_vehicles (fun _ _ => sample_image) w3
           (mkDraws 0.5 0 L0 1 0)) k
      = (k =? lane)%nat.
Proof.
  assert (R : reachable keep_rect (fun _ _ => sample_image) exact
                (mkSystem
                   (generate_vehicles (fun _ _ => sample_image) initial_world
                      (mkDraws 0.01 0 L0 0 0))
                   Selecting None)).
  { exact (reach_generate _ _ _ _ (mkDraws 0.01 0 L0 0 0)
             (reach_start _ _ _)). }
  split; [exact R |].
  assert (Hi : (0 < NO_OF_SIGNALS)%nat) by (unfold NO_OF_SIGNALS; lia).
  destruct (dead_scheduler_leaves_green keep_rect (fun _ _ => sample_image)
              exact _ 0
              (mkVehicle emergency 0 348 false false false 0 0 0 None
                 sample_image sample_image 580)
              R eq_refl eq_refl Hi (or_introl eq_refl) eq_refl)
    as (lane & w3 & _ & _ & B & _ & _ & F).
  exists lane, w3. split; [exact B |].
  intros k.
  exact (proj2 (F _ (without_generate _ _ _ _ (mkDraws 0.5 0 L0 1 0)
                       (without_start _ _ _))) k).
Defined.

(** ** The crossing transition against the stop line *)

(** The test of [_check_crossing] holds exactly of the vehicles whose
    leading edge is beyond the stop line. *)
Lemma past_stop_line_beyond (d : Direction) (v : Vehicle) :
  past_stop_line d v = true <-> beyond_stop_line d v.
Proof.
  destruct d; cbn [past_stop_line beyond_stop_line]; apply Qltb_lt.
Qed.

Lemma past_stop_line_not_beyond (d : Direction) (v : Vehicle) :
  past_stop_line d v = false <-> ~ beyond_stop_line d v.
Proof.
  split.
  - intros H B. apply past_stop_line_beyond in B. congruence.
  - intros H. destruct (past_stop_line d v) eqn:E; [| reflexivity].
    apply past_stop_line_beyond in E. contradiction.
Qed.

(** C6.  In a call of [move], a vehicle already flagged as crossed keeps
    its flag and its crossing tick, and no metric is recorded again.  A
    vehicle not yet flagged whose leading edge is beyond the stop line of
    its direction ([x + width > 590] for right, [y + height > 330] for
    down, [x < 800] for left, [y < 535] for up) is flagged in this call:
    its crossing tick is the current tick, the difference to its spawn tick
    is appended to the wait-time series, the crossed counter of its
    approach, and of no other, goes up by one, and the crossing tick is not
    before the spawn tick.  A vehicle not yet flagged whose leading edge is
    not beyond the line stays unflagged, and nothing is recorded. *)
Theorem crossing_transition (tr : Image -> Z -> Image) (w : World)
    (d : Direction) (l : LaneId) (idx : nat) (v : Vehicle)
    (Hv : nth_error (vehicles w d l) idx = Some v)
    (Ht : (spawn_time v <= time_elapsed w)%Z) :
  let w' := move tr w d l idx in
  exists r,
    vehicles w' d l = put_back idx (vehicles w d l) r /\
    (crossed v = true ->
       waiting_times w' = waiting_times w /\
       crossed_count w' = crossed_count w /\
       (forall v', r = Some v' ->
          crossed v' = true /\ cross_time v' = cross_time v)) /\
    (crossed v = false -> beyond_stop_line d v ->
       waiting_times w'
         = waiting_times w ++ [(time_elapsed w - spawn_time v)%Z] /\
       crossed_count w' d = (crossed_count w d + 1)%Z /\
       (forall d', d' <> d -> crossed_count w' d' = crossed_count w d') /\
       (forall v', r = Some v' ->
          crossed v' = true /\ cross_time v' = Some (time_elapsed w) /\
          spawn_time v' = spawn_time v /\
          (spawn_time v' <= time_elapsed w)%Z)) /\
    (crossed v = false -> ~ beyond_stop_line d v ->
       waiting_times w' = waiting_times w /\
       crossed_count w' = crossed_count w /\
       (forall v', r = Some v' ->
          crossed v' = false /\ cross_time v' = cross_time v)).
Proof.
  cbn zeta.
  destruct (crossing_by_test tr w d l idx v Hv Ht) as (r & Hq & H).
  cbn zeta in Hq, H.
  exists r. split; [exact Hq |].
  split; [| split].
  - intros C. rewrite C in H. exact H.
  - intros C D. apply past_stop_line_beyond in D.
    rewrite C, D in H. exact H.
  - intros C D. apply past_stop_line_not_beyond in D.
    rewrite C, D in H. exact H.
Qed.

(** A car spawned at tick 0 whose leading edge stands at 590.85 at tick
    10: the call flags it, records the wait of 10 ticks and counts it for
    the first approach. *)
Lemma crossing_transition_witness :
  nth_error (vehicles crossing_world DRight L0) 0 = Some crossing_car /\
  (spawn_time crossing_car <= time_elapsed crossing_world)%Z /\
  crossed crossing_car = false /\
  STOP_LINES DRight = 590 /\
  x crossing_car + rect_w crossing_car == 590 + (17 # 20) /\
  beyond_stop_line DRight crossing_car /\
  waiting_times (move keep_rect crossing_world DRight L0 0) = [10%Z] /\
  crossed_count (move keep_rect crossing_world DRight L0 0) DRight = 1%Z /\
  (forall d', d' <> DRight ->
     crossed_count (move keep_rect crossing_world DRight L0 0) d' = 0%Z) /\
  exists v',
    vehicles (move keep_rect crossing_world DRight L0 0) DRight L0 = [v'] /\
    crossed v' = true /\ cross_time v' = Some 10%Z /\ spawn_time v' = 0%Z.
Proof.
  assert (Ht : (spawn_time crossing_car <= time_elapsed crossing_world)%Z)
    by (vm_compute; discriminate).
  assert (Hd : beyond_stop_line DRight crossing_car)
    by (vm_compute; reflexivity).
  split; [reflexivity |]. split; [exact Ht |]. split; [reflexivity |].
  split; [reflexivity |]. split; [vm_compute; reflexivity |].
  split; [exact Hd |].
  destruct (crossing_transition keep_rect crossing_world DRight L0 0
              crossing_car eq_refl Ht)
    as (r & Hq & _ & Hcross & _).
  destruct (Hcross eq_refl Hd) as (Hw & Hc & Ho & Hr).
  split; [exact Hw |]. split; [exact Hc |]. split; [exact Ho |].
  destruct r as [v' |].
  - exists v'. split; [exact Hq |]. destruct (Hr v' eq_refl) as (A & B & C & _).
    auto.
  - exfalso. cbn in Hq. vm_compute in Hq. discriminate Hq.
Defined.

(** ** The rotation phase *)

(** A vehicle whose leading edge has reached the turn midpoint is beyond
    the stop line. *)
Lemma trigger_beyond_stop_line (d : Direction) (v : Vehicle) :
  d <> DLeft -> past_turn_trigger d v -> past_stop_line d v = true.
Proof.
  intros Hd H. destruct d; try congruence;
    cbn [past_turn_trigger past_stop_line TURN_MIDPOINTS_x TURN_MIDPOINTS_y
         STOP_LINES] in *; apply Qltb_lt; lra.
Qed.

(** The motion of a vehicle that is flagged as crossed: the diagonal step
    in the rotation phase and in no other case. *)
Lemma crossed_motion_cases (tr : Image -> Z -> Image) (W : World)
    (d : Direction) (idx : nat) (lane_list : list Vehicle) (V : Vehicle) :
  crossed V = true ->
  let r := fst (move_by_direction tr W d idx lane_list V) in
  (in_rotation_phase d V /\
   r = Some (rotation_step tr V (fst (turn_displacement d))
               (snd (turn_displacement d)))) \/
  (~ in_rotation_phase d V /\
   (r = Some V \/ r = Some (forward d V) \/ r = Some (sideways d V) \/
    r = None)).
Proof.
  intros Hc. cbn zeta. unfold in_rotation_phase.
  destruct d; unfold_motion; unfold keep; rewrite Hc; cbn [negb orb].
  - (* right *)
    destruct (will_turn V) eqn:Tw.
    2:{ right. split; [intros (_ & F & _); discriminate F |].
        destruct (_ && _); cbn [fst]; auto. }
    destruct (x V + rect_w V <? TURN_MIDPOINTS_x DRight) eqn:T.
    { right. split.
      - intros (_ & _ & _ & P). apply Qltb_lt in T.
        cbn [past_turn_trigger] in P. lra.
      - destruct (_ && _); cbn [fst]; auto. }
    apply Qltb_ge in T.
    destruct (turned V) eqn:Tn; cbn [negb].
    { right. split; [intros (_ & _ & F & _); discriminate F |].
      destruct (ahead_clear _ _ _); cbn [fst]; auto. }
    left. split; [| reflexivity].
    split; [discriminate |]. auto.
  - (* down *)
    destruct (will_turn V) eqn:Tw.
    2:{ right. split; [intros (_ & F & _); discriminate F |].
        destruct (_ && _); cbn [fst]; auto. }
    destruct (y V + rect_h V <? TURN_MIDPOINTS_y DDown) eqn:T.
    { right. split.
      - intros (_ & _ & _ & P). apply Qltb_lt in T.
        cbn [past_turn_trigger] in P. lra.
      - destruct (_ && _); cbn [fst]; auto. }
    apply Qltb_ge in T.
    destruct (turned V) eqn:Tn; cbn [negb].
    { right. split; [intros (_ & _ & F & _); discriminate F |].
      destruct (ahead_clear _ _ _); cbn [fst]; auto. }
    left. split; [| reflexivity].
    split; [discriminate |]. auto.
  - (* left *)
    right. split; [intros (F & _); congruence |].
    destruct (match find_ahead idx lane_list with
              | Some a => _
              | None => true
              end); cbn [fst]; auto.
    destruct (_ <? _); cbn [fst]; auto.
  - (* up *)
    destruct (will_turn V) eqn:Tw.
    2:{ right. split; [intros (_ & F & _); discriminate F |].
        destruct (_ && _); cbn [fst]; auto. }
    destruct (y V >? TURN_MIDPOINTS_y DUp) eqn:T.
    { right. split.
      - intros (_ & _ & _ & P). apply Qltb_lt in T.
        cbn [past_turn_trigger] in P. lra.
      - destruct (_ && _); cbn [fst]; auto. }
    apply Qltb_ge in T.
    destruct (turned V) eqn:Tn; cbn [negb].
    { right. split; [intros (_ & _ & F & _); discriminate F |].
      destruct (ahead_clear _ _ _); cbn [fst]; auto. }
    left. split; [| reflexivity].
    split; [discriminate |]. auto.
Qed.

(** The steps outside the rotation phase keep the position or change one
    coordinate by the class speed. *)
Lemma plain_step (d : Direction) (v V v' : Vehicle) :
  x V = x v -> y V = y v -> vehicle_class V = vehicle_class v ->
  v' = V \/ v' = forward d V \/ v' = sideways d V ->
  same_position v v' \/ speed_step v v'.
Proof.
  intros Hx Hy Hc [-> | [-> | ->]].
  - left. split; assumption.
  - right. unfold speed_step.
    destruct d; cbn; unfold speed; rewrite ?Hx, ?Hy, ?Hc; auto.
  - right. unfold speed_step.
    destruct d; cbn; unfold speed; rewrite ?Hx, ?Hy, ?Hc; auto.
Qed.

(** The displacement, the flag and the angle after one rotation step. *)
Lemma rotation_step_effect (tr : Image -> Z -> Image) (d : Direction)
    (v V : Vehicle) :
  x V = x v -> y V = y v -> rotate_angle V = rotate_angle v ->
  let v' := rotation_step tr V (fst (turn_displacement d))
              (snd (turn_displacement d)) in
  rotation_move d v v' /\ crossed v' = crossed V /\
  rotate_angle v' = (rotate_angle v + ROTATION_ANGLE)%Z.
Proof.
  intros Hx Hy Ha. cbn zeta. unfold rotation_move, rotation_step.
  destruct (rotate_angle V + ROTATION_ANGLE =? 90)%Z;
    destruct d; cbn; rewrite Hx, Hy, Ha; repeat split.
Qed.

(** C5 (as amended).  The rotation phase of a vehicle is: direction right,
    down or up, meant to turn, leading edge at or beyond the turn midpoint
    of the direction ([TURN_MIDPOINTS]), turn not completed.  A call of
    [move] on a vehicle in its rotation phase displaces it by the fixed
    diagonal step of its direction, (+2, +1.8), (-2.5, +2) or (+1, -1),
    whatever its class speed, adds [ROTATION_ANGLE] to its angle and leaves
    it flagged as crossed.  A call of [move] on any other vehicle leaves
    the position unchanged or changes one coordinate by exactly the class
    speed, when the vehicle stays in its queue. *)
Theorem motion_step_shape (tr : Image -> Z -> Image) (w : World)
    (d : Direction) (l : LaneId) (idx : nat) (v : Vehicle)
    (Hv : nth_error (vehicles w d l) idx = Some v) :
  exists r,
    vehicles (move tr w d l idx) d l = put_back idx (vehicles w d l) r /\
    (in_rotation_phase d v ->
       exists v',
         r = Some v' /\ rotation_move d v v' /\ crossed v' = true /\
         rotate_angle v' = (rotate_angle v + ROTATION_ANGLE)%Z) /\
    (~ in_rotation_phase d v ->
       forall v', r = Some v' -> same_position v v' \/ speed_step v v').
Proof.
  destruct (move_result tr w d l idx v Hv) as (Hq & _).
  exists (snd (advance tr w d idx (vehicles w d l) v)).
  split; [exact Hq |].
  destruct (advance_forms tr w d idx (vehicles w d l) v)
    as [(C & E) | [(C & P & E) | (C & P & E)]]; rewrite E; cbn [snd].
  - (* flagged before the call *)
    destruct (crossed_motion_cases tr w d idx (vehicles w d l) v C)
      as [(Ph & R) | (Ph & R)]; cbn zeta in R.
    + split; [| intros F; contradiction].
      intros _. eexists. split; [exact R |].
      destruct (rotation_step_effect tr d v v eq_refl eq_refl eq_refl)
        as (M & Cr & A).
      cbn zeta in *. rewrite Cr. auto.
    + split; [intros F; contradiction |].
      intros _ v' Hr. apply (plain_step d v v v'); try reflexivity.
      destruct R as [R | [R | [R | R]]]; rewrite R in Hr;
        try discriminate Hr; injection Hr as <-; auto.
  - (* not flagged, not beyond the stop line *)
    assert (Ph : ~ in_rotation_phase d v).
    { intros (Hd & _ & _ & T).
      rewrite (trigger_beyond_stop_line d v Hd T) in P. discriminate P. }
    split; [intros F; contradiction |].
    intros _ v' Hr.
    apply (plain_step d v (set_waiting_time v (waiting_time v + 1)) v');
      try reflexivity.
    destruct (uncrossed_motion tr w d idx (vehicles w d l)
                (set_waiting_time v (waiting_time v + 1)) C)
      as [O | (O & _)]; cbn zeta in O; rewrite O in Hr;
      injection Hr as <-; auto.
  - (* flagged in this call *)
    set (V := set_crossed (set_waiting_time v (waiting_time v + 1))
                (time_elapsed w)).
    set (W := fst (_mark_crossed w d
                     (set_waiting_time v (waiting_time v + 1)))).
    assert (Same : in_rotation_phase d V <-> in_rotation_phase d v).
    { unfold in_rotation_phase. destruct d; cbn; tauto. }
    destruct (crossed_motion_cases tr W d idx (vehicles w d l) V eq_refl)
      as [(Ph & R) | (Ph & R)]; cbn zeta in R.
    + split; [| intros F; apply Same in Ph; contradiction].
      intros _. eexists. split; [exact R |].
      destruct (rotation_step_effect tr d v V eq_refl eq_refl eq_refl)
        as (M & Cr & A).
      cbn zeta in *. rewrite Cr. auto.
    + split; [intros F; apply Same in F; contradiction |].
      intros _ v' Hr. apply (plain_step d v V v'); try reflexivity.
      destruct R as [R | [R | [R | R]]]; rewrite R in Hr;
        try discriminate Hr; injection Hr as <-; auto.
Qed.

(** A bus of the first approach at the turn midpoint: the call moves it by
    (+2, +1.8), its class speed being 0.6. *)
Lemma motion_step_shape_witness :
  nth_error (vehicles rotating_bus_world DRight L2) 0 = Some rotating_bus /\
  in_rotation_phase DRight rotating_bus /\
  exists v',
    vehicles (move keep_rect rotating_bus_world DRight L2 0) DRight L2
      = [v'] /\
    x v' = x rotating_bus + 2 /\ y v' = y rotating_bus + 1.8 /\
    crossed v' = true /\ rotate_angle v' = 3%Z.
Proof.
  assert (Ph : in_rotation_phase DRight rotating_bus).
  { split; [discriminate |]. split; [reflexivity |].
    split; [reflexivity |]. cbn. unfold Qle. simpl. lia. }
  split; [reflexivity |]. split; [exact Ph |].
  destruct (motion_step_shape keep_rect rotating_bus_world DRight L2 0
              rotating_bus eq_refl)
    as (r & Hq & Hrot & _).
  destruct (Hrot Ph) as (v' & -> & (Mx & My) & Cr & A).
  exists v'. split; [exact Hq |]. auto.
Defined.

(** ** The sizing at a first emergency override *)

(** C3.  The sizing is not reached when the first selection of a run is an
    emergency override.  The first round of the generator has put an
    emergency vehicle on the first approach (draw 0.01 < 0.015); the
    waiting count of the approach is 1, for which the sized green time is
    10.  The selection takes the override and leaves [max_waiting] unbound;
    the assignments before the print make the approach the active one, the
    print raises, and the step of the scheduler ends there: the green
    duration of the signal stays [DEFAULT_GREEN] = 20. *)
Theorem sizing_skipped_at_first_override :
  reachable keep_rect (fun _ _ => sample_image) exact
    (mkSystem first_emergency_world Selecting None) /\
  waiting_count first_emergency_world (DIRECTIONS 0) = 1%Z /\
  nonlinear_green_time 1 = 10%Z /\
  (forall fl, selection fl first_emergency_world None = Some (0%nat, None)) /\
  (forall fl,
     repeat_signal_cycle fl Selecting None first_emergency_world = None) /\
  exists w3 s,
    before_print first_emergency_world 0 = Some w3 /\
    current_green w3 = 0%nat /\ current_yellow w3 = 0%Z /\
    nth_error (signals w3) 0 = Some s /\
    green s = DEFAULT_GREEN /\
    green s
    <> nonlinear_green_time (waiting_count first_emergency_world
                               (DIRECTIONS 0)).
Proof.
  assert (Sel : forall fl,
            selection fl first_emergency_world None = Some (0%nat, None)).
  { intros fl. unfold selection.
    replace (scan_emergencies first_emergency_world)
      with (Some 0, Some 0%nat) by (vm_compute; reflexivity).
    reflexivity. }
  split.
  { exact (reach_generate _ _ _ _ (mkDraws 0.01 0 L0 0 0)
             (reach_start _ _ _)). }
  split; [vm_compute; reflexivity |].
  split; [vm_compute; reflexivity |].
  split; [exact Sel |].
  split.
  { intros fl. cbn [repeat_signal_cycle]. rewrite Sel.
    vm_compute. reflexivity. }
  eexists. eexists.
  split; [vm_compute; reflexivity |].
  split; [reflexivity |]. split; [reflexivity |].
  split; [reflexivity |]. split; [reflexivity |].
  vm_compute. discriminate.
Qed.

(** ** Order of the vehicles of a lane queue in the running system *)







(** *** Every pair of a queue, for pictures of fitting size *)





Lemma at_spawn_point_waiting (d : Direction) (l : LaneId) (v : Vehicle)
    (n : Z) :
  at_spawn_point d l v -> at_spawn_point d l (set_waiting_time v n).
Proof. exact (fun H => H). Qed.






(** *** The order in the states of the running system *)





